(** * rules_go: standard-library provisioning and the builder environment

    A shallow embedding of
      - go/private/actions/stdlib.bzl   (the provisioner, Starlark), and
      - go/tools/builders/env.go        (the builder environment, Go), with the
        replication engine that follows it in the same source file,
    together with the properties of these programs that the specification
    states.

    Layout: text helpers; the Starlark provisioner; Go results, the Unix path
    functions and the file-system model; the Go environment layer with the
    replication engine; the notions the properties are stated with and the
    concrete inputs they are tried on; the variables, tools and printed
    commands of the builder environment, with the notions and inputs of the
    properties of the code beyond the specification; then the theorems,
    grouped the same way, those beyond the specification last. *)

From Stdlib Require Import ZArith Ascii String List Bool Lia Permutation.
From stdpp Require Import base option list sorting gmap strings pretty.

Import ListNotations.
Local Open Scope string_scope.
Local Open Scope list_scope.

(* ===================================================================== *)
(** * Text helpers shared by both programs *)
(* ===================================================================== *)

(** [strings.HasPrefix s p] (Go) and [s.startswith(p)] (Starlark). *)
Fixpoint HasPrefix (s p : string) {struct p} : bool :=
  match p, s with
  | EmptyString, _ => true
  | String _ _, EmptyString => false
  | String b p', String a s' => Ascii.eqb a b && HasPrefix s' p'
  end.

(** [s[n:]] on a string: the text after the first [n] characters, empty when
    [n] is past the end (Starlark clamps; Go callers below guard the bound). *)
Fixpoint slice_from (n : nat) (s : string) : string :=
  match n, s with
  | O, _ => s
  | S _, EmptyString => EmptyString
  | S n', String _ s' => slice_from n' s'
  end.

(** [sep.join(l)] (Starlark) and [strings.Join(l, sep)] (Go). *)
Definition Join_strings (l : list string) (sep : string) : string :=
  String.concat sep l.

(* ===================================================================== *)
(** * The provisioner: go/private/actions/stdlib.bzl *)
(* ===================================================================== *)

Module Provision.

(** A Bazel [File]: the two attributes the provisioner reads. *)
Record File := mkFile { path : string; dirname : string }.

#[export] Instance File_eq_dec : EqDecision File.
Proof. solve_decision. Defined.

(** [go.mode]. *)
Record Mode := mkMode {
  mode_goos : string;
  mode_goarch : string;
  mode_race : bool;
  mode_msan : bool;
  mode_pure : bool;
  mode_link : string
}.

(** [go.sdk]. *)
Record Sdk := mkSdk {
  sdk_goos : string;
  sdk_goarch : string;
  sdk_root_file : File;
  sdk_libs : list File;
  sdk_srcs : list File;
  sdk_headers : list File;
  sdk_tools : list File;
  sdk_go : File;
  sdk_package_list : File
}.

(** [go.cgo_tools]. *)
Record CgoTools := mkCgoTools {
  c_compiler_path : string;
  c_compile_options : list string
}.

(** The [go] context object, as far as the provisioner reads it.
    [go_zipper] is [None] when the attribute is unset (falsy in Starlark). *)
Record GoContext := mkGo {
  go_mode : Mode;
  go_sdk : Sdk;
  go_env : gmap string string;
  go_cgo_tools : CgoTools;
  go_zipper : option File;
  go_crosstool : list File;
  go_toolchain_builder : File
}.

(** The [GoStdLib] provider. *)
Record GoStdLib := mkGoStdLib {
  root_file : File;
  libs : list File
}.

(** One call of [go.actions.run]. *)
Record RunAction := mkRun {
  run_inputs : list File;
  run_outputs : list File;
  run_mnemonic : string;
  run_progress_message : option string;
  run_executable : File;
  run_arguments : list string;
  run_env : option (gmap string string)
}.

(** What the provisioner registers with the build-action API, in order. *)
Inductive Action :=
| ActWrite (output : File) (content : string)
| ActRun (r : RunAction).

Definition is_run (a : Action) : bool :=
  match a with ActRun _ => true | ActWrite _ _ => false end.

Section Provisioner.

(** [LINKMODE_NORMAL], [link_mode_args] and [extldflags_from_cc_toolchain]
    are loaded from go/private/mode.bzl; the declaring functions and
    [builder_args] belong to the context object. None of them is defined in
    stdlib.bzl, so the provisioner is parametric in them. *)
Variable LINKMODE_NORMAL : string.
Variable link_mode_args : Mode -> list string.
Variable extldflags_from_cc_toolchain : GoContext -> list string.
Variable declare_directory : GoContext -> string -> File.
Variable declare_file : GoContext -> string -> File.
Variable actions_declare_file : string -> File.
Variable builder_args : GoContext -> string -> list string.

Definition _should_use_sdk_stdlib (go : GoContext) : bool :=
  String.eqb (mode_goos (go_mode go)) (sdk_goos (go_sdk go)) &&
  String.eqb (mode_goarch (go_mode go)) (sdk_goarch (go_sdk go)) &&
  negb (mode_race (go_mode go)) &&
  negb (mode_msan (go_mode go)) &&
  negb (mode_pure (go_mode go)) &&
  String.eqb (mode_link (go_mode go)) LINKMODE_NORMAL.

Definition _sdk_stdlib (go : GoContext) : GoStdLib :=
  {| root_file := sdk_root_file (go_sdk go); libs := sdk_libs (go_sdk go) |}.

(** [env = go.env] followed by [env.update({...})]. *)
Definition stdlib_env (go : GoContext) : gmap string string :=
  let env := go_env go in
  if mode_pure (go_mode go) then
    <["CGO_ENABLED" := "0"]> env
  else
    <["CGO_LDFLAGS" := Join_strings (extldflags_from_cc_toolchain go) " "]>
    (<["CGO_CFLAGS" := Join_strings (c_compile_options (go_cgo_tools go)) " "]>
    (<["CC" := c_compiler_path (go_cgo_tools go)]>
    (<["CGO_ENABLED" := "1"]> env))).

(** [go.sdk.srcs + go.sdk.headers + go.sdk.tools + [go.sdk.go, go.sdk.root_file]]. *)
Definition all_sdk_inputs (go : GoContext) : list File :=
  let sdk := go_sdk go in
  sdk_srcs sdk ++ sdk_headers sdk ++ sdk_tools sdk ++ [sdk_go sdk; sdk_root_file sdk].

(** One pass of the [for f in sdk_inputs] loop: the zipper argument
    [rel + "=" + f.path] with [rel = f.path[prefixlen:]]. *)
Definition zip_entry_arg (prefixlen : nat) (f : File) : string :=
  let rel := slice_from prefixlen (path f) in
  rel +:+ "=" +:+ path f.

(** The [if go.zipper:] block: the packaging action, the substituted inputs
    and the extra builder arguments. *)
Definition zip_sdk_inputs (go : GoContext) (zipper : File) (sdk_inputs : list File)
  : list Action * list File * list string :=
  let sdkzip := actions_declare_file "sdk.zip" in
  let zipargs := ["cC"; path sdkzip] in
  let prefixlen := (String.length (dirname (sdk_root_file (go_sdk go))) + 1)%nat in
  let zipargs := zipargs ++ map (zip_entry_arg prefixlen) sdk_inputs in
  let archive := ActRun {|
    run_inputs := sdk_inputs;
    run_outputs := [sdkzip];
    run_mnemonic := "GoStdlibZip";
    run_progress_message :=
      Some ("Packaging " +:+ pretty (List.length sdk_inputs) +:+ " stdlib files");
    run_executable := zipper;
    run_arguments := zipargs;
    run_env := None |} in
  ([archive], [sdkzip], ["-sdkzip"; path sdkzip]).

(** [_build_stdlib]: the provider returned and the actions registered, in
    the order of the calls. *)
Definition _build_stdlib (go : GoContext) : GoStdLib * list Action :=
  let pkg := declare_directory go "pkg" in
  let src := declare_directory go "src" in
  let root_file := declare_file go "ROOT" in
  let args := builder_args go "stdlib" in
  let args := args ++ ["-out"; dirname root_file] in
  let args := if mode_race (go_mode go) then args ++ ["-race"] else args in
  let args := args ++ link_mode_args (go_mode go) in
  let written := [ActWrite root_file ""] in
  let env := stdlib_env go in
  let sdk_inputs := all_sdk_inputs go in
  let '(packaging, sdk_inputs, zip_args) :=
    match go_zipper go with
    | Some zipper => zip_sdk_inputs go zipper sdk_inputs
    | None => ([], sdk_inputs, [])
    end in
  let args := args ++ zip_args in
  let inputs := sdk_inputs ++ go_crosstool go ++ [sdk_package_list (go_sdk go)] in
  let outputs := [pkg; src] in
  let build := ActRun {|
    run_inputs := inputs;
    run_outputs := outputs;
    run_mnemonic := "GoStdlib";
    run_progress_message := None;
    run_executable := go_toolchain_builder go;
    run_arguments := args;
    run_env := Some env |} in
  ({| root_file := root_file; libs := [pkg] |}, written ++ packaging ++ [build]).

(** [_stdlib_library_to_source]: the value stored under [source["stdlib"]]
    and the actions registered on the way. *)
Definition _stdlib_library_to_source (go : GoContext) : GoStdLib * list Action :=
  if _should_use_sdk_stdlib go then (_sdk_stdlib go, [])
  else _build_stdlib go.

End Provisioner.

End Provision.

(* ===================================================================== *)
(** * Go values: errors and results *)
(* ===================================================================== *)

(** A Go [error] value is carried as its message. *)
Definition error := string.

(** The [(value, error)] pair a fallible Go function returns. *)
Inductive res (A : Type) : Type :=
| Ok (a : A)
| Err (e : error).
Arguments Ok {A} a.
Arguments Err {A} e.

Definition is_ok {A} (r : res A) : bool :=
  match r with Ok _ => true | Err _ => false end.

(* ===================================================================== *)
(** * path/filepath on a Unix host *)
(* ===================================================================== *)

Module filepath.

Definition Separator : ascii := "/"%char.

(** [strings.Split(s, string(c))]: the pieces between occurrences of [c];
    never the empty list. *)
Fixpoint Split (c : ascii) (s : string) : list string :=
  match s with
  | EmptyString => [EmptyString]
  | String a s' =>
      if Ascii.eqb a c then EmptyString :: Split c s'
      else match Split c s' with
           | [] => [String a EmptyString]
           | h :: t => String a h :: t
           end
  end.

(** One element of a path under [Clean], on the stack of elements kept so
    far (last element first). *)
Definition clean_step (rooted : bool) (stack : list string) (c : string) : list string :=
  if String.eqb c "" || String.eqb c "." then stack
  else if String.eqb c ".." then
    match stack with
    | top :: rest => if String.eqb top ".." then c :: stack else rest
    | [] => if rooted then [] else [c]
    end
  else c :: stack.

(** The elements [Clean] keeps, first element first. *)
Definition elements_of (rooted : bool) (p : string) : list string :=
  rev (fold_left (clean_step rooted) (Split Separator p) []).

Definition IsAbs (p : string) : bool := HasPrefix p "/".

(** [filepath.Clean]: separators collapsed, "." elements dropped, ".."
    resolved against the element before it, "." for the empty result. *)
Definition Clean (p : string) : string :=
  if String.eqb p "" then "."
  else
    let out := Join_strings (elements_of (IsAbs p) p) "/" in
    if IsAbs p then "/" +:+ out
    else if String.eqb out "" then "." else out.

(** [path[:i+1]] for [i] the index of the last separator; empty when the
    path has none. *)
Fixpoint upto_last_separator (s : string) : string :=
  match s with
  | EmptyString => EmptyString
  | String a s' =>
      let r := upto_last_separator s' in
      if String.eqb r "" then
        (if Ascii.eqb a Separator then String a EmptyString else EmptyString)
      else String a r
  end.

(** [filepath.Dir]. *)
Definition Dir (p : string) : string := Clean (upto_last_separator p).

(** [filepath.Join]: leading empty elements are skipped, the rest is joined
    with the separator and cleaned; no element at all gives "". *)
Fixpoint Join (elem : list string) : string :=
  match elem with
  | [] => ""
  | e :: rest => if String.eqb e "" then Join rest
                 else Clean (Join_strings elem "/")
  end.

(** [filepath.Abs], given what [os.Getwd] returns. *)
Definition Abs (Getwd : res string) (p : string) : res string :=
  if IsAbs p then Ok (Clean p)
  else match Getwd with
       | Ok wd => Ok (Join [wd; p])
       | Err e => Err e
       end.

(** The common leading elements of two element lists, removed from both. *)
Fixpoint strip_common (b t : list string) : list string * list string :=
  match b, t with
  | x :: b', y :: t' => if String.eqb x y then strip_common b' t' else (b, t)
  | _, _ => (b, t)
  end.

(** [filepath.Rel]. *)
Definition Rel (basepath targpath : string) : res string :=
  let base := Clean basepath in
  let targ := Clean targpath in
  if String.eqb targ base then Ok "."
  else if negb (Bool.eqb (IsAbs base) (IsAbs targ)) then
    Err ("Rel: can't make " +:+ targpath +:+ " relative to " +:+ basepath)
  else
    let b := if String.eqb base "." then [] else elements_of (IsAbs base) base in
    let t := elements_of (IsAbs targ) targ in
    let '(b', t') := strip_common b t in
    match b' with
    | [] => Ok (Join_strings t' "/")
    | x :: _ =>
        if String.eqb x ".." then
          Err ("Rel: can't make " +:+ targpath +:+ " relative to " +:+ basepath)
        else Ok (Join_strings (map (fun _ => "..") b' ++ t') "/")
    end.

End filepath.

(* ===================================================================== *)
(** * The file system the builder runs on *)
(* ===================================================================== *)

(** The model keeps what the replication engine can observe: which paths
    exist, of which kind, and the bytes and permission bits of regular files.
    Not modelled: permission checks (every operation is permitted), hard-link
    identity (a link is a second file with equal bytes and bits), directory
    permission bits, and symbolic links in the middle of a path (only the
    last element of a path is followed).

    A path is resolved by its text ([locate]): a ".." cancels the element
    before it without a look at the tree, and a separator at the end is
    dropped, where the kernel looks every element up: it answers an error
    when the element cancelled is missing or a file, and goes on from where
    it points when it is a link. Where the kernel
    finds a place by passing directories only, it is the place [locate]
    gives. A call that is handed a path as its caller wrote it is therefore a
    model of the Go call for clean paths ([filepath.Clean p = p]) only, over
    a tree without symbolic links in which every entry lies in a directory
    and the working directory is there. *)

Module os.

Inductive node :=
| NDir
| NFile (data : string) (perm : N)
| NSymlink (target : string).

#[export] Instance node_eq_dec : EqDecision node.
Proof. solve_decision. Defined.

(** A location: the elements of an absolute, clean path. The root is []. *)
Abbreviation location := (list string).

(** The state of the file system: the working directory of the process and
    the entries below the root. *)
Record filesys := mkFs {
  cwd : location;
  tree : gmap location node
}.

(** A computation on the file system; the state is returned on failure too,
    since a failing Go call leaves its earlier writes in place. *)
Definition IO (A : Type) : Type := filesys -> res A * filesys.

Definition ret {A} (a : A) : IO A := fun fs => (Ok a, fs).
Definition fail {A} (e : error) : IO A := fun fs => (Err e, fs).
Definition bind {A B} (m : IO A) (k : A -> IO B) : IO B :=
  fun fs => match m fs with
            | (Ok a, fs') => k a fs'
            | (Err e, fs') => (Err e, fs')
            end.
(** A call whose error the caller discards: [_ = f()]. *)
Definition ignore_error {A} (m : IO A) : IO unit :=
  fun fs => (Ok tt, snd (m fs)).
(** A call that only reads the state. *)
Definition query {A} (f : filesys -> res A) : IO A := fun fs => (f fs, fs).

(** [for _, x := range l { if err := f(x); err != nil { return err } }]. *)
Fixpoint for_each {A} (l : list A) (f : A -> IO unit) : IO unit :=
  match l with
  | [] => ret tt
  | x :: rest => bind (f x) (fun _ => for_each rest f)
  end.

(** The location a path names: relative paths start at the working
    directory, ".." at the root stays at the root. *)
Definition locate (fs : filesys) (p : string) : location :=
  let start := if filepath.IsAbs p then [] else rev (cwd fs) in
  rev (fold_left (filepath.clean_step true) (filepath.Split filepath.Separator p) start).

(** [Lstat] on a location: the root always exists. *)
Definition lookup_node (t : gmap location node) (k : location) : option node :=
  match k with
  | [] => Some NDir
  | _ => t !! k
  end.

Definition parent (k : location) : location := removelast k.

(** Where a symbolic link at location [k] with text [target] points. *)
Definition link_destination (k : location) (target : string) : location :=
  let start := if filepath.IsAbs target then [] else rev (parent k) in
  rev (fold_left (filepath.clean_step true)
         (filepath.Split filepath.Separator target) start).

(** Follow symbolic links at the last element, at most [fuel] of them. *)
Fixpoint follow (fuel : nat) (t : gmap location node) (k : location) : res location :=
  match lookup_node t k with
  | Some (NSymlink target) =>
      match fuel with
      | O => Err "too many links"
      | S fuel' => follow fuel' t (link_destination k target)
      end
  | _ => Ok k
  end.

(** The limit of [filepath.EvalSymlinks] and of the kernel. *)
Definition max_links : nat := 255.

(** [os.Stat]: the node a path names after following links. *)
Definition Stat (p : string) : IO node :=
  query (fun fs =>
    match follow max_links (tree fs) (locate fs p) with
    | Err e => Err e
    | Ok k => match lookup_node (tree fs) k with
              | Some n => Ok n
              | None => Err ("stat " +:+ p +:+ ": no such file or directory")
              end
    end).

(** [os.Lstat]. *)
Definition Lstat (p : string) : IO node :=
  query (fun fs =>
    match lookup_node (tree fs) (locate fs p) with
    | Some n => Ok n
    | None => Err ("lstat " +:+ p +:+ ": no such file or directory")
    end).

Definition IsDir (n : node) : bool :=
  match n with NDir => true | _ => false end.

(** [filepath.EvalSymlinks] for a link at the last element. *)
Definition EvalSymlinks (p : string) : IO string :=
  query (fun fs =>
    match follow max_links (tree fs) (locate fs p) with
    | Err e => Err e
    | Ok k =>
        match lookup_node (tree fs) k with
        | None => Err ("lstat " +:+ p +:+ ": no such file or directory")
        | Some _ =>
            if decide (k = locate fs p) then Ok (filepath.Clean p)
            else Ok ("/" +:+ Join_strings k "/")
        end
    end).

(** [os.MkdirAll] below [done]: every missing element of [todo] is created
    in turn; an element that exists and is not a directory stops it. *)
Fixpoint mkdir_all (t : gmap location node) (done todo : location)
  : res unit * gmap location node :=
  match todo with
  | [] => (Ok tt, t)
  | c :: todo' =>
      let k := done ++ [c] in
      match follow max_links t k with
      | Err e => (Err e, t)
      | Ok k' =>
          match lookup_node t k' with
          | Some NDir => mkdir_all t k todo'
          | Some _ => (Err "mkdir: not a directory", t)
          | None => mkdir_all (<[k' := NDir]> t) k todo'
          end
      end
  end.

Definition MkdirAll (p : string) : IO unit :=
  fun fs =>
    let '(r, t) := mkdir_all (tree fs) [] (locate fs p) in
    (r, mkFs (cwd fs) t).

(** Whether some entry lies strictly below location [k]. *)
Definition has_children (t : gmap location node) (k : location) : bool :=
  bool_decide (map_Exists (fun k' _ => k `prefix_of` k' /\ k' <> k) t).

(** The last element of the path is ".": [rmdir] and [os.RemoveAll] refuse
    such a path. *)
Definition endsWithDot (p : string) : bool :=
  String.eqb p "." ||
  match last (filepath.Split filepath.Separator p) with
  | Some e => String.eqb e "." && negb (String.eqb p ".")
  | None => false
  end.

(** [os.Remove]: a file or link, or an empty directory. *)
Definition Remove (p : string) : IO unit :=
  fun fs =>
    let k := locate fs p in
    if endsWithDot p then (Err ("remove " +:+ p +:+ ": invalid argument"), fs)
    else
      match k, tree fs !! k with
      | [], _ => (Err ("remove " +:+ p +:+ ": device or resource busy"), fs)
      | _, None => (Err ("remove " +:+ p +:+ ": no such file or directory"), fs)
      | _, Some NDir =>
          if has_children (tree fs) k
          then (Err ("remove " +:+ p +:+ ": directory not empty"), fs)
          else (Ok tt, mkFs (cwd fs) (delete k (tree fs)))
      | _, Some _ => (Ok tt, mkFs (cwd fs) (delete k (tree fs)))
      end.

(** [os.RemoveAll]: the entry and everything below it; no error when the
    path does not exist. *)
Definition RemoveAll (p : string) : IO unit :=
  fun fs =>
    if String.eqb p "" then (Ok tt, fs)
    else if endsWithDot p then (Err ("RemoveAll " +:+ p +:+ ": invalid argument"), fs)
    else
      let k := locate fs p in
      (Ok tt, mkFs (cwd fs)
                (filter (fun kv => ~ (k `prefix_of` kv.1)) (tree fs))).

(** The permission bits a new file gets from [os.Create] (0666 under the
    usual mask 022). *)
Definition create_perm : N := 420.

(** [os.Create]: the file is created or truncated; its directory must exist
    and the path must not name a directory. Returns the location written. *)
Definition Create (p : string) : IO location :=
  fun fs =>
    match follow max_links (tree fs) (locate fs p) with
    | Err e => (Err e, fs)
    | Ok k =>
        match k, lookup_node (tree fs) (parent k) with
        | [], _ => (Err ("open " +:+ p +:+ ": is a directory"), fs)
        | _, Some NDir =>
            match tree fs !! k with
            | Some NDir => (Err ("open " +:+ p +:+ ": is a directory"), fs)
            | Some (NFile _ perm) =>
                (Ok k, mkFs (cwd fs) (<[k := NFile "" perm]> (tree fs)))
            | _ => (Ok k, mkFs (cwd fs) (<[k := NFile "" create_perm]> (tree fs)))
            end
        | _, Some _ => (Err ("open " +:+ p +:+ ": not a directory"), fs)
        | _, None => (Err ("open " +:+ p +:+ ": no such file or directory"), fs)
        end
    end.

(** Writing [data] to the open file at [k]. *)
Definition write_all (k : location) (data : string) : IO unit :=
  fun fs =>
    match tree fs !! k with
    | Some (NFile _ perm) => (Ok tt, mkFs (cwd fs) (<[k := NFile data perm]> (tree fs)))
    | _ => (Err "write: bad file descriptor", fs)
    end.

(** [os.Chmod]. *)
Definition Chmod (p : string) (perm : N) : IO unit :=
  fun fs =>
    match follow max_links (tree fs) (locate fs p) with
    | Err e => (Err e, fs)
    | Ok k =>
        match tree fs !! k with
        | Some (NFile data _) => (Ok tt, mkFs (cwd fs) (<[k := NFile data perm]> (tree fs)))
        | Some NDir => (Ok tt, fs)
        | _ => (Err ("chmod " +:+ p +:+ ": no such file or directory"), fs)
        end
    end.

(** [os.Open] followed by reading to the end: the bytes of a regular file;
    [None] for a directory, whose reads fail. *)
Definition Open (p : string) : IO (option string) :=
  query (fun fs =>
    match follow max_links (tree fs) (locate fs p) with
    | Err e => Err e
    | Ok k => match lookup_node (tree fs) k with
              | Some (NFile data _) => Ok (Some data)
              | Some NDir => Ok None
              | _ => Err ("open " +:+ p +:+ ": no such file or directory")
              end
    end).

(** [ioutil.ReadFile]. *)
Definition ReadFile (p : string) : IO string :=
  bind (Open p) (fun r =>
    match r with
    | Some data => ret data
    | None => fail ("read " +:+ p +:+ ": is a directory")
    end).

(** [os.Link]: the new name must be free and its directory must exist; the
    old name must be a file. *)
Definition Link (oldname newname : string) : IO unit :=
  fun fs =>
    let k := locate fs newname in
    match lookup_node (tree fs) (locate fs oldname),
          lookup_node (tree fs) k,
          lookup_node (tree fs) (parent k) with
    | None, _, _ => (Err ("link " +:+ oldname +:+ ": no such file or directory"), fs)
    | Some NDir, _, _ => (Err ("link " +:+ oldname +:+ ": operation not permitted"), fs)
    | Some _, Some _, _ => (Err ("link " +:+ newname +:+ ": file exists"), fs)
    | Some n, None, Some NDir => (Ok tt, mkFs (cwd fs) (<[k := n]> (tree fs)))
    | Some _, None, _ => (Err ("link " +:+ newname +:+ ": no such file or directory"), fs)
    end.

(** [os.Symlink]: the new name must be free and its directory must exist. *)
Definition Symlink (oldname newname : string) : IO unit :=
  fun fs =>
    let k := locate fs newname in
    match lookup_node (tree fs) k, lookup_node (tree fs) (parent k) with
    | Some _, _ => (Err ("symlink " +:+ newname +:+ ": file exists"), fs)
    | None, Some NDir => (Ok tt, mkFs (cwd fs) (<[k := NSymlink oldname]> (tree fs)))
    | None, _ => (Err ("symlink " +:+ newname +:+ ": no such file or directory"), fs)
    end.

(** [os.Mkdir]: the name must be free and its directory must exist. *)
Definition Mkdir (p : string) : IO unit :=
  fun fs =>
    let k := locate fs p in
    match lookup_node (tree fs) k, lookup_node (tree fs) (parent k) with
    | Some _, _ => (Err ("mkdir " +:+ p +:+ ": file exists"), fs)
    | None, Some NDir => (Ok tt, mkFs (cwd fs) (<[k := NDir]> (tree fs)))
    | None, Some _ => (Err ("mkdir " +:+ p +:+ ": not a directory"), fs)
    | None, None => (Err ("mkdir " +:+ p +:+ ": no such file or directory"), fs)
    end.

(** The name of the entry at [k'] when it lies directly in directory [k]. *)
Definition child_name (k k' : location) : option string :=
  match last k' with
  | Some n => if decide (k' = k ++ [n]) then Some n else None
  | None => None
  end.

(** The names in a directory, sorted, as [filepath.Walk] reads them. *)
Definition readDirNames (p : string) : IO (list string) :=
  query (fun fs =>
    let k := locate fs p in
    Ok (merge_sort (fun a b => String.leb a b)
          (omap (fun kv => child_name k kv.1) (map_to_list (tree fs))))).

End os.

(* ===================================================================== *)
(** * The builder environment: go/tools/builders/env.go *)
(* ===================================================================== *)

Module Builders.

Import os.

(** The process around the builder: its file system, the directory
    [os.TempDir] answers, the suffixes the temporary-name generator will
    draw (in order), and what has been written to the log. *)
Record process := mkProcess {
  fsys : filesys;
  TMPDIR : string;
  suffixes : list string;
  logged : list string
}.

(** ** env *)

Record env := mkEnv {
  sdk : string;
  sdkzip : string;
  installSuffix : string;
  verbose : bool;
  workDirPath : string;
  shouldPreserveWorkDir : bool
}.

(** The command line as [flag.FlagSet.Parse] sees it: the value given to
    each flag [envFlags] registers, [None] for a flag that is absent. *)
Record flagValues := mkFlags {
  flag_sdk : option string;
  flag_sdkzip : option string;
  flag_tags : option string;
  flag_installsuffix : option string;
  flag_v : option bool;
  flag_work : option bool
}.

(** [envFlags] and the parse that follows it: every field starts at the
    default given at registration and takes the value of its flag. The tags
    flag is stored outside [env]. *)
Definition envFlags (flags : flagValues) : env :=
  {| sdk := default "" (flag_sdk flags);
     sdkzip := default "" (flag_sdkzip flags);
     installSuffix := default "" (flag_installsuffix flags);
     verbose := default false (flag_v flags);
     workDirPath := "";
     shouldPreserveWorkDir := default false (flag_work flags) |}.

(** [checkFlags]: [None] is the nil error. *)
Definition checkFlags (e : env) : option error :=
  if String.eqb (sdk e) "" then Some "-sdk was not set"
  else None.

(** ** workDir *)

(** The two closures [workDir] returns as [cleanup]. *)
Inductive cleanup :=
| cleanup_nothing        (* func() {} *)
| cleanup_RemoveAll.     (* func() { os.RemoveAll(e.workDirPath) } *)

(** [os.TempDir]. *)
Definition os_TempDir (p : process) : string :=
  if String.eqb (TMPDIR p) "" then "/tmp" else TMPDIR p.

(** The retry loop of [ioutil.TempDir]: the next suffix is drawn until
    [os.Mkdir] stops answering "file exists"; [draws] holds the suffixes of
    the tries the loop has left. *)
Fixpoint TempDir_try (dir pre : string) (draws : list string) (fs : filesys)
  : res string * list string * filesys :=
  match draws with
  | [] => (Err ("mkdir " +:+ dir +:+ ": file exists"), [], fs)
  | s :: rest =>
      let try := filepath.Join [dir; pre +:+ s] in
      match lookup_node (tree fs) (locate fs try) with
      | Some _ => TempDir_try dir pre rest fs
      | None =>
          match Mkdir try fs with
          | (Ok _, fs') => (Ok try, rest, fs')
          | (Err e, fs') => (Err e, rest, fs')
          end
      end
  end.

(** [ioutil.TempDir]. *)
Definition TempDir (dir pre : string) (p : process) : res string * process :=
  let dir := if String.eqb dir "" then os_TempDir p else dir in
  let '(r, rest, fs) := TempDir_try dir pre (suffixes p) (fsys p) in
  (r, mkProcess fs (TMPDIR p) rest (logged p)).

Definition set_workDirPath (e : env) (path : string) : env :=
  {| sdk := sdk e; sdkzip := sdkzip e; installSuffix := installSuffix e;
     verbose := verbose e; workDirPath := path;
     shouldPreserveWorkDir := shouldPreserveWorkDir e |}.

Definition log_Printf (line : string) (p : process) : process :=
  mkProcess (fsys p) (TMPDIR p) (suffixes p) (logged p ++ [line]).

(** [workDir]: the three results, and the receiver and the process after
    the call. *)
Definition workDir (e : env) (p : process)
  : (string * cleanup * option error) * env * process :=
  if negb (String.eqb (workDirPath e) "") then
    ((workDirPath e, cleanup_nothing, None), e, p)
  else
    match TempDir "" "rules_go_work-" p with
    | (Err err, p') => (("", cleanup_nothing, Some err), set_workDirPath e "", p')
    | (Ok name, p') =>
        let e' := set_workDirPath e name in
        let p' := if verbose e' then log_Printf ("WORK=" +:+ name) p' else p' in
        let cleanup := if shouldPreserveWorkDir e' then cleanup_nothing
                       else cleanup_RemoveAll in
        ((name, cleanup, None), e', p')
    end.

(** Calling a [cleanup] closure; [e] is the receiver it captured, read at
    the time of the call. *)
Definition call_cleanup (c : cleanup) (e : env) (p : process) : process :=
  match c with
  | cleanup_nothing => p
  | cleanup_RemoveAll =>
      mkProcess (snd (RemoveAll (workDirPath e) (fsys p)))
                (TMPDIR p) (suffixes p) (logged p)
  end.

(** ** readParamsFiles *)

Definition LF : ascii := ascii_of_nat 10.

(** [args[lo:hi]]. *)
Definition slice {A} (l : list A) (lo hi : nat) : list A :=
  take (hi - lo) (drop lo l).

(** The first loop: the indices of the arguments that start with "-param=". *)
Fixpoint paramsIndices_from (i : nat) (args : list string) : list nat :=
  match args with
  | [] => []
  | arg :: rest =>
      if HasPrefix arg "-param=" then i :: paramsIndices_from (S i) rest
      else paramsIndices_from (S i) rest
  end.

(** [strings.Split(string(content), "\n")] with the final empty line dropped. *)
Definition fileArgs_of (content : string) : res (list string) :=
  let fileArgs := filepath.Split LF content in
  match last fileArgs with
  | None => Err "panic: index out of range"
  | Some l => if String.eqb l "" then Ok (removelast fileArgs) else Ok fileArgs
  end.

(** The second loop, over [paramsIndices]. *)
Fixpoint expand_params (args : list string) (paramsIndices : list nat)
    (expandedArgs : list string) (last : nat) : IO (list string * nat) :=
  match paramsIndices with
  | [] => ret (expandedArgs, last)
  | pi :: rest =>
      let expandedArgs := expandedArgs ++ slice args last pi in
      let last := S pi in
      let fileName := slice_from (String.length "-param=") (nth pi args "") in
      bind (ReadFile fileName) (fun content =>
        match fileArgs_of content with
        | Err e => fail e
        | Ok fileArgs => expand_params args rest (expandedArgs ++ fileArgs) last
        end)
  end.

Definition readParamsFiles (args : list string) : IO (list string) :=
  let paramsIndices := paramsIndices_from 0 args in
  if Nat.eqb (List.length paramsIndices) 0 then ret args
  else
    bind (expand_params args paramsIndices [] 0) (fun '(expandedArgs, last) =>
      ret (expandedArgs ++ slice args last (List.length args))).

(** [splitArgs]. *)
Fixpoint splitArgs (args : list string) : list string * list string :=
  match args with
  | [] => ([], [])
  | arg :: rest =>
      if String.eqb arg "--" then ([], rest)
      else let '(b, t) := splitArgs rest in (arg :: b, t)
  end.

(** ** abs and absArgs *)

Section Absolute.

(** What [os.Getwd] answers. *)
Variable Getwd : res string.

Definition abs (path : string) : string :=
  if HasPrefix path "__BAZEL_" then path
  else match filepath.Abs Getwd path with
       | Err _ => path
       | Ok abs => abs
       end.

(** The loop over [flags] for the argument at one index: the argument as
    rewritten, and whether [absNext] was set. *)
Fixpoint absArg (arg : string) (flags : list string) : string * bool :=
  match flags with
  | [] => (arg, false)
  | f :: rest =>
      if negb (HasPrefix arg f) then absArg arg rest
      else
        let possibleValue := slice_from (String.length f) arg in
        if Nat.eqb (String.length possibleValue) 0 then (arg, true)
        else
          match possibleValue with
          | String "="%char value => (f +:+ "=" +:+ abs value, false)
          | _ => (f +:+ "" +:+ abs possibleValue, false)
          end
  end.

(** The loop over [args], from the state [absNext]. *)
Fixpoint absArgs_from (absNext : bool) (args flags : list string) : list string :=
  match args with
  | [] => []
  | arg :: rest =>
      if absNext then abs arg :: absArgs_from false rest flags
      else let '(arg', next) := absArg arg flags in
           arg' :: absArgs_from next rest flags
  end.

(** [absArgs]: the contents of [args] after the call. *)
Definition absArgs (args flags : list string) : list string :=
  absArgs_from false args flags.

End Absolute.

Definition cgoAbsEnvFlags : list string :=
  ["-I"; "-L"; "-isysroot"; "-isystem"; "-iquote"; "-include"; "-gcc-toolchain"; "--sysroot"].

(** ** The replication engine *)

Definition replicateMode := Z.
Definition copyMode : replicateMode := 0%Z.
Definition hardlinkMode : replicateMode := 1%Z.
Definition softlinkMode : replicateMode := 2%Z.

Record replicateConfig := mkConfig {
  removeFirst : bool;
  fileMode : replicateMode;
  dirMode : replicateMode;
  paths : list string;
  zip : string
}.

Definition replicateOption := replicateConfig -> replicateConfig.

Definition replicatePaths (ps : list string) : replicateOption :=
  fun config =>
    {| removeFirst := removeFirst config; fileMode := fileMode config;
       dirMode := dirMode config; paths := paths config ++ ps;
       zip := zip config |}.

Definition replicateFromZip (z : string) : replicateOption :=
  fun config =>
    {| removeFirst := removeFirst config; fileMode := fileMode config;
       dirMode := dirMode config; paths := paths config; zip := z |}.

Definition replicatePrepare (dst : string) (config : replicateConfig) : IO unit :=
  let dir := filepath.Dir dst in
  fun fs =>
    match MkdirAll dir fs with
    | (Err err, fs') => (Err ("Failed to make " +:+ dir +:+ ": " +:+ err), fs')
    | (Ok _, fs') =>
        if removeFirst config then ignore_error (Remove dst) fs'
        else (Ok tt, fs')
    end.

(** What [stat.Mode()] hands to [os.Chmod]. *)
Definition perm_of (n : node) : N :=
  match n with
  | NFile _ perm => perm
  | _ => 493
  end.

(** [createFile]; [input] is what reading [in] to the end gives. *)
Definition createFile (input : res string) (perm : N) (dst : string) : IO unit :=
  bind (Create dst) (fun out =>
    match input with
    | Err err => fail err
    | Ok data => bind (write_all out data) (fun _ => Chmod dst perm)
    end).

Definition invalid_mode (m : replicateMode) : error :=
  "Invalid replication mode " +:+ pretty m.

Definition replicateFile (src dst : string) (config : replicateConfig) : IO unit :=
  bind (replicatePrepare dst config) (fun _ =>
    if Z.eqb (fileMode config) copyMode then
      bind (Stat src) (fun s =>
      bind (Open src) (fun opened =>
        let input := match opened with
                     | Some data => Ok data
                     | None => Err ("read " +:+ src +:+ ": is a directory")
                     end in
        createFile input (perm_of s) dst))
    else if Z.eqb (fileMode config) hardlinkMode then Link src dst
    else if Z.eqb (fileMode config) softlinkMode then Symlink src dst
    else fail (invalid_mode (fileMode config))).

(** The deepest directory nesting [filepath.Walk] descends (a path is at
    most 4096 bytes long). *)
Definition walk_limit : nat := 4096.

(** [filepath.Walk] below an entry whose [Lstat] succeeded. The function
    given to it never answers [SkipDir], which is left out. *)
Fixpoint walk (fuel : nat) (path : string) (info : node)
    (walkFn : string -> res node -> IO unit) : IO unit :=
  match fuel with
  | O => fail ("walk " +:+ path +:+ ": file name too long")
  | S fuel' =>
      if negb (IsDir info) then walkFn path (Ok info)
      else
        bind (readDirNames path) (fun names =>
        bind (walkFn path (Ok info)) (fun _ =>
        for_each names (fun name =>
          let filename := filepath.Join [path; name] in
          fun fs =>
            match Lstat filename fs with
            | (Err err, _) => walkFn filename (Err err) fs
            | (Ok fileInfo, _) => walk fuel' filename fileInfo walkFn fs
            end)))
  end.

Definition Walk (root : string) (walkFn : string -> res node -> IO unit) : IO unit :=
  fun fs =>
    match Lstat root fs with
    | (Err err, _) => walkFn root (Err err) fs
    | (Ok info, _) => walk walk_limit root info walkFn fs
    end.

Definition replicateDir (src dst : string) (config : replicateConfig) : IO unit :=
  bind (replicatePrepare dst config) (fun _ =>
    if Z.eqb (dirMode config) copyMode then
      Walk src (fun path f =>
        match f with
        | Err _ => fail "panic: nil pointer dereference"
        | Ok info =>
            if IsDir info then ret tt
            else match filepath.Rel src path with
                 | Err err => fail err
                 | Ok relative =>
                     replicateFile path (filepath.Join [dst; relative]) config
                 end
        end)
    else if Z.eqb (dirMode config) hardlinkMode then Link src dst
    else if Z.eqb (dirMode config) softlinkMode then Symlink src dst
    else fail (invalid_mode (fileMode config))).

Definition replicateTree (src dst : string) (config : replicateConfig) : IO unit :=
  fun fs =>
    match RemoveAll dst fs with
    | (Err err, fs') =>
        (Err ("Failed to remove file at destination " +:+ dst +:+ ": " +:+ err), fs')
    | (Ok _, fs') =>
        bind (EvalSymlinks src) (fun src =>
        bind (Stat src) (fun s =>
          if IsDir s then replicateDir src dst config
          else replicateFile src dst config)) fs'
    end.

(** [filesystemReplicator.Replicate]. *)
Definition filesystemReplicator_Replicate (src dst : string) (config : replicateConfig)
  : IO unit :=
  if Nat.eqb (List.length (paths config)) 0 then replicateTree src dst config
  else
    for_each (paths config) (fun base =>
      let from := filepath.Join [src; base] in
      let to := filepath.Join [dst; base] in
      replicateTree from to config).

(** An entry of a zip archive: its name, what its external attributes say
    (a directory or not, the permission bits), and what opening and reading
    it gives. *)
Record zip_File := mkZipFile {
  Name : string;
  attr_dir : bool;
  attr_perm : N;
  body : res string
}.

(** The last byte of the name is the separator. *)
Fixpoint ends_with_separator (s : string) : bool :=
  match s with
  | EmptyString => false
  | String a EmptyString => Ascii.eqb a filepath.Separator
  | String _ s' => ends_with_separator s'
  end.

(** [f.FileInfo().IsDir()]: the attributes say so, or the name ends in "/". *)
Definition zip_IsDir (f : zip_File) : bool :=
  attr_dir f || ends_with_separator (Name f).

Section Zip.

(** [zip.OpenReader]: the entries of the archive at a path, in the order of
    its directory. *)
Variable OpenReader : string -> res (list zip_File).

(** The order in which [range] visits the keys of a map: some arrangement of
    its keys, not fixed by the language. *)
Variable range_order : gset string -> list string.

(** The body of the inner loop over [config.paths]: the filter that selects
    the entry, if any. *)
Definition selected (ps : list string) (f : zip_File) : bool :=
  existsb (fun path => HasPrefix (Name f) path) ps.

(** The loop over [in.File]: the keys of [dirs] and the slice [files]. *)
Fixpoint collect (ps : list string) (entries : list zip_File)
    (dirs : gset string) (files : list zip_File) : gset string * list zip_File :=
  match entries with
  | [] => (dirs, files)
  | f :: rest =>
      if selected ps f then
        if zip_IsDir f then collect ps rest ({[ Name f ]} ∪ dirs) files
        else collect ps rest ({[ filepath.Dir (Name f) ]} ∪ dirs) (files ++ [f])
      else collect ps rest dirs files
  end.

(** The closure [extract]. *)
Definition extract (dst : string) (file : zip_File) : IO unit :=
  let to := filepath.Join [dst; Name file] in
  bind (MkdirAll (filepath.Dir to)) (fun _ =>
    match body file with
    | Err err =>
        fail ("could not open zip file entry " +:+ Name file +:+ ": " +:+ err)
    | Ok data => createFile (Ok data) (attr_perm file) to
    end).

(** The loop [for dir := range dirs]. *)
Definition prepare_dirs (dst : string) (config : replicateConfig)
    (dirs : gset string) : IO unit :=
  for_each (range_order dirs) (fun dir =>
    let to := filepath.Join [dst; dir] in
    replicatePrepare to config).

(** The loop [for _, f := range files]. *)
Definition extract_files (dst : string) (files : list zip_File) : IO unit :=
  for_each files (extract dst).

(** [zipReplicator.Replicate]. *)
Definition zipReplicator_Replicate (src dst : string) (config : replicateConfig)
  : IO unit :=
  match OpenReader (zip config) with
  | Err err => fail err
  | Ok entries =>
      let '(dirs, files) := collect (paths config) entries ∅ [] in
      bind (prepare_dirs dst config dirs) (fun _ => extract_files dst files)
  end.

(** The configuration [replicate] builds: the defaults, then each option in
    turn. *)
Definition configure (options : list replicateOption) : replicateConfig :=
  fold_left (fun config option => option config) options
    {| removeFirst := true; fileMode := copyMode; dirMode := copyMode;
       paths := []; zip := "" |}.

(** [replicate]. *)
Definition replicate (src dst : string) (options : list replicateOption) : IO unit :=
  let config := configure options in
  if String.eqb (zip config) "" then filesystemReplicator_Replicate src dst config
  else zipReplicator_Replicate src dst config.

End Zip.

End Builders.

(* ===================================================================== *)
(** * Notions the properties are stated with *)
(* ===================================================================== *)

Module Notions.

Import filepath os Builders.

(** No occurrence of [c] in the text. *)
Fixpoint free_of (c : ascii) (s : string) : bool :=
  match s with
  | EmptyString => true
  | String a s' => negb (Ascii.eqb a c) && free_of c s'
  end.

(** Decimal digits only, as the suffix of a temporary name is. *)
Definition is_digit (a : ascii) : bool :=
  (48 <=? N_of_ascii a)%N && (N_of_ascii a <=? 57)%N.

Fixpoint is_decimal (s : string) : bool :=
  match s with
  | EmptyString => true
  | String a s' => is_digit a && is_decimal s'
  end.

(** A path element that [Clean] keeps as it is. *)
Definition plain_element (x : string) : Prop :=
  free_of Separator x = true /\ x <> "" /\ x <> "." /\ x <> "..".

(** Following the specification: the lines of a text, each ended by a line
    feed, a last line without line feed counting when it is not empty. *)
Fixpoint lines_from (line : string) (text : string) : list string :=
  match text with
  | EmptyString => if String.eqb line "" then [] else [line]
  | String a text' =>
      if Ascii.eqb a LF then line :: lines_from "" text'
      else lines_from (line +:+ String a "") text'
  end.

Definition lines_of (text : string) : list string := lines_from "" text.

(** Following the specification: the argument itself, or the lines of the
    file it names. *)
Definition expand_argument (content : string -> string) (arg : string) : list string :=
  if HasPrefix arg "-param=" then lines_of (content arg) else [arg].

(** Following the specification: the first of the flags the argument starts
    with. *)
Definition qualifying_flag (flags : list string) (arg : string) : option string :=
  find (fun f => HasPrefix arg f) flags.

(** Following the specification: the argument is a flag on its own, whose
    value is the next argument. *)
Definition flag_alone (flags : list string) (arg : string) : bool :=
  match qualifying_flag flags arg with
  | Some f => String.eqb (slice_from (String.length f) arg) ""
  | None => false
  end.

(** Following the specification: the argument at index [i] is the value of
    the flag standing alone before it; [first] says so for index 0. *)
Fixpoint follows_flag (first : bool) (flags args : list string) (i : nat) : bool :=
  match i with
  | O => first
  | S j => negb (follows_flag first flags args j) && flag_alone flags (nth j args "")
  end.

(** Following the specification: the path value an argument carries, with
    the text before it: the whole argument after a flag standing alone, the
    text after a flag, or the text after a flag and "=". *)
Definition path_value (flags : list string) (is_value : bool) (arg : string)
  : option (string * string) :=
  if is_value then Some ("", arg)
  else
    match qualifying_flag flags arg with
    | None => None
    | Some f =>
        match slice_from (String.length f) arg with
        | EmptyString => None
        | String "="%char value => Some (f +:+ "=", value)
        | value => Some (f, value)
        end
    end.

(** Following the specification: the argument with its path value, if it
    carries one, replaced by [absolute] of that value. *)
Definition rewritten (absolute : string -> string) (flags : list string)
    (is_value : bool) (arg : string) : string :=
  match path_value flags is_value arg with
  | None => arg
  | Some (before, value) => before +:+ absolute value
  end.

(** The key recorded in [dirs] for a selected entry. *)
Definition recorded_dir (f : zip_File) : string :=
  if zip_IsDir f then Name f else filepath.Dir (Name f).

(** No symbolic link anywhere in the tree. *)
Definition no_symlinks (t : gmap location node) : Prop :=
  forall k target, t !! k <> Some (NSymlink target).

(** How a tree may differ from an earlier one. At each place the entry is
    as before; or the place is in [W] and a regular file is there now, where
    no directory was unless the place is in [R] too; or the entry is now
    absent or a directory, and the place is in [R] (an entry may have been
    removed there) or nothing was there before (a directory may have been
    made). *)
Definition footprint (W R : location -> Prop) (t t' : gmap location node) : Prop :=
  forall k,
    t' !! k = t !! k \/
    (W k /\ (R k \/ t !! k <> Some NDir) /\ exists data perm, t' !! k = Some (NFile data perm)) \/
    ((t' !! k = None \/ t' !! k = Some NDir) /\ (R k \/ t !! k = None)).

(** From a state with working directory [c] and no symbolic links, the
    computation keeps the working directory, makes no symbolic link, and
    changes the tree within the footprint [W], [R]. *)
Definition within {A} (c : location) (W R : location -> Prop) (m : IO A) : Prop :=
  forall fs, cwd fs = c -> no_symlinks (tree fs) ->
    cwd (snd (m fs)) = c /\ no_symlinks (tree (snd (m fs))) /\
    footprint W R (tree fs) (tree (snd (m fs))).

End Notions.

(* ===================================================================== *)
(** * Concrete inputs *)
(* ===================================================================== *)

Module Scenario.

Import Provision Builders os.

(** ** A provisioning context with a zipper *)

Definition sdk_dir : string := "external/go_sdk".
Definition sdk_file (rel : string) : File := mkFile (sdk_dir +:+ "/" +:+ rel) sdk_dir.

Definition demo_sdk : Sdk :=
  {| sdk_goos := "linux"; sdk_goarch := "amd64";
     sdk_root_file := sdk_file "ROOT";
     sdk_libs := [mkFile "external/go_sdk/pkg/linux_amd64" "external/go_sdk/pkg"];
     sdk_srcs := [mkFile "external/go_sdk/src/fmt/print.go" "external/go_sdk/src/fmt"];
     sdk_headers := [mkFile "external/go_sdk/pkg/include/textflag.h"
                       "external/go_sdk/pkg/include"];
     sdk_tools := [mkFile "external/go_sdk/pkg/tool/linux_amd64/compile"
                     "external/go_sdk/pkg/tool/linux_amd64"];
     sdk_go := mkFile "external/go_sdk/bin/go" "external/go_sdk/bin";
     sdk_package_list := mkFile "external/go_sdk/packages.txt" sdk_dir |}.

Definition demo_zipper : File := mkFile "external/bazel_tools/zipper" "external/bazel_tools".

Definition demo_go : GoContext :=
  {| go_mode := mkMode "linux" "arm64" false false false "normal";
     go_sdk := demo_sdk;
     go_env := ∅;
     go_cgo_tools := mkCgoTools "/usr/bin/gcc" ["-O2"; "-fPIC"];
     go_zipper := Some demo_zipper;
     go_crosstool := [mkFile "external/local_cc/gcc" "external/local_cc"];
     go_toolchain_builder := mkFile "bazel-out/host/bin/builder" "bazel-out/host/bin" |}.

Definition out_file (go : GoContext) (name : string) : File :=
  mkFile ("bazel-out/stdlib/" +:+ name) "bazel-out/stdlib".

(** ** An environment and a process with one suffix to draw *)

Definition demo_env : env :=
  envFlags (mkFlags (Some "/sdk") None None None None None).

Definition demo_process : process :=
  mkProcess (mkFs [] {[ ["tmp"] := NDir ]}) "" ["123456789"] [].

(** ** A parameter file *)

Definition params_text : string :=
  "-flag1" +:+ String LF ("valueA" +:+ String LF
    ("-flag2" +:+ String LF ("valueB" +:+ String LF ""))).

Definition params_fs : filesys :=
  mkFs ["work"] {[ ["work"] := NDir; ["work"; "file.txt"] := NFile params_text 420 ]}.

(** ** Archives *)

Definition print_go : zip_File := mkZipFile "src/fmt/print.go" false 420 (Ok "package fmt").

(** An SDK archive with an explicit directory entry and one file. *)
Definition sdk_archive : list zip_File :=
  [mkZipFile "pkg/include/" false 493 (Ok ""); print_go].

(** The archive at sdk.zip before and after the SDK changes shape: one file
    goes, another comes. *)
Definition old_archive : list zip_File := [mkZipFile "src/old.go" false 420 (Ok "old")].
Definition new_archive : list zip_File := [mkZipFile "src/new.go" false 420 (Ok "new")].

(** An archive of two nested directory entries. *)
Definition nested_archive : list zip_File :=
  [mkZipFile "a/" false 493 (Ok ""); mkZipFile "a/e/" false 493 (Ok "")].

Definition archives (name : string) : res (list zip_File) :=
  if String.eqb name "sdk.zip" then Ok sdk_archive
  else if String.eqb name "nested.zip" then Ok nested_archive
  else Err ("open " +:+ name +:+ ": no such file or directory").

(** What [zip.OpenReader] answers before and after the change of shape. *)
Definition archives_before (name : string) : res (list zip_File) :=
  if String.eqb name "sdk.zip" then Ok old_archive
  else Err ("open " +:+ name +:+ ": no such file or directory").
Definition archives_after (name : string) : res (list zip_File) :=
  if String.eqb name "sdk.zip" then Ok new_archive
  else Err ("open " +:+ name +:+ ": no such file or directory").

(** Two orders in which [range] may visit the keys of a map. *)
Definition ascending (s : gset string) : list string :=
  merge_sort (fun a b => String.leb a b) (elements s).
Definition descending (s : gset string) : list string := rev (ascending s).

Definition empty_disk : filesys := mkFs [] ∅.

(** The SDK as a directory tree, in its first shape. *)
Definition sdk_tree : filesys :=
  mkFs [] {[ ["sdk"] := NDir; ["sdk"; "src"] := NDir;
             ["sdk"; "src"; "old.go"] := NFile "old" 420 ]}.

(** The same change of shape on the directory tree: old.go goes, new.go
    comes; everything else on the disk stays. *)
Definition reshape_sdk (fs : filesys) : filesys :=
  mkFs (cwd fs)
    (<[ ["sdk"; "src"; "new.go"] := NFile "new" 420 ]>
       (delete ["sdk"; "src"; "old.go"] (tree fs))).

Definition from_zip (filters : list string) (name : string) : list replicateOption :=
  [replicatePaths filters; replicateFromZip name].

End Scenario.

(* ===================================================================== *)
(** * The builder environment: variables, tools and printed commands *)
(* ===================================================================== *)

Module Commands.

Import os Builders.

(** ** The environment variables of the process *)

(** The variables and their values, in the order of [os.Environ]. *)
Definition environ := list (string * string).

(** [os.Getenv]: the empty string for a variable that is not set. *)
Fixpoint Getenv (key : string) (env : environ) : string :=
  match env with
  | [] => ""
  | (k, v) :: rest => if String.eqb k key then v else Getenv key rest
  end.

Fixpoint has_byte (c : ascii) (s : string) : bool :=
  match s with
  | EmptyString => false
  | String a s' => Ascii.eqb a c || has_byte c s'
  end.

Definition NUL : ascii := ascii_of_nat 0.

(** The variable takes the value where it stands, or is added at the end. *)
Fixpoint put (key value : string) (env : environ) : environ :=
  match env with
  | [] => [(key, value)]
  | (k, v) :: rest =>
      if String.eqb k key then (k, value) :: rest else (k, v) :: put key value rest
  end.

(** [os.Setenv]: refused for an empty name, a name with "=" or a zero byte,
    and a value with a zero byte. *)
Definition Setenv (key value : string) (env : environ) : res environ :=
  if String.eqb key "" || has_byte "="%char key || has_byte NUL key || has_byte NUL value
  then Err "setenv: invalid argument"
  else Ok (put key value env).

(** ** strings.Fields *)

Definition is_ascii_space (a : ascii) : bool :=
  let n := N_of_ascii a in
  ((9 <=? n) && (n <=? 13) || (n =? 32))%N.

(** The number of bytes of the white-space character ([unicode.IsSpace]) the
    text starts with, in UTF-8; 0 when it starts with none. *)
Definition space_width (s : string) : nat :=
  match s with
  | EmptyString => 0
  | String a rest =>
      if is_ascii_space a then 1
      else
        let a := N_of_ascii a in
        match rest with
        | String b rest' =>
            let b := N_of_ascii b in
            if ((a =? 194) && ((b =? 133) || (b =? 160)))%N then 2
            else match rest' with
                 | String c _ =>
                     let c := N_of_ascii c in
                     if ((a =? 225) && (b =? 154) && (c =? 128))%N then 3
                     else if ((a =? 226) && (b =? 128) &&
                              ((128 <=? c) && (c <=? 138) || (c =? 168) || (c =? 169)
                               || (c =? 175)))%N then 3
                     else if ((a =? 226) && (b =? 129) && (c =? 159))%N then 3
                     else if ((a =? 227) && (b =? 128) && (c =? 128))%N then 3
                     else 0
                 | EmptyString => 0
                 end
        | EmptyString => 0
        end
  end.

(** The fields after [cur], the bytes of the field being read; [skip] bytes
    of a white-space character are still to be passed. *)
Fixpoint fields_from (skip : nat) (cur : string) (s : string) : list string :=
  match s with
  | EmptyString => if String.eqb cur "" then [] else [cur]
  | String a s' =>
      match skip with
      | S k => fields_from k cur s'
      | O =>
          match space_width s with
          | O => fields_from 0 (cur +:+ String a "") s'
          | S k => (if String.eqb cur "" then [] else [cur]) ++ fields_from k "" s'
          end
      end
  end.

(** [strings.Fields]: the text cut around runs of white space. *)
Definition Fields (s : string) : list string := fields_from 0 "" s.

(** ** absEnv *)

Section AbsEnv.

(** What [os.Getwd] answers. *)
Variable Getwd : res string.

(** [absEnv]: the error returned and the environment after the call. *)
Fixpoint absEnv (envNameList argList : list string) (env : environ)
  : option error * environ :=
  match envNameList with
  | [] => (None, env)
  | envName :: rest =>
      let splitedEnv := Fields (Getenv envName env) in
      let splitedEnv := absArgs Getwd splitedEnv argList in
      match Setenv envName (Join_strings splitedEnv " ") env with
      | Err err => (Some err, env)
      | Ok env' => absEnv rest argList env'
      end
  end.

End AbsEnv.

Definition cgoEnvVars : list string :=
  ["CGO_CFLAGS"; "CGO_CXXFLAGS"; "CGO_CPPFLAGS"; "CGO_LDFLAGS"].

(** ** goTool and goCmd *)

Section Tools.

(** [runtime.GOOS] and [runtime.GOARCH] of the builder. The path functions
    are those of a Unix host. *)
Variables GOOS GOARCH : string.

Definition goTool (e : env) (tool : string) (args : list string) : list string :=
  let platform := GOOS +:+ "_" +:+ GOARCH in
  let toolPath := filepath.Join [sdk e; "pkg"; "tool"; platform; tool] in
  let toolPath := if String.eqb GOOS "windows" then toolPath +:+ ".exe" else toolPath in
  [toolPath] ++ args.

Definition goCmd (e : env) (cmd : string) (args : list string) : list string :=
  let exe := filepath.Join [sdk e; "bin"; "go"] in
  let exe := if String.eqb GOOS "windows" then exe +:+ ".exe" else exe in
  [exe; cmd] ++ args.

End Tools.

(** ** formatCommand *)

(** An [exec.Cmd], as far as [formatCommand] reads it; [Env] is [None] for
    the nil slice. *)
Record Cmd := mkCmd {
  Args : list string;
  Env : option (list string)
}.

(** [strings.IndexByte]: [None] for -1. *)
Fixpoint IndexByte (s : string) (c : ascii) : option nat :=
  match s with
  | EmptyString => None
  | String a s' => if Ascii.eqb a c then Some 0 else option_map S (IndexByte s' c)
  end.

(** [s[:n]]. *)
Fixpoint slice_to (n : nat) (s : string) : string :=
  match n, s with
  | O, _ => EmptyString
  | S _, EmptyString => EmptyString
  | S n', String a s' => String a (slice_to n' s')
  end.

(** What ends the line of an environment entry: a space, a backslash and
    a line feed. *)
Definition line_break : string :=
  String " " (String (ascii_of_nat 92) (String LF "")).

Section Format.

(** [strconv.Quote]. *)
Variable Quote : string -> string.

Definition quoteIfNeeded (s : string) : string :=
  match IndexByte s " " with
  | None => s
  | Some _ => Quote s
  end.

Definition quoteEnvIfNeeded (s : string) : string :=
  match IndexByte s "=" with
  | None => s
  | Some eq =>
      let key := slice_to eq s in
      let value := slice_from (eq + 1) s in
      match IndexByte value " " with
      | None => s
      | Some _ => key +:+ "=" +:+ Quote value
      end
  end.

(** The loop over [cmd.Args]: what is written, from the separator [sep]. *)
Fixpoint format_args (sep : string) (args : list string) : string :=
  match args with
  | [] => ""
  | arg :: rest => sep +:+ quoteIfNeeded arg +:+ format_args " " rest
  end.

(** [formatCommand]: what is written to [w]; [os_Environ] is what
    [os.Environ] answers. *)
Definition formatCommand (os_Environ : list string) (cmd : Cmd) : string :=
  let environ := match Env cmd with
                 | None => os_Environ
                 | Some env => env
                 end in
  String.concat "" (map (fun e => quoteEnvIfNeeded e +:+ line_break) environ)
  +:+ format_args "" (Args cmd) +:+ String LF "".

End Format.

End Commands.

(* ===================================================================== *)
(** * Further notions: clean paths, trees and copies *)
(* ===================================================================== *)

Module Shapes.

Import filepath os Builders Notions Commands.

(** ** Paths *)

(** The stacks [Clean] builds: pieces other than "" and ".", with ".." only
    at the bottom of the stack of a relative path. *)
Fixpoint kept (rooted : bool) (stack : list string) : Prop :=
  match stack with
  | [] => True
  | x :: rest =>
      free_of Separator x = true /\ x <> "" /\ x <> "." /\
      (x = ".." -> rooted = false /\ Forall (fun y => y = "..") rest) /\
      kept rooted rest
  end.

(** [path] is the clean path made of [base] and then [names]. *)
Definition tracks (base : string) (names : list string) (path : string) : Prop :=
  Clean path = path /\ IsAbs path = IsAbs base /\
  elements_of (IsAbs base) path = elements_of (IsAbs base) base ++ names.

(** The path lookup of the kernel from the directory at [cur], one element
    at a time. Every element is looked up in a directory that is there: the
    lookup gives up ([None]) where the entry it stands at is missing, is a
    regular file, or is a symbolic link, which the kernel would follow to
    another place. ".." leads to the directory above, and stays at the
    root. *)
Fixpoint search (t : gmap location node) (cur : location) (els : list string)
  : option location :=
  match els with
  | [] => Some cur
  | e :: rest =>
      match lookup_node t cur with
      | Some NDir =>
          if String.eqb e "" || String.eqb e "." then search t cur rest
          else if String.eqb e ".." then search t (parent cur) rest
          else search t (cur ++ [e]) rest
      | _ => None
      end
  end.

(** The place the kernel finds for a path when the way there passes
    directories only. The last element may name any entry, or none yet; a
    path that ends in a separator names a directory. The empty path names
    nothing. *)
Definition reaches (fs : filesys) (p : string) : option location :=
  if String.eqb p "" then None
  else search (tree fs) (if IsAbs p then [] else cwd fs) (Split Separator p).

(** ** Trees and copies *)

Definition is_link (n : node) : bool :=
  match n with NSymlink _ => true | _ => false end.

#[export] Instance plain_element_dec (x : string) : Decision (plain_element x).
Proof. unfold plain_element. apply _. Defined.

(** A tree as a file system has it: every entry has a name made of plain
    elements and lies in a directory. *)
Definition tree_shaped (t : gmap location node) : Prop :=
  map_Forall (fun k _ => k <> [] /\ Forall plain_element k /\
                         lookup_node t (parent k) = Some NDir) t.

(** No entry lies deeper than [filepath.Walk] can go. *)
Definition shallow (t : gmap location node) : Prop :=
  map_Forall (fun k _ => List.length k < walk_limit) t.

(** [t'] is [t] with a directory made at each missing place on the way from
    [done] (not included) down to [full]. *)
Definition made_dirs (t : gmap location node) (done full : location)
    (t' : gmap location node) : Prop :=
  (forall k n, t !! k = Some n -> t' !! k = Some n) /\
  (forall k n, t' !! k = Some n ->
     t !! k = Some n \/
     (n = NDir /\ done `prefix_of` k /\ k <> done /\ k `prefix_of` full)) /\
  (forall k, done `prefix_of` k -> k `prefix_of` full -> k <> done ->
     t' !! k = Some NDir).

(** What may be at the place [r] below the destination while the tree below
    [S] is being copied: the file that is at [r] below the source, or a
    directory above such a file. *)
Definition mirrored (t0 : gmap location node) (S r : location) (n : node) : Prop :=
  (exists data perm, n = NFile data perm /\ t0 !! (S ++ r) = Some n) \/
  (n = NDir /\ exists r' data perm, r `prefix_of` r' /\ r' <> r /\
                 t0 !! (S ++ r') = Some (NFile data perm)).

(** The state while the tree below [S] of [t0] is copied below [D]: the
    source is as in [t0], the directories above [D] are there, below [D]
    there are only copies, each in its directory, and everything else is as
    in [t2]. *)
Record copying (c : location) (t0 t2 : gmap location node) (S D : location)
    (fs : filesys) : Prop := mkCopying {
  copying_cwd : cwd fs = c;
  copying_links : no_symlinks (tree fs);
  copying_source : forall k, S `prefix_of` k -> tree fs !! k = t0 !! k;
  copying_above : forall k, k `prefix_of` D -> k <> D -> lookup_node (tree fs) k = Some NDir;
  copying_mirror : forall r n, tree fs !! (D ++ r) = Some n -> mirrored t0 S r n;
  copying_outside : forall k, ~ D `prefix_of` k -> tree fs !! k = t2 !! k;
  copying_chain : forall r n q, tree fs !! (D ++ r) = Some n ->
    q `prefix_of` r -> q <> r -> tree fs !! (D ++ q) = Some NDir
}.

(** The function [replicateDir] hands to [filepath.Walk]. *)
Definition copy_entry (src dst : string) (config : replicateConfig)
    (path : string) (f : res node) : IO unit :=
  match f with
  | Err _ => fail "panic: nil pointer dereference"
  | Ok info =>
      if IsDir info then ret tt
      else match filepath.Rel src path with
           | Err err => fail err
           | Ok relative =>
               replicateFile path (filepath.Join [dst; relative]) config
           end
  end.

(** ** Arguments, options and variables *)

(** A parameter file as Bazel writes it: one argument per line, each line
    ended by a line feed. *)
Fixpoint params_file_of (args : list string) : string :=
  match args with
  | [] => ""
  | a :: rest => a +:+ String LF (params_file_of rest)
  end.

(** The two options the engine defines, as data. *)
Inductive option_kind :=
| WithPaths (ps : list string)
| FromZip (z : string).

Definition option_of (o : option_kind) : replicateOption :=
  match o with
  | WithPaths ps => replicatePaths ps
  | FromZip z => replicateFromZip z
  end.

Definition paths_of (o : option_kind) : list string :=
  match o with WithPaths ps => ps | FromZip _ => [] end.

Definition zip_of (o : option_kind) : option string :=
  match o with WithPaths _ => None | FromZip z => Some z end.

(** The value [absEnv] gives a variable whose value was [value]. *)
Definition absolutized (Getwd : res string) (argList : list string) (value : string)
  : string :=
  Join_strings (absArgs Getwd (Fields value) argList) " ".

(** A name and a value that [os.Setenv] accepts. *)
Definition settable (key value : string) : Prop :=
  key <> "" /\ has_byte "="%char key = false /\ has_byte NUL key = false /\
  has_byte NUL value = false.

End Shapes.

(* ===================================================================== *)
(** * Further concrete inputs *)
(* ===================================================================== *)

Module Samples.

Import Provision filepath os Builders Notions Commands Shapes Scenario.

(** An SDK of two levels with an empty directory, beside an output
    directory that holds a stale file. *)
Definition sdk_disk : filesys :=
  mkFs [] {[ ["sdk"] := NDir; ["sdk"; "VERSION"] := NFile "go1.12" 292;
             ["sdk"; "doc"] := NDir;
             ["sdk"; "src"] := NDir; ["sdk"; "src"; "fmt"] := NDir;
             ["sdk"; "src"; "fmt"; "print.go"] := NFile "package fmt" 420;
             ["out"] := NDir; ["out"; "go"] := NDir;
             ["out"; "go"; "stale"] := NFile "x" 420 ]}.

(** Arguments that a parameter file has to give back as they are. *)
Definition sample_args : list string := ["-o"; ""; "-param=x"; "a b"].

Definition args_fs : filesys :=
  mkFs ["work"] {[ ["work"] := NDir;
                   ["work"; "args.params"] := NFile (params_file_of sample_args) 420 ]}.

(** An environment with one of the cgo variables set. *)
Definition cgo_environ : environ :=
  [("HOME", "/root"); ("CGO_CFLAGS", "-I inc   -O2 -isystem=sys")].

(** An archive with an entry that names a place above the destination. *)
Definition escaping_archive : list zip_File :=
  [mkZipFile "../escape.txt" false 420 (Ok "x")].

(** A destination that holds a file of an earlier replication. *)
Definition stale_disk : filesys :=
  mkFs [] {[ ["out"] := NDir; ["out"; "src"] := NDir;
             ["out"; "src"; "old.go"] := NFile "old" 420 ]}.

End Samples.

(* ===================================================================== *)
(** * Properties of the provisioner *)
(* ===================================================================== *)

Section ProvisionerFacts.

Import Provision.

Variable LINKMODE_NORMAL : string.
Variable link_mode_args : Mode -> list string.
Variable extldflags_from_cc_toolchain : GoContext -> list string.
Variable declare_directory : GoContext -> string -> File.
Variable declare_file : GoContext -> string -> File.
Variable actions_declare_file : string -> File.
Variable builder_args : GoContext -> string -> list string.

Local Abbreviation build_stdlib :=
  (_build_stdlib link_mode_args extldflags_from_cc_toolchain declare_directory
     declare_file actions_declare_file builder_args).
Local Abbreviation stdlib_library_to_source :=
  (_stdlib_library_to_source LINKMODE_NORMAL link_mode_args
     extldflags_from_cc_toolchain declare_directory declare_file
     actions_declare_file builder_args).

(** The reuse test, read as a proposition on the mode and the SDK. *)
Lemma should_use_sdk_stdlib_spec go :
  _should_use_sdk_stdlib LINKMODE_NORMAL go = true <->
  mode_goos (go_mode go) = sdk_goos (go_sdk go) /\
  mode_goarch (go_mode go) = sdk_goarch (go_sdk go) /\
  mode_race (go_mode go) = false /\
  mode_msan (go_mode go) = false /\
  mode_pure (go_mode go) = false /\
  mode_link (go_mode go) = LINKMODE_NORMAL.
Proof.
  unfold _should_use_sdk_stdlib.
  rewrite !andb_true_iff, !negb_true_iff, !String.eqb_eq. tauto.
Qed.

(** The build path always registers the marker write first and the
    "GoStdlib" action last. *)
Lemma build_stdlib_actions go :
  exists packaging b,
    snd (build_stdlib go) = ActWrite (declare_file go "ROOT") "" :: packaging ++ [ActRun b] /\
    run_mnemonic b = "GoStdlib" /\
    run_env b = Some (stdlib_env extldflags_from_cc_toolchain go) /\
    run_outputs b = [declare_directory go "pkg"; declare_directory go "src"] /\
    run_executable b = go_toolchain_builder go.
Proof.
  unfold _build_stdlib.
  destruct (go_zipper go) as [z|]; cbn.
  - eexists [ActRun _], _. repeat split; reflexivity.
  - eexists [], _. repeat split; reflexivity.
Qed.

(** The build path answers with the marker it writes and the package
    directory it declares, never with what the SDK holds. *)
Lemma build_stdlib_provider go :
  fst (build_stdlib go) =
  {| root_file := declare_file go "ROOT"; libs := [declare_directory go "pkg"] |}.
Proof. unfold _build_stdlib. destruct (go_zipper go); reflexivity. Qed.

(** C1. Provisioning answers with the SDK's own root file and archives and
    registers no action exactly when the mode's OS and architecture are the
    SDK's, race, msan and pure are off and the link mode is the normal one.
    In every other case the SDK's library is not fallen back to: the answer
    is the root marker and the package directory declared for the build, the
    marker is written first, and the last action registered is the
    "GoStdlib" build action, run by the toolchain's builder, whose outputs
    are that package directory and the source directory. *)
Theorem provision_reuses_sdk_iff_native_plain_mode (go : GoContext) :
  let result := stdlib_library_to_source go in
  let native_plain :=
    mode_goos (go_mode go) = sdk_goos (go_sdk go) /\
    mode_goarch (go_mode go) = sdk_goarch (go_sdk go) /\
    mode_race (go_mode go) = false /\
    mode_msan (go_mode go) = false /\
    mode_pure (go_mode go) = false /\
    mode_link (go_mode go) = LINKMODE_NORMAL in
  ((root_file (fst result) = sdk_root_file (go_sdk go) /\
    libs (fst result) = sdk_libs (go_sdk go) /\
    snd result = []) <-> native_plain) /\
  (~ native_plain ->
   fst result =
     {| root_file := declare_file go "ROOT"; libs := [declare_directory go "pkg"] |} /\
   exists packaging b,
     snd result = ActWrite (declare_file go "ROOT") "" :: packaging ++ [ActRun b] /\
     ActRun b ∈ snd result /\
     run_mnemonic b = "GoStdlib" /\
     run_outputs b = [declare_directory go "pkg"; declare_directory go "src"] /\
     run_executable b = go_toolchain_builder go).
Proof.
  cbn zeta. unfold _stdlib_library_to_source.
  pose proof (should_use_sdk_stdlib_spec go) as Hspec.
  destruct (_should_use_sdk_stdlib LINKMODE_NORMAL go) eqn:Huse.
  - assert (Hnp := proj1 Hspec eq_refl). split.
    + split; [intros _; exact Hnp | intros _; cbn; auto].
    + intros Hn. contradiction.
  - assert (Hnn : ~ (mode_goos (go_mode go) = sdk_goos (go_sdk go) /\
                     mode_goarch (go_mode go) = sdk_goarch (go_sdk go) /\
                     mode_race (go_mode go) = false /\
                     mode_msan (go_mode go) = false /\
                     mode_pure (go_mode go) = false /\
                     mode_link (go_mode go) = LINKMODE_NORMAL)).
    { intros Hnp. apply Hspec in Hnp. discriminate. }
    destruct (build_stdlib_actions go) as (pk & b & Hacts & Hmn & _ & Hout & Hexe).
    split.
    + split; [| intros Hnp; contradiction].
      intros (_ & _ & Hnil). rewrite Hacts in Hnil. discriminate.
    + intros _. split; [apply build_stdlib_provider |].
      exists pk, b. split; [exact Hacts |]. split; [| auto].
      rewrite Hacts, elem_of_cons, elem_of_app, list_elem_of_singleton. auto.
Qed.

(** C4. With a zipper at hand, one "GoStdlibZip" action run by the zipper
    takes every SDK input (sources, headers, tools, the go binary, the root
    file) and produces sdk.zip; each input is entered under its path with the
    first [len(root_file.dirname) + 1] characters removed; the build action
    then has sdk.zip in place of the SDK inputs, and its arguments are those
    of a build without zipper followed by -sdkzip and the path of the
    archive. These are the actions of provisioning whenever the SDK's own
    library is not reused. *)
Theorem zipper_packages_sdk_inputs (go : GoContext) (zipper : File)
    (Hzip : go_zipper go = Some zipper) :
  let sdk := go_sdk go in
  let sdkzip := actions_declare_file "sdk.zip" in
  let sdk_inputs :=
    sdk_srcs sdk ++ sdk_headers sdk ++ sdk_tools sdk ++ [sdk_go sdk; sdk_root_file sdk] in
  let prefixlen := (String.length (dirname (sdk_root_file sdk)) + 1)%nat in
  let plain_args :=
    builder_args go "stdlib" ++ ["-out"; dirname (declare_file go "ROOT")] ++
    (if mode_race (go_mode go) then ["-race"] else []) ++
    link_mode_args (go_mode go) in
  exists packaging build,
    snd (build_stdlib go) =
      [ActWrite (declare_file go "ROOT") ""; ActRun packaging; ActRun build] /\
    run_mnemonic packaging = "GoStdlibZip" /\
    run_executable packaging = zipper /\
    run_inputs packaging = sdk_inputs /\
    run_outputs packaging = [sdkzip] /\
    run_arguments packaging =
      "cC" :: path sdkzip ::
      map (fun f => slice_from prefixlen (path f) +:+ "=" +:+ path f) sdk_inputs /\
    run_mnemonic build = "GoStdlib" /\
    run_inputs build = [sdkzip] ++ go_crosstool go ++ [sdk_package_list sdk] /\
    run_arguments build = plain_args ++ ["-sdkzip"; path sdkzip] /\
    (_should_use_sdk_stdlib LINKMODE_NORMAL go = false ->
     snd (stdlib_library_to_source go) = snd (build_stdlib go)).
Proof.
  cbn zeta. unfold _stdlib_library_to_source, _build_stdlib. rewrite Hzip. cbn.
  eexists _, _. repeat split; try reflexivity.
  - cbn. destruct (mode_race (go_mode go)); rewrite <- ?app_assoc; reflexivity.
  - intros ->. reflexivity.
Qed.

(** C5. The environment of the "GoStdlib" action has CGO_ENABLED=0 in pure
    mode; otherwise it has CGO_ENABLED=1, CC set to the toolchain's C
    compiler, and CGO_CFLAGS and CGO_LDFLAGS set to the toolchain's compile
    and link flags joined by spaces. *)
Theorem build_env_cgo_settings (go : GoContext) :
  exists packaging b env,
    snd (build_stdlib go) =
      ActWrite (declare_file go "ROOT") "" :: packaging ++ [ActRun b] /\
    run_mnemonic b = "GoStdlib" /\
    run_env b = Some env /\
    if mode_pure (go_mode go) then env !! "CGO_ENABLED" = Some "0"
    else
      env !! "CGO_ENABLED" = Some "1" /\
      env !! "CC" = Some (c_compiler_path (go_cgo_tools go)) /\
      env !! "CGO_CFLAGS" =
        Some (Join_strings (c_compile_options (go_cgo_tools go)) " ") /\
      env !! "CGO_LDFLAGS" =
        Some (Join_strings (extldflags_from_cc_toolchain go) " ").
Proof.
  destruct (build_stdlib_actions go) as (pk & b & Hacts & Hmn & Henv & _).
  exists pk, b, (stdlib_env extldflags_from_cc_toolchain go).
  repeat split; try assumption.
  unfold stdlib_env. destruct (mode_pure (go_mode go)).
  - apply lookup_insert_eq.
  - repeat split.
    + rewrite !lookup_insert_ne by discriminate. apply lookup_insert_eq.
    + rewrite !lookup_insert_ne by discriminate. apply lookup_insert_eq.
    + rewrite lookup_insert_ne by discriminate. apply lookup_insert_eq.
    + apply lookup_insert_eq.
Qed.

End ProvisionerFacts.

(* ===================================================================== *)
(** * Facts about text and paths *)
(* ===================================================================== *)

Section TextFacts.

Import filepath Notions.

Lemma string_app_nil_l (s : string) : "" +:+ s = s.
Proof. reflexivity. Qed.

Lemma string_app_cons (a : ascii) (s t : string) :
  String a s +:+ t = String a (s +:+ t).
Proof. reflexivity. Qed.

Lemma string_app_nil_r (s : string) : s +:+ "" = s.
Proof.
  induction s as [|a s IH]; [reflexivity |].
  rewrite string_app_cons, IH. reflexivity.
Qed.

Lemma string_app_assoc (a b c : string) : (a +:+ b) +:+ c = a +:+ (b +:+ c).
Proof.
  induction a as [|x a IH]; [reflexivity |].
  rewrite !string_app_cons, IH. reflexivity.
Qed.

Lemma Split_not_nil c s : Split c s <> [].
Proof.
  destruct s as [|a s]; cbn; [discriminate |].
  destruct (Ascii.eqb a c); [discriminate |].
  destruct (Split c s); discriminate.
Qed.

(** Splitting at an occurrence of the separator splits the list of pieces. *)
Lemma Split_app c a b :
  Split c (a +:+ String c b) = Split c a ++ Split c b.
Proof.
  induction a as [|x a IH].
  - rewrite string_app_nil_l. cbn. rewrite Ascii.eqb_refl. reflexivity.
  - rewrite string_app_cons. cbn.
    rewrite IH. destruct (Ascii.eqb x c); [reflexivity |].
    destruct (Split c a) eqn:E; [exfalso; exact (Split_not_nil _ _ E) |].
    reflexivity.
Qed.

Lemma Split_free_of c s : free_of c s = true -> Split c s = [s].
Proof.
  induction s as [|a s IH]; cbn; [reflexivity |].
  intros [Ha Hs]%andb_true_iff. apply negb_true_iff in Ha.
  rewrite Ha, (IH Hs). reflexivity.
Qed.

Lemma free_of_app c a b :
  free_of c (a +:+ b) = free_of c a && free_of c b.
Proof.
  induction a as [|x a IH]; [reflexivity |].
  rewrite string_app_cons. cbn. rewrite IH, andb_assoc. reflexivity.
Qed.

Lemma is_decimal_free_of_separator s :
  is_decimal s = true -> free_of Separator s = true.
Proof.
  induction s as [|a s IH]; [reflexivity |].
  cbn [is_decimal free_of]. intros [Ha Hs]%andb_true_iff.
  rewrite (IH Hs), andb_true_r.
  destruct a as [[] [] [] [] [] [] [] []]; try reflexivity; discriminate.
Qed.

Lemma clean_step_plain rooted stack x :
  plain_element x -> clean_step rooted stack x = x :: stack.
Proof.
  intros (_ & H0 & H1 & H2). unfold clean_step.
  destruct (String.eqb_spec x ""); [contradiction |].
  destruct (String.eqb_spec x "."); [contradiction |].
  destruct (String.eqb_spec x ".."); [contradiction |].
  reflexivity.
Qed.

Lemma elements_of_snoc rooted dir x :
  plain_element x ->
  elements_of rooted (dir +:+ String Separator x) = elements_of rooted dir ++ [x].
Proof.
  intros Hx. unfold elements_of.
  rewrite Split_app, (Split_free_of _ _ (proj1 Hx)), fold_left_app.
  cbn [fold_left]. rewrite (clean_step_plain _ _ _ Hx). reflexivity.
Qed.

Lemma last_Split_after_separator c a b :
  last (Split c (a +:+ String c b)) = last (Split c b).
Proof.
  rewrite Split_app, last_app.
  destruct (last (Split c b)) eqn:E; [reflexivity |].
  apply last_None in E. exfalso. exact (Split_not_nil _ _ E).
Qed.

Lemma concat_snoc sep l x :
  String.concat sep (l ++ [x]) =
  match l with [] => x | _ => String.concat sep l +:+ sep +:+ x end.
Proof.
  induction l as [|a l IH]; [reflexivity |].
  cbn [app String.concat]. destruct l as [|b l]; [reflexivity |].
  change ((b :: l) ++ [x]) with (b :: (l ++ [x])) in *.
  cbn [app] in IH. rewrite IH.
  rewrite !string_app_assoc. reflexivity.
Qed.

(** The last piece of a cleaned path whose last element is plain. *)
Lemma last_Split_Clean_snoc dir x :
  plain_element x ->
  last (Split Separator (Clean (dir +:+ String Separator x))) = Some x.
Proof.
  intros Hx. pose proof Hx as (Hfree & Hne & _).
  assert (Hout : forall l, last (Split Separator (Join_strings (l ++ [x]) "/")) = Some x
                           /\ Join_strings (l ++ [x]) "/" <> "").
  { intros l. unfold Join_strings. rewrite concat_snoc.
    destruct l as [|a l].
    - rewrite (Split_free_of _ _ Hfree). split; [reflexivity | exact Hne].
    - split.
      + change ("/" +:+ x) with (String Separator x).
        rewrite last_Split_after_separator, (Split_free_of _ _ Hfree).
        reflexivity.
      + intros H. destruct (String.concat "/" (a :: l)); discriminate. }
  unfold Clean.
  destruct (String.eqb_spec (dir +:+ String Separator x) "") as [E | _].
  { destruct dir; discriminate. }
  rewrite elements_of_snoc by exact Hx.
  destruct (Hout (elements_of (IsAbs (dir +:+ String Separator x)) dir)) as [Hl Hn].
  destruct (IsAbs (dir +:+ String Separator x)).
  - change ("/" +:+ ?y) with ("" +:+ String Separator y).
    rewrite last_Split_after_separator. exact Hl.
  - destruct (String.eqb_spec (Join_strings (elements_of false dir ++ [x]) "/") "");
      [contradiction | exact Hl].
Qed.

Lemma Clean_not_empty p : Clean p <> "".
Proof.
  unfold Clean. destruct (String.eqb p ""); [discriminate |].
  destruct (IsAbs p); [discriminate |].
  destruct (String.eqb_spec (Join_strings (elements_of false p) "/") "");
    [discriminate | assumption].
Qed.

Lemma Join_two dir x :
  dir <> "" -> Join [dir; x] = Clean (dir +:+ String Separator x).
Proof.
  intros Hd. cbn [Join]. destruct (String.eqb_spec dir ""); [contradiction |].
  reflexivity.
Qed.

End TextFacts.

(* ===================================================================== *)
(** * Properties of the environment layer *)
(* ===================================================================== *)

Section EnvFacts.

Import Builders os Notions.

(** C9. After parsing, [checkFlags] answers an error exactly when -sdk is
    absent or empty; no other flag (-sdkzip, -tags, -installsuffix, -v,
    -work) takes part, present or absent. *)
Theorem checkFlags_fails_iff_sdk_empty (flags : flagValues) :
  (is_Some (checkFlags (envFlags flags)) <->
     flag_sdk flags = None \/ flag_sdk flags = Some "") /\
  (forall e : env, checkFlags e = None <-> sdk e <> "") /\
  (forall s : string, s <> "" ->
     checkFlags (envFlags (mkFlags (Some s) None None None None None)) = None).
Proof.
  assert (Hcheck : forall e : env, checkFlags e = None <-> sdk e <> "").
  { intros e. unfold checkFlags.
    destruct (String.eqb_spec (sdk e) ""); split; congruence. }
  split; [| split; [exact Hcheck |]].
  - unfold checkFlags, envFlags; cbn.
    destruct (flag_sdk flags) as [s|]; cbn.
    + destruct (String.eqb_spec s ""); subst; split.
      * auto.
      * intros _. eexists; reflexivity.
      * intros [x Hx]. discriminate.
      * intros [H | H]; congruence.
    + split; [auto | intros _; eexists; reflexivity].
  - intros s Hs. apply Hcheck. exact Hs.
Qed.

(** ** Parameter files *)

Lemma fileArgs_of_lines_from line text h t :
  filepath.Split LF text = h :: t ->
  (match last ((line +:+ h) :: t) with
   | Some l => if String.eqb l "" then removelast ((line +:+ h) :: t)
               else (line +:+ h) :: t
   | None => []
   end) = lines_from line text.
Proof.
  revert line h t. induction text as [|a text IH]; intros line h t; cbn.
  - intros [= <- <-]. cbn. rewrite string_app_nil_r.
    destruct (String.eqb line ""); reflexivity.
  - destruct (Ascii.eqb a LF).
    + intros [= <- <-]. rewrite string_app_nil_r.
      destruct (filepath.Split LF text) as [|h' t'] eqn:E;
        [exfalso; exact (Split_not_nil _ _ E) |].
      specialize (IH "" h' t' eq_refl). rewrite string_app_nil_l in IH.
      rewrite <- IH. rewrite last_cons_cons.
      destruct (last (h' :: t')) as [l|] eqn:El; [| apply last_None in El; discriminate].
      destruct (String.eqb l ""); reflexivity.
    + destruct (filepath.Split LF text) as [|h' t'] eqn:E;
        [exfalso; exact (Split_not_nil _ _ E) |].
      intros [= <- <-].
      specialize (IH (line +:+ String a "") h' t' eq_refl).
      rewrite string_app_assoc in IH. exact IH.
Qed.

(** The code's way of cutting a parameter file into arguments agrees with
    the lines of the file. *)
Lemma fileArgs_of_lines content : fileArgs_of content = Ok (lines_of content).
Proof.
  unfold fileArgs_of, lines_of.
  destruct (filepath.Split LF content) as [|h t] eqn:E;
    [exfalso; exact (Split_not_nil _ _ E) |].
  pose proof (fileArgs_of_lines_from "" content h t E) as H.
  rewrite string_app_nil_l in H.
  destruct (last (h :: t)) as [l|] eqn:El; [| apply last_None in El; discriminate].
  destruct (String.eqb l ""); rewrite <- H; reflexivity.
Qed.

Lemma ReadFile_keeps_state p fs : snd (ReadFile p fs) = fs.
Proof.
  unfold ReadFile, bind, Open, query, ret, fail.
  destruct (follow max_links (tree fs) (locate fs p)); [| reflexivity].
  destruct (lookup_node (tree fs) a) as [[]|]; reflexivity.
Qed.

Lemma slice_extend (args : list string) (lo i : nat) (a : string) :
  lo <= i -> args !! i = Some a ->
  slice args lo (S i) = slice args lo i ++ [a].
Proof.
  intros Hle Hi. unfold slice.
  replace (S i - lo) with (S (i - lo)) by lia.
  assert (Hd : drop lo args !! (i - lo) = Some a).
  { rewrite lookup_drop. replace (lo + (i - lo)) with i by lia. exact Hi. }
  apply take_S_r. exact Hd.
Qed.

Lemma slice_empty (args : list string) (i : nat) : slice args i i = [].
Proof. unfold slice. rewrite Nat.sub_diag. reflexivity. Qed.

Lemma slice_to_end (args : list string) (lo : nat) :
  slice args lo (List.length args) = drop lo args.
Proof.
  unfold slice. apply take_ge. rewrite length_drop. lia.
Qed.

(** The second loop followed by the final append, from argument [i] on. *)
Lemma expand_params_from (content : string -> string) (fs : filesys)
    (args rest pre acc : list string) (lo : nat) :
  args = pre ++ rest ->
  lo <= List.length pre ->
  (forall arg, arg ∈ rest -> HasPrefix arg "-param=" = true ->
     fst (ReadFile (slice_from 7 arg) fs) = Ok (content arg)) ->
  bind (expand_params args (paramsIndices_from (List.length pre) rest) acc lo)
       (fun '(expandedArgs, last) =>
          ret (expandedArgs ++ slice args last (List.length args))) fs
  = (Ok (acc ++ slice args lo (List.length pre)
           ++ flat_map (expand_argument content) rest), fs).
Proof.
  revert pre acc lo. induction rest as [|a rest IH]; intros pre acc lo Hargs Hlo Hread.
  - cbn. rewrite app_nil_r in Hargs. subst pre.
    unfold bind, ret; cbn. rewrite app_nil_r. reflexivity.
  - assert (Hi : args !! List.length pre = Some a).
    { rewrite Hargs. rewrite lookup_app_r by lia.
      rewrite Nat.sub_diag. reflexivity. }
    assert (Hnext : args = (pre ++ [a]) ++ rest).
    { rewrite <- app_assoc. exact Hargs. }
    assert (Hread' : forall arg, arg ∈ rest -> HasPrefix arg "-param=" = true ->
              fst (ReadFile (slice_from 7 arg) fs) = Ok (content arg)).
    { intros arg Hin. apply Hread. apply elem_of_cons. auto. }
    cbn [paramsIndices_from flat_map]. unfold expand_argument at 1.
    destruct (HasPrefix a "-param=") eqn:Hp.
    + cbn [expand_params].
      replace (nth (List.length pre) args "") with a
        by (symmetry; apply nth_lookup_Some with (d := ""), Hi).
      pose proof (Hread a ltac:(apply elem_of_cons; auto) Hp) as Hr.
      pose proof (ReadFile_keeps_state (slice_from 7 a) fs) as Hs.
      change (String.length "-param=") with 7.
      unfold bind at 1 2.
      destruct (ReadFile (slice_from 7 a) fs) as [r fs'] eqn:Erf.
      cbn in Hr, Hs. subst r fs'.
      rewrite fileArgs_of_lines.
      specialize (IH (pre ++ [a]) ((acc ++ slice args lo (List.length pre)) ++ lines_of (content a))
                    (S (List.length pre)) Hnext).
      rewrite length_app in IH. cbn [List.length] in IH.
      replace (List.length pre + 1) with (S (List.length pre)) in IH by lia.
      unfold bind in IH. rewrite IH; [| lia | exact Hread'].
      rewrite slice_empty. cbn [app].
      rewrite <- !app_assoc. reflexivity.
    + specialize (IH (pre ++ [a]) acc lo Hnext).
      rewrite length_app in IH. cbn [List.length] in IH.
      replace (List.length pre + 1) with (S (List.length pre)) in IH by lia.
      rewrite IH; [| lia | exact Hread'].
      rewrite (slice_extend args lo (List.length pre) a Hlo Hi).
      rewrite <- !app_assoc. reflexivity.
Qed.

Lemma no_params_expand_id (content : string -> string) (i : nat) (args : list string) :
  paramsIndices_from i args = [] ->
  flat_map (expand_argument content) args = args.
Proof.
  revert i. induction args as [|a args IH]; intros i; [reflexivity |].
  cbn [paramsIndices_from flat_map]. unfold expand_argument at 1.
  destruct (HasPrefix a "-param="); [discriminate |].
  intros H. cbn [app]. f_equal. exact (IH _ H).
Qed.

(** C7. When every file named by a -param= argument can be read,
    [readParamsFiles] answers the argument list in which each such argument
    is replaced, where it stands, by the lines of its file (a final empty
    line dropped) and every other argument is kept in order; a file holding
    -flag1, valueA, -flag2, valueB, each ended by a line feed, gives those
    four arguments and no empty one after them. *)
Theorem readParamsFiles_expands_in_place (fs : filesys) (args : list string)
    (content : string -> string)
    (Hread : forall arg, arg ∈ args -> HasPrefix arg "-param=" = true ->
       fst (ReadFile (slice_from 7 arg) fs) = Ok (content arg)) :
  readParamsFiles args fs = (Ok (flat_map (expand_argument content) args), fs) /\
  (forall text, fileArgs_of text = Ok (lines_of text)) /\
  let text := "-flag1" +:+ String LF ("valueA" +:+ String LF
               ("-flag2" +:+ String LF ("valueB" +:+ String LF ""))) in
  fileArgs_of text = Ok ["-flag1"; "valueA"; "-flag2"; "valueB"].
Proof.
  split; [| split; [exact fileArgs_of_lines | reflexivity]].
  unfold readParamsFiles.
  destruct (paramsIndices_from 0 args) as [|i0 is0] eqn:Eidx.
  - cbn. unfold ret. rewrite (no_params_expand_id content 0 args Eidx). reflexivity.
  - cbn [List.length Nat.eqb]. rewrite <- Eidx.
    pose proof (expand_params_from content fs args args [] [] 0 eq_refl
                  (Nat.le_refl _) Hread) as H.
    cbn [List.length app] in H. rewrite slice_empty in H. exact H.
Qed.

(** ** Absolute paths *)

Lemma IsAbs_cons a p :
  filepath.IsAbs (String a p) = Ascii.eqb a filepath.Separator.
Proof.
  unfold filepath.IsAbs. cbn. apply andb_true_r.
Qed.

Lemma IsAbs_Clean p : filepath.IsAbs p = true -> filepath.IsAbs (filepath.Clean p) = true.
Proof.
  intros Hp. unfold filepath.Clean. rewrite Hp.
  destruct (String.eqb_spec p ""); [subst; discriminate |].
  rewrite string_app_cons, IsAbs_cons. reflexivity.
Qed.

Lemma IsAbs_app p q : filepath.IsAbs p = true -> filepath.IsAbs (p +:+ q) = true.
Proof.
  destruct p as [|a p]; [discriminate |].
  rewrite string_app_cons, !IsAbs_cons. exact (fun H => H).
Qed.

Lemma IsAbs_Join wd p :
  filepath.IsAbs wd = true -> filepath.IsAbs (filepath.Join [wd; p]) = true.
Proof.
  intros Hwd. cbn [filepath.Join].
  destruct (String.eqb_spec wd ""); [subst; discriminate |].
  apply IsAbs_Clean. unfold Join_strings. cbn [String.concat].
  apply IsAbs_app. exact Hwd.
Qed.

(** [abs] leaves a value with the sentinel prefix alone and makes any other
    value absolute, when the working directory is known. *)
Lemma abs_spec wd value :
  filepath.IsAbs wd = true ->
  (HasPrefix value "__BAZEL_" = true -> abs (Ok wd) value = value) /\
  (HasPrefix value "__BAZEL_" = false ->
     filepath.IsAbs (abs (Ok wd) value) = true /\
     abs (Ok wd) value = if filepath.IsAbs value then filepath.Clean value
                         else filepath.Join [wd; value]).
Proof.
  intros Hwd. unfold abs, filepath.Abs. split; intros Hs; rewrite Hs; [reflexivity |].
  destruct (filepath.IsAbs value) eqn:Hv.
  - split; [apply IsAbs_Clean; exact Hv | reflexivity].
  - split; [apply IsAbs_Join; exact Hwd | reflexivity].
Qed.

Lemma HasPrefix_split s p :
  HasPrefix s p = true -> s = p +:+ slice_from (String.length p) s.
Proof.
  revert s. induction p as [|b p IH]; intros s; [reflexivity |].
  destruct s as [|a s]; [discriminate |].
  cbn [HasPrefix String.length slice_from].
  intros [Hab Hp]%andb_true_iff. apply Ascii.eqb_eq in Hab. subst b.
  rewrite string_app_cons. f_equal. exact (IH s Hp).
Qed.

Lemma path_value_split flags is_value arg before value :
  path_value flags is_value arg = Some (before, value) -> arg = before +:+ value.
Proof.
  unfold path_value, qualifying_flag. destruct is_value.
  - intros [= <- <-]. reflexivity.
  - destruct (find (fun f => HasPrefix arg f) flags) as [f|] eqn:Ef; [| discriminate].
    apply find_some in Ef as [_ Hp]. apply HasPrefix_split in Hp.
    destruct (slice_from (String.length f) arg) as [|c v] eqn:Ev; [discriminate |].
    intros Hpv. rewrite Hp.
    destruct c as [[] [] [] [] [] [] [] []]; injection Hpv as <- <-;
      rewrite ?string_app_assoc; reflexivity.
Qed.

Lemma length_zero_iff_empty (s : string) :
  Nat.eqb (String.length s) 0 = String.eqb s "".
Proof. destruct s; reflexivity. Qed.

Lemma absArg_spec Getwd flags arg :
  absArg Getwd arg flags = (rewritten (abs Getwd) flags false arg, flag_alone flags arg).
Proof.
  unfold rewritten, path_value, flag_alone, qualifying_flag.
  induction flags as [|f flags IH]; cbn [absArg find]; [reflexivity |].
  destruct (HasPrefix arg f); cbn [negb]; [| exact IH].
  rewrite length_zero_iff_empty.
  destruct (slice_from (String.length f) arg) as [|c value]; [reflexivity |].
  cbn [String.eqb].
  destruct c as [[] [] [] [] [] [] [] []];
    rewrite ?string_app_assoc; reflexivity.
Qed.

Lemma follows_flag_cons first flags a args j :
  follows_flag first flags (a :: args) (S j) =
  follows_flag (negb first && flag_alone flags a) flags args j.
Proof.
  induction j as [|j IH]; [reflexivity |].
  change (follows_flag first flags (a :: args) (S (S j)))
    with (negb (follows_flag first flags (a :: args) (S j))
          && flag_alone flags (nth j args "")).
  rewrite IH. reflexivity.
Qed.

Lemma absArgs_from_lookup Getwd flags args first i arg :
  args !! i = Some arg ->
  absArgs_from Getwd first args flags !! i =
  Some (rewritten (abs Getwd) flags (follows_flag first flags args i) arg).
Proof.
  revert first i. induction args as [|a args IH]; intros first i Hi; [discriminate |].
  cbn [absArgs_from]. destruct i as [|i].
  - injection Hi as ->. destruct first; [reflexivity |].
    rewrite absArg_spec. reflexivity.
  - cbn in Hi. rewrite follows_flag_cons. destruct first.
    + cbn [lookup list_lookup negb andb]. exact (IH false i Hi).
    + rewrite absArg_spec. cbn [negb andb]. exact (IH _ i Hi).
Qed.

Lemma absArgs_from_length Getwd flags args first :
  List.length (absArgs_from Getwd first args flags) = List.length args.
Proof.
  revert first. induction args as [|a args IH]; intros first; [reflexivity |].
  cbn [absArgs_from]. destruct first.
  - cbn. f_equal. apply IH.
  - destruct (absArg Getwd a flags). cbn. f_equal. apply IH.
Qed.

(** C6. With the working directory known, [absArgs] keeps the number of
    arguments and treats each one according to its place. An argument that
    carries a path value (it follows a flag standing alone, or it is a flag
    with the value written directly after it or after "=") has that value
    replaced by [abs] of it, which is the value itself when it starts with
    "__BAZEL_" and an absolute path otherwise; every other argument is
    kept. For -I rel/path -Lrel2 __BAZEL_XCODE/foo and the flags -I, -L the
    result is -I, rel/path below the working directory, -L with rel2 below
    the working directory, and __BAZEL_XCODE/foo. *)
Theorem absArgs_absolutizes_flag_values (wd : string) (args flags : list string)
    (Hwd : filepath.IsAbs wd = true) :
  List.length (absArgs (Ok wd) args flags) = List.length args /\
  (forall i arg, args !! i = Some arg ->
     match path_value flags (follows_flag false flags args i) arg with
     | None => absArgs (Ok wd) args flags !! i = Some arg
     | Some (before, value) =>
         arg = before +:+ value /\
         absArgs (Ok wd) args flags !! i = Some (before +:+ abs (Ok wd) value) /\
         (HasPrefix value "__BAZEL_" = true ->
            absArgs (Ok wd) args flags !! i = Some arg) /\
         (HasPrefix value "__BAZEL_" = false ->
            filepath.IsAbs (abs (Ok wd) value) = true)
     end) /\
  absArgs (Ok wd) ["-I"; "rel/path"; "-Lrel2"; "__BAZEL_XCODE/foo"] ["-I"; "-L"] =
    ["-I"; filepath.Join [wd; "rel/path"]; "-L" +:+ filepath.Join [wd; "rel2"];
     "__BAZEL_XCODE/foo"].
Proof.
  split; [apply absArgs_from_length |].
  split; [| reflexivity].
  intros i arg Hi.
  pose proof (absArgs_from_lookup (Ok wd) flags args false i arg Hi) as Hout.
  unfold rewritten in Hout. fold (absArgs (Ok wd) args flags) in Hout.
  destruct (path_value flags (follows_flag false flags args i) arg)
    as [[before value]|] eqn:Epv; [| exact Hout].
  pose proof (path_value_split _ _ _ _ _ Epv) as Harg.
  destruct (abs_spec wd value Hwd) as [Hs Ha].
  split; [exact Harg |]. split; [exact Hout |]. split.
  - intros Hsent. rewrite Hout, (Hs Hsent), Harg. reflexivity.
  - intros Hplain. exact (proj1 (Ha Hplain)).
Qed.

(** ** The work directory *)

Lemma locate_cwd fs fs' p : cwd fs' = cwd fs -> locate fs' p = locate fs p.
Proof. intros H. unfold locate. rewrite H. reflexivity. Qed.

(** A successful [Mkdir] makes a directory where nothing was. *)
Lemma Mkdir_ok p fs fs' :
  Mkdir p fs = (Ok tt, fs') ->
  lookup_node (tree fs) (locate fs p) = None /\
  lookup_node (tree fs') (locate fs' p) = Some NDir /\
  cwd fs' = cwd fs.
Proof.
  unfold Mkdir.
  destruct (lookup_node (tree fs) (locate fs p)) eqn:Ek; [discriminate |].
  destruct (lookup_node (tree fs) (parent (locate fs p))) as [[]|]; try discriminate.
  intros [= <-]. split; [reflexivity |]. split; [| reflexivity].
  change (lookup_node (<[locate fs p := NDir]> (tree fs)) (locate fs p) = Some NDir).
  destruct (locate fs p) as [|x k]; [discriminate |].
  cbn [lookup_node]. apply lookup_insert_eq.
Qed.

Lemma TempDir_try_ok dir pre draws fs name rest fs' :
  TempDir_try dir pre draws fs = (Ok name, rest, fs') ->
  (exists s, s ∈ draws /\ name = filepath.Join [dir; pre +:+ s]) /\
  lookup_node (tree fs) (locate fs name) = None /\
  lookup_node (tree fs') (locate fs' name) = Some NDir.
Proof.
  induction draws as [|s draws IH]; cbn [TempDir_try]; [discriminate |].
  destruct (lookup_node (tree fs) (locate fs (filepath.Join [dir; pre +:+ s]))) eqn:Ek.
  - intros H. destruct (IH H) as ((s' & Hin & Hname) & Hrest).
    split; [| exact Hrest]. exists s'. split; [| exact Hname].
    apply elem_of_cons. auto.
  - destruct (Mkdir (filepath.Join [dir; pre +:+ s]) fs) as [[[]|err] fs1] eqn:Em;
      [| discriminate].
    intros [= <- <- <-]. destruct (Mkdir_ok _ _ _ Em) as (Hb & Ha & _).
    split; [| split; assumption].
    exists s. split; [apply elem_of_cons; auto | reflexivity].
Qed.

Lemma os_TempDir_not_empty p : os_TempDir p <> "".
Proof.
  unfold os_TempDir. destruct (String.eqb_spec (TMPDIR p) ""); [discriminate | assumption].
Qed.

Lemma work_name_plain s :
  is_decimal s = true -> plain_element ("rules_go_work-" +:+ s).
Proof.
  intros Hs. unfold plain_element. rewrite free_of_app.
  rewrite (is_decimal_free_of_separator s Hs).
  repeat split; discriminate.
Qed.

(** A successful [RemoveAll] leaves nothing at or below the place the path
    names. *)
Lemma RemoveAll_clears path fs fs' k :
  RemoveAll path fs = (Ok tt, fs') -> path <> "" ->
  locate fs path `prefix_of` k -> tree fs' !! k = None.
Proof.
  unfold RemoveAll. destruct (String.eqb_spec path ""); [contradiction |].
  destruct (endsWithDot path); [discriminate |].
  intros [= <-] _ Hk. cbn [tree].
  apply map_lookup_filter_None. right. intros x _ Hnot. apply Hnot. exact Hk.
Qed.

(** [RemoveAll] succeeds on the name of a work directory. *)
Lemma RemoveAll_work_directory dir s fs :
  dir <> "" -> is_decimal s = true ->
  fst (RemoveAll (filepath.Join [dir; "rules_go_work-" +:+ s]) fs) = Ok tt.
Proof.
  intros Hdir Hs. rewrite (Join_two _ _ Hdir).
  pose proof (last_Split_Clean_snoc dir _ (work_name_plain s Hs)) as Hlast.
  unfold RemoveAll.
  destruct (String.eqb_spec (filepath.Clean (dir +:+ String filepath.Separator
                                ("rules_go_work-" +:+ s))) "") as [E | _].
  { exfalso. exact (Clean_not_empty _ E). }
  unfold endsWithDot. rewrite Hlast.
  destruct (String.eqb_spec (filepath.Clean (dir +:+ String filepath.Separator
                                ("rules_go_work-" +:+ s))) ".") as [E | _].
  { rewrite E in Hlast. discriminate. }
  reflexivity.
Qed.

(** C8, as the code has it. The first successful call of [workDir] makes a
    directory that did not exist, named "rules_go_work-" plus a drawn suffix
    in the temporary directory, and records its path; every later call
    answers the recorded path, changes nothing and hands out a cleanup that
    does nothing. Only the cleanup of the first call removes the directory
    with everything below it, and only when the work directory is not to be
    preserved; otherwise that cleanup does nothing either. *)
Theorem workDir_created_once_first_cleanup_removes
    (e : env) (p : process) (path : string) (c : cleanup) (e' : env) (p' : process)
    (Hfresh : workDirPath e = "")
    (Hdraws : Forall (fun s => is_decimal s = true) (suffixes p))
    (Hcall : workDir e p = ((path, c, None), e', p')) :
  (exists s, s ∈ suffixes p /\
     path = filepath.Join [os_TempDir p; "rules_go_work-" +:+ s]) /\
  lookup_node (tree (fsys p)) (locate (fsys p) path) = None /\
  lookup_node (tree (fsys p')) (locate (fsys p') path) = Some NDir /\
  workDirPath e' = path /\
  (forall q, workDir e' q = ((path, cleanup_nothing, None), e', q)) /\
  (forall e1 q, call_cleanup cleanup_nothing e1 q = q) /\
  (shouldPreserveWorkDir e = true -> c = cleanup_nothing) /\
  (shouldPreserveWorkDir e = false ->
     c = cleanup_RemoveAll /\
     forall q k, locate (fsys q) path `prefix_of` k ->
       tree (fsys (call_cleanup c e' q)) !! k = None).
Proof.
  unfold workDir in Hcall. rewrite Hfresh in Hcall. cbn [String.eqb negb] in Hcall.
  unfold TempDir in Hcall. cbn [String.eqb] in Hcall.
  destruct (TempDir_try (os_TempDir p) "rules_go_work-" (suffixes p) (fsys p))
    as [[[name|err] rest] fs1] eqn:Etry; [| discriminate].
  destruct (TempDir_try_ok _ _ _ _ _ _ _ Etry) as ((s & Hin & Hname) & Hbefore & Hafter).
  assert (Hdec : is_decimal s = true).
  { rewrite Forall_forall in Hdraws. exact (Hdraws s Hin). }
  assert (Hpath : path = name /\ e' = set_workDirPath e name /\ fsys p' = fs1 /\
                  c = if shouldPreserveWorkDir e then cleanup_nothing else cleanup_RemoveAll).
  { cbn [verbose set_workDirPath shouldPreserveWorkDir] in Hcall.
    destruct (verbose e); injection Hcall as <- <- <- <-; repeat split; reflexivity. }
  destruct Hpath as (-> & -> & Hfs & ->).
  assert (Hne : name <> "").
  { rewrite Hname, (Join_two _ _ (os_TempDir_not_empty p)). apply Clean_not_empty. }
  split; [exists s; auto |].
  split; [exact Hbefore |].
  split; [rewrite Hfs; exact Hafter |].
  split; [reflexivity |].
  split.
  { intros q. unfold workDir. cbn [workDirPath set_workDirPath].
    destruct (String.eqb_spec name ""); [contradiction | reflexivity]. }
  split; [reflexivity |].
  split; [intros ->; reflexivity |].
  intros ->. split; [reflexivity |].
  intros q k Hk. cbn [call_cleanup fsys workDirPath set_workDirPath].
  pose proof (RemoveAll_work_directory _ s (fsys q) (os_TempDir_not_empty p) Hdec)
    as Hok.
  rewrite <- Hname in Hok.
  destruct (RemoveAll name (fsys q)) as [[[]|err] fs2] eqn:Erm; [| discriminate].
  exact (RemoveAll_clears name (fsys q) fs2 k Erm Hne Hk).
Qed.

End EnvFacts.

(* ===================================================================== *)
(** * Properties of the replication engine *)
(* ===================================================================== *)

Section ReplicateFacts.

Import Builders os Notions.

Variable OpenReader : string -> res (list zip_File).
Variable range_order : gset string -> list string.
Hypothesis range_order_permutes : forall s, range_order s ≡ₚ elements s.




(** ** What the archive loop collects *)

(** The first loop keeps exactly the entries one of whose filters is a
    prefix of the name: the files among them, in archive order, and the set
    of their directories. *)
Lemma collect_selects_by_prefix ps entries dirs files :
  collect ps entries dirs files =
  (list_to_set (recorded_dir <$> filter (fun f => selected ps f = true) entries) ∪ dirs,
   files ++ filter (fun f => zip_IsDir f = false)
              (filter (fun f => selected ps f = true) entries)).
Proof.
  revert dirs files. induction entries as [|f rest IH]; intros dirs files.
  - cbn. rewrite app_nil_r, union_empty_l_L. reflexivity.
  - cbn [collect]. destruct (selected ps f) eqn:Hsel.
    + rewrite (filter_cons_True (fun f => selected ps f = true)) by exact Hsel.
      cbn [fmap list_fmap list_to_set].
      unfold recorded_dir at 1. destruct (zip_IsDir f) eqn:Hdir; rewrite IH.
      * rewrite (filter_cons_False (fun f => zip_IsDir f = false)) by congruence.
        f_equal.
        rewrite (assoc_L (∪) _ {[ Name f ]} dirs), (comm_L (∪) _ {[ Name f ]}).
        reflexivity.
      * rewrite (filter_cons_True (fun f => zip_IsDir f = false)) by exact Hdir.
        rewrite <- app_assoc. f_equal.
        rewrite (assoc_L (∪) _ {[ filepath.Dir (Name f) ]} dirs),
          (comm_L (∪) _ {[ filepath.Dir (Name f) ]}).
        reflexivity.
    + rewrite (filter_cons_False (fun f => selected ps f = true)) by congruence.
      apply IH.
Qed.

Lemma selected_iff ps f :
  selected ps f = true <-> exists path, path ∈ ps /\ HasPrefix (Name f) path = true.
Proof.
  unfold selected. rewrite existsb_exists. split.
  - intros (path & Hin & Hp). exists path. split; [apply list_elem_of_In |]; assumption.
  - intros (path & Hin & Hp). exists path. split; [apply list_elem_of_In |]; assumption.
Qed.

(** ** What preparing a destination does *)

Lemma MkdirAll_cwd p fs : cwd (snd (MkdirAll p fs)) = cwd fs.
Proof. unfold MkdirAll. destruct (mkdir_all (tree fs) [] (locate fs p)). reflexivity. Qed.

(** When [replicatePrepare] succeeds under removeFirst, the destination
    (other than the root and ".") is either absent or a directory that was
    there before with entries in it: the call makes the directory above the
    destination, never the destination. *)
Lemma replicatePrepare_never_makes_destination dst config fs fs' :
  removeFirst config = true ->
  locate fs dst <> [] ->
  endsWithDot dst = false ->
  replicatePrepare dst config fs = (Ok tt, fs') ->
  tree fs' !! locate fs dst = None \/
  (tree fs' !! locate fs dst = Some NDir /\ has_children (tree fs') (locate fs dst) = true).
Proof.
  intros Hrm Hk Hdot. unfold replicatePrepare. rewrite Hrm.
  pose proof (MkdirAll_cwd (filepath.Dir dst) fs) as Hcwd.
  destruct (MkdirAll (filepath.Dir dst) fs) as [[[]|err] fs1]; [| discriminate].
  cbn [snd] in Hcwd. unfold ignore_error, Remove.
  rewrite (locate_cwd fs fs1 dst Hcwd).
  intros [= <-].
  destruct (locate fs dst) as [|x k] eqn:Ek; [contradiction |].
  rewrite Hdot.
  destruct (tree fs1 !! (x :: k)) as [[| |]|] eqn:El; cbn [snd tree].
  - destruct (has_children (tree fs1) (x :: k)) eqn:Hc; cbn [snd tree].
    + right. auto.
    + left. apply lookup_delete_eq.
  - left. apply lookup_delete_eq.
  - left. apply lookup_delete_eq.
  - left. exact El.
Qed.

(** ** What the archive replicator leaves alone *)

Section Footprint.

Variable c : location.
Variables W R : location -> Prop.

Lemma footprint_refl t : footprint W R t t.
Proof. intros k. auto. Qed.

Lemma footprint_trans t1 t2 t3 :
  footprint W R t1 t2 -> footprint W R t2 t3 -> footprint W R t1 t3.
Proof.
  intros H12 H23 k.
  destruct (H12 k) as [E1 | [(Hw1 & Hr1 & d1 & p1 & Hf1) | [Hd1 Hr1]]];
    destruct (H23 k) as [E2 | [(Hw2 & Hr2 & d2 & p2 & Hf2) | [Hd2 Hr2]]].
  - left. congruence.
  - right; left. rewrite <- E1. eauto 6.
  - right; right. rewrite <- E1. auto.
  - right; left. rewrite E2. eauto 6.
  - right; left. eauto 6.
  - right; right. split; [exact Hd2 |]. left.
    destruct Hr2 as [Hr2 | Hr2]; [exact Hr2 | congruence].
  - right; right. rewrite E2. auto.
  - right; left. split; [exact Hw2 |]. split; [| eauto].
    destruct Hr1 as [Hr1 | Hr1]; [left; exact Hr1 | right; congruence].
  - right; right. auto.
Qed.

Lemma footprint_make_directory t k :
  t !! k = None -> footprint W R t (<[k := NDir]> t).
Proof.
  intros Hk k'. destruct (decide (k = k')) as [<- | Hne].
  - right; right. rewrite lookup_insert_eq. auto.
  - left. apply lookup_insert_ne. exact Hne.
Qed.

Lemma footprint_remove t k : R k -> footprint W R t (delete k t).
Proof.
  intros Hk k'. destruct (decide (k = k')) as [<- | Hne].
  - right; right. rewrite lookup_delete_eq. auto.
  - left. apply lookup_delete_ne. exact Hne.
Qed.

Lemma footprint_write t k data perm :
  W k -> t !! k <> Some NDir -> footprint W R t (<[k := NFile data perm]> t).
Proof.
  intros Hk Hdir k'. destruct (decide (k = k')) as [<- | Hne].
  - right; left. rewrite lookup_insert_eq. eauto 6.
  - left. apply lookup_insert_ne. exact Hne.
Qed.

Lemma within_same fs :
  cwd fs = c -> no_symlinks (tree fs) ->
  cwd fs = c /\ no_symlinks (tree fs) /\ footprint W R (tree fs) (tree fs).
Proof. intros Hc Hs. split; [exact Hc |]. split; [exact Hs | apply footprint_refl]. Qed.

Lemma within_ret {A} (a : A) : within c W R (ret a).
Proof. intros fs Hc Hs. exact (within_same fs Hc Hs). Qed.

Lemma within_fail {A} e : within c W R (@fail A e).
Proof. intros fs Hc Hs. exact (within_same fs Hc Hs). Qed.

Lemma within_bind_value {A B} (m : IO A) (k : A -> IO B) (Q : A -> Prop) :
  within c W R m ->
  (forall fs a, cwd fs = c -> no_symlinks (tree fs) -> fst (m fs) = Ok a -> Q a) ->
  (forall a, Q a -> within c W R (k a)) ->
  within c W R (bind m k).
Proof.
  intros Hm HQ Hk fs Hc Hs. unfold bind.
  destruct (Hm fs Hc Hs) as (Hc1 & Hs1 & Hf1).
  specialize (HQ fs).
  destruct (m fs) as [[a|e] fs1]; cbn [fst snd] in *.
  - destruct (Hk a (HQ a Hc Hs eq_refl) fs1 Hc1 Hs1) as (Hc2 & Hs2 & Hf2).
    split; [exact Hc2 |]. split; [exact Hs2 |].
    exact (footprint_trans _ _ _ Hf1 Hf2).
  - auto.
Qed.

Lemma within_bind {A B} (m : IO A) (k : A -> IO B) :
  within c W R m -> (forall a, within c W R (k a)) -> within c W R (bind m k).
Proof.
  intros Hm Hk. apply within_bind_value with (Q := fun _ => True); auto.
Qed.

Lemma within_ignore_error {A} (m : IO A) :
  within c W R m -> within c W R (ignore_error m).
Proof. intros Hm fs Hc Hs. exact (Hm fs Hc Hs). Qed.

Lemma within_for_each {A} (l : list A) (f : A -> IO unit) :
  (forall x, x ∈ l -> within c W R (f x)) -> within c W R (for_each l f).
Proof.
  induction l as [|x l IH]; intros Hf; cbn [for_each].
  - apply within_ret.
  - apply within_bind.
    + apply Hf. apply elem_of_cons. auto.
    + intros _. apply IH. intros y Hy. apply Hf. apply elem_of_cons. auto.
Qed.

Lemma lookup_node_no_symlink t k target :
  no_symlinks t -> lookup_node t k <> Some (NSymlink target).
Proof. intros Hs. destruct k; [discriminate | apply Hs]. Qed.

Lemma follow_no_symlinks fuel t k : no_symlinks t -> follow fuel t k = Ok k.
Proof.
  intros Hs. destruct fuel; cbn [follow];
    pose proof (fun target => lookup_node_no_symlink t k target Hs) as H;
    destruct (lookup_node t k) as [[| |target]|]; try reflexivity;
    exfalso; exact (H target eq_refl).
Qed.

Lemma no_symlinks_insert t k n :
  no_symlinks t -> (forall target, n <> NSymlink target) ->
  no_symlinks (<[k := n]> t).
Proof.
  intros Hs Hn k' target. destruct (decide (k = k')) as [<- | Hne].
  - rewrite lookup_insert_eq. intros [= ->]. exact (Hn target eq_refl).
  - rewrite lookup_insert_ne by exact Hne. apply Hs.
Qed.

Lemma no_symlinks_delete t k : no_symlinks t -> no_symlinks (delete k t).
Proof.
  intros Hs k' target. destruct (decide (k = k')) as [<- | Hne].
  - rewrite lookup_delete_eq. discriminate.
  - rewrite lookup_delete_ne by exact Hne. apply Hs.
Qed.

(** [MkdirAll] only makes directories where nothing was. *)
Lemma mkdir_all_footprint t done todo :
  no_symlinks t ->
  no_symlinks (snd (mkdir_all t done todo)) /\
  footprint W R t (snd (mkdir_all t done todo)).
Proof.
  revert t done. induction todo as [|x todo IH]; intros t done Hs; cbn [mkdir_all].
  - split; [exact Hs | apply footprint_refl].
  - rewrite (follow_no_symlinks _ _ _ Hs).
    destruct (lookup_node t (done ++ [x])) as [[| |]|] eqn:El.
    + apply IH. exact Hs.
    + split; [exact Hs | apply footprint_refl].
    + split; [exact Hs | apply footprint_refl].
    + assert (Hnone : t !! (done ++ [x]) = None).
      { destruct (done ++ [x]) eqn:E; [destruct done; discriminate | exact El]. }
      destruct (IH (<[done ++ [x] := NDir]> t) (done ++ [x])) as [Hs' Hf'].
      { apply no_symlinks_insert; [exact Hs | discriminate]. }
      split; [exact Hs' |].
      exact (footprint_trans _ _ _ (footprint_make_directory t _ Hnone) Hf').
Qed.

Lemma within_MkdirAll p : within c W R (MkdirAll p).
Proof.
  intros fs Hc Hs. unfold MkdirAll.
  destruct (mkdir_all_footprint (tree fs) [] (locate fs p) Hs) as [Hs' Hf'].
  destruct (mkdir_all (tree fs) [] (locate fs p)) as [r t']. cbn in *.
  auto.
Qed.

Lemma within_Remove p :
  (forall fs, cwd fs = c -> R (locate fs p)) -> within c W R (Remove p).
Proof.
  intros Hp fs Hc Hs. specialize (Hp fs Hc). unfold Remove.
  assert (Hdel : cwd fs = c /\ no_symlinks (delete (locate fs p) (tree fs)) /\
                 footprint W R (tree fs) (delete (locate fs p) (tree fs))).
  { split; [exact Hc |]. split; [apply no_symlinks_delete; exact Hs |].
    apply footprint_remove. exact Hp. }
  destruct (endsWithDot p); [exact (within_same fs Hc Hs) |].
  destruct (locate fs p) as [|x k]; [exact (within_same fs Hc Hs) |].
  destruct (tree fs !! (x :: k)) as [[| |]|]; cbn [snd cwd tree];
    try (exact (within_same fs Hc Hs)); try exact Hdel.
  destruct (has_children (tree fs) (x :: k)); cbn [snd cwd tree];
    [exact (within_same fs Hc Hs) | exact Hdel].
Qed.

Lemma write_within fs k data perm :
  cwd fs = c -> no_symlinks (tree fs) -> W k -> tree fs !! k <> Some NDir ->
  cwd fs = c /\ no_symlinks (<[k := NFile data perm]> (tree fs)) /\
  footprint W R (tree fs) (<[k := NFile data perm]> (tree fs)).
Proof.
  intros Hc Hs Hk Hn. split; [exact Hc |].
  split; [apply no_symlinks_insert; [assumption | discriminate] |
          apply footprint_write; assumption].
Qed.

Lemma within_Create p :
  (forall fs, cwd fs = c -> W (locate fs p)) -> within c W R (Create p).
Proof.
  intros Hp fs Hc Hs. specialize (Hp fs Hc). unfold Create.
  rewrite (follow_no_symlinks _ _ _ Hs).
  destruct (locate fs p) as [|x k] eqn:Ek; [exact (within_same fs Hc Hs) |].
  destruct (lookup_node (tree fs) (parent (x :: k))) as [[| |]|];
    try (exact (within_same fs Hc Hs)).
  destruct (tree fs !! (x :: k)) as [[|d pm|]|] eqn:El; cbn [snd cwd tree];
    try (exact (within_same fs Hc Hs));
    apply write_within; try assumption; rewrite El; discriminate.
Qed.

Lemma Create_location p fs out :
  no_symlinks (tree fs) -> fst (Create p fs) = Ok out -> out = locate fs p.
Proof.
  intros Hs. unfold Create. rewrite (follow_no_symlinks _ _ _ Hs).
  destruct (locate fs p) as [|x k]; [discriminate |].
  destruct (lookup_node (tree fs) (parent (x :: k))) as [[| |]|]; try discriminate.
  destruct (tree fs !! (x :: k)) as [[|d pm|]|]; cbn [fst]; congruence.
Qed.

Lemma within_write_all k data : W k -> within c W R (write_all k data).
Proof.
  intros Hk fs Hc Hs. unfold write_all.
  destruct (tree fs !! k) as [[|d pm|]|] eqn:El; cbn [snd cwd tree];
    try (exact (within_same fs Hc Hs)).
  apply write_within; try assumption. rewrite El. discriminate.
Qed.

Lemma within_Chmod p perm :
  (forall fs, cwd fs = c -> W (locate fs p)) -> within c W R (Chmod p perm).
Proof.
  intros Hp fs Hc Hs. specialize (Hp fs Hc). unfold Chmod.
  rewrite (follow_no_symlinks _ _ _ Hs).
  destruct (tree fs !! locate fs p) as [[|d pm|]|] eqn:El; cbn [snd cwd tree];
    try (exact (within_same fs Hc Hs)).
  apply write_within; try assumption. rewrite El. discriminate.
Qed.

Lemma within_createFile input perm p :
  (forall fs, cwd fs = c -> W (locate fs p)) -> within c W R (createFile input perm p).
Proof.
  intros Hp. unfold createFile.
  apply within_bind_value with (Q := W).
  - apply within_Create. exact Hp.
  - intros fs out Hc Hs Hout.
    rewrite (Create_location p fs out Hs Hout). exact (Hp fs Hc).
  - intros out Hout. destruct input as [data|err]; [| apply within_fail].
    apply within_bind.
    + apply within_write_all. exact Hout.
    + intros _. apply within_Chmod. exact Hp.
Qed.

Lemma within_replicatePrepare to config :
  (forall fs, cwd fs = c -> R (locate fs to)) ->
  within c W R (replicatePrepare to config).
Proof.
  intros Hp fs Hc Hs. unfold replicatePrepare.
  destruct (within_MkdirAll (filepath.Dir to) fs Hc Hs) as (Hc1 & Hs1 & Hf1).
  destruct (MkdirAll (filepath.Dir to) fs) as [[[]|err] fs1]; cbn [snd] in *; [| auto].
  destruct (removeFirst config); [| cbn; auto].
  destruct (within_ignore_error _ (within_Remove to Hp) fs1 Hc1 Hs1)
    as (Hc2 & Hs2 & Hf2).
  split; [exact Hc2 |]. split; [exact Hs2 |].
  exact (footprint_trans _ _ _ Hf1 Hf2).
Qed.

Lemma within_extract dst file :
  (forall fs, cwd fs = c -> W (locate fs (filepath.Join [dst; Name file]))) ->
  within c W R (extract dst file).
Proof.
  intros Hp. unfold extract. apply within_bind; [apply within_MkdirAll |].
  intros _. destruct (body file) as [data|err]; [| apply within_fail].
  apply within_createFile. exact Hp.
Qed.

End Footprint.

(** A computation that removes nothing leaves every directory in place. *)
Lemma within_keeps_directory {A} c W (m : IO A) fs k :
  within c W (fun _ => False) m ->
  cwd fs = c -> no_symlinks (tree fs) ->
  lookup_node (tree fs) k = Some NDir ->
  lookup_node (tree (snd (m fs))) k = Some NDir.
Proof.
  intros Hm Hc Hs Hk. destruct k as [|x k]; [reflexivity |]. cbn [lookup_node] in *.
  destruct (Hm fs Hc Hs) as (_ & _ & Hfoot).
  destruct (Hfoot (x :: k)) as [E | [(_ & [[] | Hn] & _) | [_ [[] | Hnone]]]];
    congruence.
Qed.

(** A successful [MkdirAll] leaves a directory at the place its path names. *)
Lemma mkdir_all_makes t done todo t' :
  no_symlinks t ->
  lookup_node t done = Some NDir ->
  mkdir_all t done todo = (Ok tt, t') ->
  lookup_node t' (done ++ todo) = Some NDir.
Proof.
  revert t done. induction todo as [|x todo IH]; intros t done Hs Hdone; cbn [mkdir_all].
  - intros [= <-]. rewrite app_nil_r. exact Hdone.
  - rewrite (follow_no_symlinks _ _ _ Hs).
    replace (done ++ x :: todo) with ((done ++ [x]) ++ todo)
      by (rewrite <- app_assoc; reflexivity).
    destruct (lookup_node t (done ++ [x])) as [[| |]|] eqn:El; try discriminate.
    + apply IH; assumption.
    + apply IH.
      * apply no_symlinks_insert; [exact Hs | discriminate].
      * destruct (done ++ [x]) eqn:E; [destruct done; discriminate |].
        cbn [lookup_node]. apply lookup_insert_eq.
Qed.

Lemma MkdirAll_makes p fs fs' :
  no_symlinks (tree fs) ->
  MkdirAll p fs = (Ok tt, fs') ->
  lookup_node (tree fs') (locate fs p) = Some NDir.
Proof.
  intros Hs. unfold MkdirAll.
  destruct (mkdir_all (tree fs) [] (locate fs p)) as [r t'] eqn:Em.
  intros [= -> <-]. cbn [tree].
  exact (mkdir_all_makes (tree fs) [] (locate fs p) t' Hs eq_refl Em).
Qed.

(** [Remove] changes the tree at the place its path names, if at all. *)
Lemma Remove_tree p fs :
  cwd (snd (Remove p fs)) = cwd fs /\
  (tree (snd (Remove p fs)) = tree fs \/
   tree (snd (Remove p fs)) = delete (locate fs p) (tree fs)).
Proof.
  unfold Remove. destruct (endsWithDot p); [cbn; auto |].
  destruct (locate fs p) as [|x k]; [cbn; auto |].
  destruct (tree fs !! (x :: k)) as [[| |]|]; cbn [snd cwd tree]; auto.
  destruct (has_children (tree fs) (x :: k)); cbn [snd cwd tree]; auto.
Qed.

(** When [replicatePrepare] succeeds, the directory above the destination
    is there. *)
Lemma replicatePrepare_makes_parent to config fs fs' :
  no_symlinks (tree fs) ->
  replicatePrepare to config fs = (Ok tt, fs') ->
  locate fs (filepath.Dir to) <> locate fs to ->
  lookup_node (tree fs') (locate fs (filepath.Dir to)) = Some NDir.
Proof.
  intros Hs. unfold replicatePrepare.
  pose proof (MkdirAll_cwd (filepath.Dir to) fs) as Hcwd.
  destruct (MkdirAll (filepath.Dir to) fs) as [[[]|err] fs1] eqn:Em; [| discriminate].
  pose proof (MkdirAll_makes _ _ _ Hs Em) as Hdir. cbn [snd] in Hcwd.
  destruct (removeFirst config); [| intros [= <-] _; exact Hdir].
  unfold ignore_error. intros [= <-] Hne.
  destruct (Remove_tree to fs1) as [_ [-> | ->]]; [exact Hdir |].
  rewrite (locate_cwd fs fs1 to Hcwd).
  destruct (locate fs (filepath.Dir to)) as [|x k]; [reflexivity |].
  cbn [lookup_node] in *. rewrite lookup_delete_ne by congruence. exact Hdir.
Qed.

(** However the call ends, the archive replicator changes a link-free tree
    only in three ways: it writes files at the destinations of selected file
    entries, it removes entries at the destinations of recorded directories,
    and it makes directories where nothing was. *)
Theorem zip_mode_footprint (src dst : string) (config : replicateConfig)
    (entries : list zip_File) (fs : filesys) :
  OpenReader (zip config) = Ok entries ->
  no_symlinks (tree fs) ->
  footprint
    (fun k => exists f, f ∈ entries /\ selected (paths config) f = true /\
                        zip_IsDir f = false /\
                        k = locate fs (filepath.Join [dst; Name f]))
    (fun k => exists f, f ∈ entries /\ selected (paths config) f = true /\
                        k = locate fs (filepath.Join [dst; recorded_dir f]))
    (tree fs)
    (tree (snd (zipReplicator_Replicate OpenReader range_order src dst config fs))).
Proof.
  intros Hopen Hs.
  set (W := fun k => exists f, f ∈ entries /\ selected (paths config) f = true /\
                               zip_IsDir f = false /\
                               k = locate fs (filepath.Join [dst; Name f])).
  set (R := fun k => exists f, f ∈ entries /\ selected (paths config) f = true /\
                               k = locate fs (filepath.Join [dst; recorded_dir f])).
  unfold zipReplicator_Replicate. rewrite Hopen, collect_selects_by_prefix.
  rewrite union_empty_r_L, app_nil_l.
  assert (Hin : within (cwd fs) W R
    (bind (prepare_dirs range_order dst config
             (list_to_set (recorded_dir <$>
                filter (fun f => selected (paths config) f = true) entries)))
          (fun _ => extract_files dst
             (filter (fun f => zip_IsDir f = false)
                (filter (fun f => selected (paths config) f = true) entries))))).
  { apply within_bind.
    - unfold prepare_dirs. apply within_for_each. intros dir Hdir.
      apply within_replicatePrepare. intros fs' Hc.
      rewrite (locate_cwd fs fs' _ Hc).
      rewrite (range_order_permutes _) in Hdir.
      apply elem_of_elements, elem_of_list_to_set, list_elem_of_fmap in Hdir.
      destruct Hdir as (f & -> & Hf). apply list_elem_of_filter in Hf as [Hsel Hf].
      exists f. auto.
    - intros _. unfold extract_files. apply within_for_each. intros f Hf.
      apply within_extract. intros fs' Hc. rewrite (locate_cwd fs fs' _ Hc).
      apply list_elem_of_filter in Hf as [Hdir Hf].
      apply list_elem_of_filter in Hf as [Hsel Hf].
      exists f. auto. }
  destruct (Hin fs eq_refl Hs) as (_ & _ & Hfoot). exact Hfoot.
Qed.

(** X15. The archive replicator removes nothing for not being in the archive:
    when the archive opens and the tree holds no symbolic links, an entry of
    the file system that is not itself the destination of a recorded
    directory or of a selected entry is still there after the call, as it
    was. *)
Corollary zip_mode_leaves_other_entries (src dst : string) (config : replicateConfig)
    (entries : list zip_File) (fs : filesys) (k0 : location) (n : node) :
  OpenReader (zip config) = Ok entries ->
  no_symlinks (tree fs) ->
  tree fs !! k0 = Some n ->
  (forall f, f ∈ entries -> selected (paths config) f = true ->
     locate fs (filepath.Join [dst; recorded_dir f]) <> k0 /\
     locate fs (filepath.Join [dst; Name f]) <> k0) ->
  tree (snd (zipReplicator_Replicate OpenReader range_order src dst config fs)) !! k0
    = Some n.
Proof.
  intros Hopen Hs Hn Hother.
  destruct (zip_mode_footprint src dst config entries fs Hopen Hs k0)
    as [E | [((f & Hf & Hsel & _ & ->) & _) | [_ [(f & Hf & Hsel & ->) | Hnone]]]].
  - rewrite E. exact Hn.
  - exfalso. exact (proj2 (Hother f Hf Hsel) eq_refl).
  - exfalso. exact (proj1 (Hother f Hf Hsel) eq_refl).
  - congruence.
Qed.

(** Only selected entries are extracted: a regular file that is at a place
    after the call and was not there as it is before the call is at the
    destination of a file entry whose name starts with one of the filters. *)
Corollary zip_mode_extracts_selected_only (src dst : string) (config : replicateConfig)
    (entries : list zip_File) (fs : filesys) (k0 : location) (data : string) (perm : N) :
  OpenReader (zip config) = Ok entries ->
  no_symlinks (tree fs) ->
  tree (snd (zipReplicator_Replicate OpenReader range_order src dst config fs)) !! k0
    = Some (NFile data perm) ->
  tree fs !! k0 <> Some (NFile data perm) ->
  exists f path, f ∈ entries /\ path ∈ paths config /\
    HasPrefix (Name f) path = true /\ zip_IsDir f = false /\
    k0 = locate fs (filepath.Join [dst; Name f]).
Proof.
  intros Hopen Hs Hafter Hbefore.
  destruct (zip_mode_footprint src dst config entries fs Hopen Hs k0)
    as [E | [((f & Hf & Hsel & Hdir & ->) & _) | [[Hn | Hd] _]]].
  - congruence.
  - apply selected_iff in Hsel as (path & Hpath & Hprefix).
    exists f, path. auto.
  - congruence.
  - congruence.
Qed.

(** ** What a successful extraction leaves *)

Lemma Create_ok p fs out fs1 :
  no_symlinks (tree fs) -> Create p fs = (Ok out, fs1) ->
  out = locate fs p /\
  lookup_node (tree fs) (parent (locate fs p)) = Some NDir /\
  exists pm, fs1 = mkFs (cwd fs) (<[locate fs p := NFile "" pm]> (tree fs)).
Proof.
  intros Hs. unfold Create. rewrite (follow_no_symlinks _ _ _ Hs).
  destruct (locate fs p) as [|x k]; [discriminate |].
  destruct (lookup_node (tree fs) (parent (x :: k))) as [[| |]|]; try discriminate.
  destruct (tree fs !! (x :: k)) as [[|d pm|]|]; try discriminate;
    intros [= <- <-]; repeat split; eexists; reflexivity.
Qed.

(** A successful [createFile] leaves the bytes it was given, with the
    permission bits it was given, at the place its path names, in a
    directory. *)
Lemma createFile_writes input perm p fs fs' :
  no_symlinks (tree fs) ->
  createFile input perm p fs = (Ok tt, fs') ->
  exists data, input = Ok data /\
    tree fs' !! locate fs p = Some (NFile data perm) /\
    lookup_node (tree fs') (parent (locate fs p)) = Some NDir.
Proof.
  intros Hs Hrun.
  assert (Hparent : lookup_node (tree fs') (parent (locate fs p)) = Some NDir).
  { pose proof (within_keeps_directory (cwd fs) (fun _ => True) (createFile input perm p)
                  fs (parent (locate fs p))
                  (within_createFile (cwd fs) _ _ input perm p (fun _ _ => I))
                  eq_refl Hs) as Hkeep.
    rewrite Hrun in Hkeep. apply Hkeep.
    unfold createFile, bind in Hrun.
    destruct (Create p fs) as [[out|e] fs1] eqn:Ec; [| discriminate].
    exact (proj1 (proj2 (Create_ok p fs out fs1 Hs Ec))). }
  revert Hrun. unfold createFile, bind.
  destruct (Create p fs) as [[out|e] fs1] eqn:Ec; [| discriminate].
  destruct (Create_ok p fs out fs1 Hs Ec) as (-> & _ & pm & ->).
  destruct input as [data|err]; [| discriminate].
  unfold write_all. cbn [tree cwd]. rewrite lookup_insert_eq.
  unfold Chmod. cbn [tree cwd].
  change (locate {| cwd := cwd fs;
                    tree := <[locate fs p := NFile data pm]>
                              (<[locate fs p := NFile "" pm]> (tree fs)) |} p)
    with (locate fs p).
  rewrite follow_no_symlinks.
  2:{ apply no_symlinks_insert; [| discriminate].
      apply no_symlinks_insert; [exact Hs | discriminate]. }
  rewrite lookup_insert_eq. intros [= <-]. cbn [tree].
  exists data. split; [reflexivity |]. split; [apply lookup_insert_eq |].
  exact Hparent.
Qed.

Lemma extract_state dst file fs :
  no_symlinks (tree fs) ->
  cwd (snd (extract dst file fs)) = cwd fs /\
  no_symlinks (tree (snd (extract dst file fs))).
Proof.
  intros Hs.
  destruct (within_extract (cwd fs) (fun _ => True) (fun _ => False) dst file
              (fun _ _ => I) fs eq_refl Hs) as (Hc & Hs' & _).
  auto.
Qed.

(** A successful [extract] leaves the entry's bytes and permission bits at
    its destination, in a directory. *)
Lemma extract_writes dst file fs fs' :
  no_symlinks (tree fs) ->
  extract dst file fs = (Ok tt, fs') ->
  exists data, body file = Ok data /\
    tree fs' !! locate fs (filepath.Join [dst; Name file])
      = Some (NFile data (attr_perm file)) /\
    lookup_node (tree fs') (parent (locate fs (filepath.Join [dst; Name file])))
      = Some NDir.
Proof.
  intros Hs. unfold extract, bind.
  destruct (within_MkdirAll (cwd fs) (fun _ => True) (fun _ => False)
              (filepath.Dir (filepath.Join [dst; Name file])) fs eq_refl Hs)
    as (Hc1 & Hs1 & _).
  destruct (MkdirAll (filepath.Dir (filepath.Join [dst; Name file])) fs)
    as [[[]|err] fs1]; [| discriminate].
  cbn [snd] in *.
  destruct (body file) as [data|err]; [| discriminate].
  intros Hcreate.
  destruct (createFile_writes _ _ _ _ _ Hs1 Hcreate) as (data' & [= <-] & Hfile & Hdir).
  exists data. split; [reflexivity |].
  rewrite <- (locate_cwd fs fs1 _ Hc1). auto.
Qed.

Lemma within_extract_files c dst files :
  within c (fun k => exists fs g, cwd fs = c /\ g ∈ files /\
                                  k = locate fs (filepath.Join [dst; Name g]))
    (fun _ => False) (extract_files dst files).
Proof.
  unfold extract_files. apply within_for_each. intros g Hg.
  apply within_extract. intros fs' Hc. exists fs', g. auto.
Qed.

(** The extraction loop leaves an entry alone that is at the destination of
    none of the files it extracts. *)
Lemma extract_files_keeps_other dst files fs k n :
  no_symlinks (tree fs) ->
  tree fs !! k = Some n ->
  (forall g, g ∈ files -> locate fs (filepath.Join [dst; Name g]) <> k) ->
  tree (snd (extract_files dst files fs)) !! k = Some n.
Proof.
  intros Hs Hk Hother.
  destruct (within_extract_files (cwd fs) dst files fs eq_refl Hs) as (_ & _ & Hfoot).
  destruct (Hfoot k) as [E | [((fs0 & g & Hc & Hg & ->) & _) | [_ [[] | Hnone]]]].
  - rewrite E. exact Hk.
  - exfalso. apply (Hother g Hg). symmetry. apply locate_cwd. exact Hc.
  - congruence.
Qed.

(** The extraction loop leaves every directory in place. *)
Lemma extract_files_keeps_directory dst files fs k :
  no_symlinks (tree fs) ->
  lookup_node (tree fs) k = Some NDir ->
  lookup_node (tree (snd (extract_files dst files fs))) k = Some NDir.
Proof.
  intros Hs Hk.
  exact (within_keeps_directory (cwd fs) _ _ fs k
           (within_extract_files (cwd fs) dst files) eq_refl Hs Hk).
Qed.

(** When the extraction loop succeeds, every file it was given is at its
    destination, in a directory, with its bytes and permission bits, unless
    a later file of the list has the same destination. *)
Lemma extract_files_writes dst files fs fs' i f :
  no_symlinks (tree fs) ->
  extract_files dst files fs = (Ok tt, fs') ->
  files !! i = Some f ->
  (forall j g, i < j -> files !! j = Some g ->
     locate fs (filepath.Join [dst; Name g]) <> locate fs (filepath.Join [dst; Name f])) ->
  exists data, body f = Ok data /\
    tree fs' !! locate fs (filepath.Join [dst; Name f]) = Some (NFile data (attr_perm f)) /\
    lookup_node (tree fs') (parent (locate fs (filepath.Join [dst; Name f]))) = Some NDir.
Proof.
  revert fs i. induction files as [|g rest IH]; intros fs i Hs Hrun Hi Hlater;
    [discriminate |].
  unfold extract_files in Hrun. cbn [for_each] in Hrun. unfold bind in Hrun.
  destruct (extract dst g fs) as [[[]|err] fs1] eqn:Eg; [| discriminate].
  destruct (extract_state dst g fs Hs) as [Hc1 Hs1]. rewrite Eg in Hc1, Hs1.
  cbn [snd] in Hc1, Hs1.
  destruct i as [|i].
  - injection Hi as ->.
    destruct (extract_writes dst f fs fs1 Hs Eg) as (data & Hbody & Hfile & Hdir).
    exists data. split; [exact Hbody |].
    pose proof (extract_files_keeps_other dst rest fs1 _ _ Hs1 Hfile) as Hkeep.
    pose proof (extract_files_keeps_directory dst rest fs1 _ Hs1 Hdir) as Hkeepd.
    unfold extract_files in Hkeep, Hkeepd. rewrite Hrun in Hkeep, Hkeepd.
    split; [| exact Hkeepd]. apply Hkeep.
    intros g' Hg'. rewrite (locate_cwd fs fs1 _ Hc1).
    apply list_elem_of_lookup in Hg' as [j Hj].
    apply (Hlater (S j) g'); [lia | exact Hj].
  - destruct (IH fs1 i Hs1 Hrun Hi) as (data & Hbody & Hfile & Hdir).
    { intros j g' Hij Hj. rewrite !(locate_cwd fs fs1 _ Hc1).
      apply (Hlater (S j) g'); [lia | exact Hj]. }
    exists data. split; [exact Hbody |].
    rewrite <- (locate_cwd fs fs1 _ Hc1). auto.
Qed.

(** When the archive replicator succeeds on a link-free tree, every
    selected file entry is at its destination, in a directory, with its
    bytes and permission bits, unless a later selected file entry has the
    same destination. *)
Lemma zip_mode_extracts_every_selected_file (src dst : string)
    (config : replicateConfig) (entries : list zip_File) (fs fs' : filesys)
    (i : nat) (f : zip_File) :
  let files := filter (fun f => zip_IsDir f = false)
                 (filter (fun f => selected (paths config) f = true) entries) in
  OpenReader (zip config) = Ok entries ->
  no_symlinks (tree fs) ->
  zipReplicator_Replicate OpenReader range_order src dst config fs = (Ok tt, fs') ->
  files !! i = Some f ->
  (forall j g, i < j -> files !! j = Some g ->
     locate fs (filepath.Join [dst; Name g]) <> locate fs (filepath.Join [dst; Name f])) ->
  exists data, body f = Ok data /\
    tree fs' !! locate fs (filepath.Join [dst; Name f]) = Some (NFile data (attr_perm f)) /\
    lookup_node (tree fs') (parent (locate fs (filepath.Join [dst; Name f]))) = Some NDir.
Proof.
  intros files Hopen Hs. unfold zipReplicator_Replicate.
  rewrite Hopen, collect_selects_by_prefix, union_empty_r_L, app_nil_l.
  fold files. unfold bind.
  set (dirs := list_to_set (recorded_dir <$>
                 filter (fun f => selected (paths config) f = true) entries)).
  assert (Hprep : within (cwd fs) (fun _ => True) (fun _ => True)
                    (prepare_dirs range_order dst config dirs)).
  { unfold prepare_dirs. apply within_for_each. intros dir _.
    apply within_replicatePrepare. auto. }
  destruct (Hprep fs eq_refl Hs) as (Hc1 & Hs1 & _).
  destruct (prepare_dirs range_order dst config dirs fs) as [[[]|err] fs1];
    [| discriminate].
  cbn [snd] in Hc1, Hs1.
  intros Hrun Hi Hlater.
  destruct (extract_files_writes dst files fs1 fs' i f Hs1 Hrun Hi)
    as (data & Hb & Hf & Hd).
  { intros j g Hij Hj. rewrite !(locate_cwd fs fs1 _ Hc1). exact (Hlater j g Hij Hj). }
  exists data. split; [exact Hb |].
  rewrite <- (locate_cwd fs fs1 _ Hc1). auto.
Qed.

(** C2, as the code has it. With the archive opened, on a tree without
    symbolic links: (1) the entries acted upon are exactly those whose name
    has one of the filters as a prefix, the files among them kept in archive
    order and their directories recorded as a set; (2) the loop over the
    recorded directories runs to its end before any file is extracted;
    (3) for each destination that loop prepares, the directory above it is
    made and, under removeFirst, the destination itself is left absent or a
    directory with entries in it, so it is never made by the loop;
    (4) when the call succeeds, every
    selected file entry is at its destination, in a directory, with its
    bytes and permission bits, unless a later selected file has the same
    destination; (5) a regular file that the call has put in place is the
    extraction of a selected file entry. *)
Theorem zip_mode_selects_prepares_then_extracts
    (src dst : string) (config : replicateConfig) (entries : list zip_File)
    (fs : filesys)
    (Hopen : OpenReader (zip config) = Ok entries)
    (Hlinks : no_symlinks (tree fs)) :
  let chosen := filter (fun f => selected (paths config) f = true) entries in
  let files := filter (fun f => zip_IsDir f = false) chosen in
  let dirs : gset string := list_to_set (recorded_dir <$> chosen) in
  let run := zipReplicator_Replicate OpenReader range_order src dst config fs in
  let destination (f : zip_File) := locate fs (filepath.Join [dst; Name f]) in
  (forall f, f ∈ chosen <->
     f ∈ entries /\ exists path, path ∈ paths config /\ HasPrefix (Name f) path = true) /\
  collect (paths config) entries ∅ [] = (dirs, files) /\
  run = bind (prepare_dirs range_order dst config dirs)
             (fun _ => extract_files dst files) fs /\
  (forall to fs1 fs2,
     no_symlinks (tree fs1) ->
     replicatePrepare to config fs1 = (Ok tt, fs2) ->
     (locate fs1 (filepath.Dir to) <> locate fs1 to ->
      lookup_node (tree fs2) (locate fs1 (filepath.Dir to)) = Some NDir) /\
     (removeFirst config = true -> locate fs1 to <> [] -> endsWithDot to = false ->
      tree fs2 !! locate fs1 to = None \/
      (tree fs2 !! locate fs1 to = Some NDir /\
       has_children (tree fs2) (locate fs1 to) = true))) /\
  (forall fs' i f,
     run = (Ok tt, fs') -> files !! i = Some f ->
     (forall j g, i < j -> files !! j = Some g -> destination g <> destination f) ->
     exists data, body f = Ok data /\
       tree fs' !! destination f = Some (NFile data (attr_perm f)) /\
       lookup_node (tree fs') (parent (destination f)) = Some NDir) /\
  (forall k data perm,
     tree (snd run) !! k = Some (NFile data perm) ->
     tree fs !! k <> Some (NFile data perm) ->
     exists f, f ∈ files /\ k = destination f).
Proof.
  cbn zeta. split; [| split; [| split; [| split; [| split]]]].
  - intros f. rewrite list_elem_of_filter, selected_iff. tauto.
  - rewrite collect_selects_by_prefix, union_empty_r_L, app_nil_l. reflexivity.
  - unfold zipReplicator_Replicate.
    rewrite Hopen, collect_selects_by_prefix, union_empty_r_L, app_nil_l.
    reflexivity.
  - intros to fs1 fs2 Hs1 Hprep. split.
    + intros Hne. exact (replicatePrepare_makes_parent to config fs1 fs2 Hs1 Hprep Hne).
    + intros Hrm Hroot Hdot.
      exact (replicatePrepare_never_makes_destination to config fs1 fs2
               Hrm Hroot Hdot Hprep).
  - intros fs' i f Hrun Hi Hlater.
    exact (zip_mode_extracts_every_selected_file src dst config entries fs fs' i f
             Hopen Hlinks Hrun Hi Hlater).
  - intros k data perm Hafter Hbefore.
    destruct (zip_mode_footprint src dst config entries fs Hopen Hlinks k)
      as [E | [((f & Hf & Hsel & Hdir & ->) & _) | [[Hn | Hd] _]]]; try congruence.
    exists f. split; [| reflexivity].
    apply list_elem_of_filter. split; [exact Hdir |].
    apply list_elem_of_filter. split; [exact Hsel | exact Hf].
Qed.


End ReplicateFacts.

(* ===================================================================== *)
(** * The programs on concrete inputs *)
(* ===================================================================== *)

Section Evaluations.

Import Provision Builders os Notions Scenario.

(** C2, as stated, fails. For an archive holding the directory entry
    pkg/include/ and the file src/fmt/print.go, filtered by src and
    pkg/include, both entries are selected and the recorded directories are
    pkg/include/ and src/fmt. The loop over the recorded directories makes
    only the directory above each of them (/out/pkg, /out/src): when
    extraction starts neither /out/pkg/include nor /out/src/fmt exists.
    Extraction makes /out/src/fmt itself before writing print.go, and
    /out/pkg/include does not exist when the call has returned. This holds
    for both orders of visiting the recorded directories. *)
Lemma zip_directory_loop_makes_parents_only :
  let config := configure (from_zip ["src"; "pkg/include"] "sdk.zip") in
  collect (paths config) sdk_archive ∅ [] = ({[ "pkg/include/"; "src/fmt" ]}, [print_go]) /\
  Forall (fun order : gset string -> list string =>
    let after_dirs :=
      prepare_dirs order "/out" config {[ "pkg/include/"; "src/fmt" ]} empty_disk in
    let done :=
      replicate archives order "/sdk" "/out" (from_zip ["src"; "pkg/include"] "sdk.zip")
        empty_disk in
    fst after_dirs = Ok tt /\
    tree (snd after_dirs) !! ["out"; "pkg"] = Some NDir /\
    tree (snd after_dirs) !! ["out"; "src"] = Some NDir /\
    tree (snd after_dirs) !! ["out"; "pkg"; "include"] = None /\
    tree (snd after_dirs) !! ["out"; "src"; "fmt"] = None /\
    fst done = Ok tt /\
    tree (snd done) !! ["out"; "src"; "fmt"; "print.go"] = Some (NFile "package fmt" 420) /\
    tree (snd done) !! ["out"; "pkg"; "include"] = None)
  [ascending; descending].
Proof.
  split; [vm_compute; reflexivity |].
  repeat constructor; vm_compute; reflexivity.
Qed.

(** C3, on the code. The SDK changes shape between two calls with the
    same arguments under the default configuration (removeFirst is true):
    old.go goes and new.go comes. With the SDK in an archive, the second call
    leaves old.go of the first call in place beside new.go (one directory,
    src, is recorded, so there is one order of visiting). With the SDK as a
    directory tree, the file-system replicator removes /out first and leaves
    only new.go. *)
Theorem zip_mode_keeps_files_of_earlier_replication :
  let first := replicate archives_before ascending "/sdk" "/out"
                 (from_zip ["src"] "sdk.zip") empty_disk in
  let second := replicate archives_after ascending "/sdk" "/out"
                  (from_zip ["src"] "sdk.zip") (snd first) in
  let disk_first := replicate archives ascending "/sdk" "/out" [] sdk_tree in
  let disk_second := replicate archives ascending "/sdk" "/out" []
                       (reshape_sdk (snd disk_first)) in
  removeFirst (configure (from_zip ["src"] "sdk.zip")) = true /\
  fst first = Ok tt /\ fst second = Ok tt /\
  tree (snd first) !! ["out"; "src"; "old.go"] = Some (NFile "old" 420) /\
  tree (snd second) !! ["out"; "src"; "new.go"] = Some (NFile "new" 420) /\
  tree (snd second) !! ["out"; "src"; "old.go"] = Some (NFile "old" 420) /\
  fst disk_first = Ok tt /\ fst disk_second = Ok tt /\
  tree (snd disk_first) !! ["out"; "src"; "old.go"] = Some (NFile "old" 420) /\
  tree (snd disk_second) !! ["out"; "src"; "new.go"] = Some (NFile "new" 420) /\
  tree (snd disk_second) !! ["out"; "src"; "old.go"] = None.
Proof. vm_compute. repeat split; reflexivity. Qed.

(** Two calls with the same arguments on the same archive and the same
    empty destination end in different trees when [range] visits the two
    recorded directories in different orders. *)
Lemma zip_mode_result_depends_on_range_order :
  let run order :=
    replicate archives order "/sdk" "/out" (from_zip ["a"] "nested.zip") empty_disk in
  fst (run ascending) = Ok tt /\ fst (run descending) = Ok tt /\
  tree (snd (run ascending)) !! ["out"; "a"] = Some NDir /\
  tree (snd (run descending)) !! ["out"; "a"] = None.
Proof. vm_compute. repeat split; reflexivity. Qed.

(** C8, as stated, fails: with the work directory not to be preserved, the
    cleanup handed out by the second call of [workDir] leaves the directory
    in place. *)
Lemma workDir_later_cleanup_removes_nothing :
  let '(first, e1, p1) := workDir demo_env demo_process in
  let '(second, e2, p2) := workDir e1 p1 in
  shouldPreserveWorkDir e2 = false /\
  first = ("/tmp/rules_go_work-123456789", cleanup_RemoveAll, None) /\
  second = ("/tmp/rules_go_work-123456789", cleanup_nothing, None) /\
  tree (fsys (call_cleanup (snd (fst second)) e2 p2))
    !! ["tmp"; "rules_go_work-123456789"] = Some NDir.
Proof. vm_compute. repeat split; reflexivity. Qed.

(** The file-system replicator with no filter, on a tree of two levels:
    every file of the tree is at the destination with its bytes and
    permission bits, and what was at the destination before is gone. *)
Example filesystem_mode_without_filters_copies_tree :
  let disk :=
    mkFs [] {[ ["sdk"] := NDir; ["sdk"; "VERSION"] := NFile "go1.12" 292;
               ["sdk"; "src"] := NDir; ["sdk"; "src"; "fmt"] := NDir;
               ["sdk"; "src"; "fmt"; "print.go"] := NFile "package fmt" 420;
               ["out"] := NDir; ["out"; "stale"] := NFile "x" 420 ]} in
  let done := replicate archives ascending "/sdk" "/out" [] disk in
  fst done = Ok tt /\
  tree (snd done) !! ["out"; "VERSION"] = Some (NFile "go1.12" 292) /\
  tree (snd done) !! ["out"; "src"; "fmt"; "print.go"] = Some (NFile "package fmt" 420) /\
  tree (snd done) !! ["out"; "stale"] = None.
Proof. vm_compute. repeat split; reflexivity. Qed.

End Evaluations.

(* ===================================================================== *)
(** * The theorems at concrete inputs *)
(* ===================================================================== *)

Section Instances.

Import Provision Builders os Notions Scenario.

(** Packaging on a context with a zipper: the two actions and their
    arguments in full. *)
Lemma zipper_packages_sdk_inputs_witness :
  go_zipper demo_go = Some demo_zipper /\
  exists packaging build,
    snd (_build_stdlib (fun _ => ["-linkmode=normal"]) (fun _ => ["-lpthread"])
           out_file out_file (fun name => mkFile ("bazel-out/" +:+ name) "bazel-out")
           (fun _ command => [command]) demo_go) =
      [ActWrite (mkFile "bazel-out/stdlib/ROOT" "bazel-out/stdlib") "";
       ActRun packaging; ActRun build] /\
    run_mnemonic packaging = "GoStdlibZip" /\
    run_executable packaging = demo_zipper /\
    run_inputs packaging =
      [mkFile "external/go_sdk/src/fmt/print.go" "external/go_sdk/src/fmt";
       mkFile "external/go_sdk/pkg/include/textflag.h" "external/go_sdk/pkg/include";
       mkFile "external/go_sdk/pkg/tool/linux_amd64/compile"
         "external/go_sdk/pkg/tool/linux_amd64";
       mkFile "external/go_sdk/bin/go" "external/go_sdk/bin";
       mkFile "external/go_sdk/ROOT" "external/go_sdk"] /\
    run_outputs packaging = [mkFile "bazel-out/sdk.zip" "bazel-out"] /\
    run_arguments packaging =
      ["cC"; "bazel-out/sdk.zip";
       "src/fmt/print.go=external/go_sdk/src/fmt/print.go";
       "pkg/include/textflag.h=external/go_sdk/pkg/include/textflag.h";
       "pkg/tool/linux_amd64/compile=external/go_sdk/pkg/tool/linux_amd64/compile";
       "bin/go=external/go_sdk/bin/go";
       "ROOT=external/go_sdk/ROOT"] /\
    run_mnemonic build = "GoStdlib" /\
    run_inputs build =
      [mkFile "bazel-out/sdk.zip" "bazel-out";
       mkFile "external/local_cc/gcc" "external/local_cc";
       mkFile "external/go_sdk/packages.txt" "external/go_sdk"] /\
    run_arguments build =
      ["stdlib"; "-out"; "bazel-out/stdlib"; "-linkmode=normal";
       "-sdkzip"; "bazel-out/sdk.zip"] /\
    (_should_use_sdk_stdlib "normal" demo_go = false ->
     snd (_stdlib_library_to_source "normal" (fun _ => ["-linkmode=normal"])
            (fun _ => ["-lpthread"]) out_file out_file
            (fun name => mkFile ("bazel-out/" +:+ name) "bazel-out")
            (fun _ command => [command]) demo_go) =
     snd (_build_stdlib (fun _ => ["-linkmode=normal"]) (fun _ => ["-lpthread"])
            out_file out_file (fun name => mkFile ("bazel-out/" +:+ name) "bazel-out")
            (fun _ command => [command]) demo_go)).
Proof.
  split; [reflexivity |].
  exact (zipper_packages_sdk_inputs "normal" (fun _ => ["-linkmode=normal"])
           (fun _ => ["-lpthread"])
           out_file out_file (fun name => mkFile ("bazel-out/" +:+ name) "bazel-out")
           (fun _ command => [command]) demo_go demo_zipper eq_refl).
Defined.

(** The example of the specification with /work as working directory. *)
Lemma absArgs_absolutizes_flag_values_witness :
  filepath.IsAbs "/work" = true /\
  absArgs (Ok "/work") ["-I"; "rel/path"; "-Lrel2"; "__BAZEL_XCODE/foo"] ["-I"; "-L"] =
    ["-I"; "/work/rel/path"; "-L/work/rel2"; "__BAZEL_XCODE/foo"].
Proof.
  split; [reflexivity |].
  exact (proj2 (proj2
    (absArgs_absolutizes_flag_values "/work"
       ["-isystem=inc"; "--sysroot"; "__BAZEL_XCODE_SDKROOT__"; "-O2"]
       cgoAbsEnvFlags eq_refl))).
Defined.

(** One parameter file among three other arguments. *)
Lemma readParamsFiles_expands_in_place_witness :
  readParamsFiles ["-o"; "-param=file.txt"; "--"; "x"] params_fs =
    (Ok ["-o"; "-flag1"; "valueA"; "-flag2"; "valueB"; "--"; "x"], params_fs).
Proof.
  refine (proj1 (readParamsFiles_expands_in_place params_fs
                   ["-o"; "-param=file.txt"; "--"; "x"] (fun _ => params_text) _)).
  intros arg Hin Hp.
  repeat (apply elem_of_cons in Hin as [-> | Hin]); try discriminate Hp.
  - vm_compute. reflexivity.
  - apply elem_of_nil in Hin. destruct Hin.
Defined.

(** A first call that draws the suffix 123456789 in /tmp, a later call, and
    the cleanup of the first. *)
Lemma workDir_created_once_first_cleanup_removes_witness :
  workDir demo_env demo_process =
    (("/tmp/rules_go_work-123456789", cleanup_RemoveAll, None),
     set_workDirPath demo_env "/tmp/rules_go_work-123456789",
     mkProcess (mkFs [] {[ ["tmp"] := NDir; ["tmp"; "rules_go_work-123456789"] := NDir ]})
       "" [] []) /\
  (forall q, workDir (set_workDirPath demo_env "/tmp/rules_go_work-123456789") q =
             (("/tmp/rules_go_work-123456789", cleanup_nothing, None),
              set_workDirPath demo_env "/tmp/rules_go_work-123456789", q)) /\
  (forall q k,
     locate (fsys q) "/tmp/rules_go_work-123456789" `prefix_of` k ->
     tree (fsys (call_cleanup cleanup_RemoveAll
                   (set_workDirPath demo_env "/tmp/rules_go_work-123456789") q)) !! k = None).
Proof.
  assert (Hcall : workDir demo_env demo_process =
    (("/tmp/rules_go_work-123456789", cleanup_RemoveAll, None),
     set_workDirPath demo_env "/tmp/rules_go_work-123456789",
     mkProcess (mkFs [] {[ ["tmp"] := NDir; ["tmp"; "rules_go_work-123456789"] := NDir ]})
       "" [] [])) by (vm_compute; reflexivity).
  assert (Hdraws : Forall (fun s => is_decimal s = true) (suffixes demo_process))
    by (repeat constructor).
  pose proof (workDir_created_once_first_cleanup_removes demo_env demo_process _ _ _ _
                eq_refl Hdraws Hcall) as (_ & _ & _ & _ & Hlater & _ & _ & Hfirst).
  split; [exact Hcall |]. split; [exact Hlater |].
  exact (proj2 (Hfirst eq_refl)).
Defined.

(** Sorting the keys is one of the orders [range] may take. *)
Lemma ascending_permutes (s : gset string) : ascending s ≡ₚ elements s.
Proof. unfold ascending. apply merge_sort_Permutation. Qed.

Lemma empty_disk_no_symlinks : no_symlinks (tree empty_disk).
Proof. intros k target. cbn. rewrite lookup_empty. discriminate. Qed.

(** The SDK archive with its directory entry, filtered by src and
    pkg/include, into an empty disk: what is collected, and the extracted
    file in its directory. *)
Lemma zip_mode_selects_prepares_then_extracts_witness :
  archives "sdk.zip" = Ok sdk_archive /\
  collect ["src"; "pkg/include"] sdk_archive ∅ [] =
    ({[ "pkg/include/"; "src/fmt" ]}, [print_go]) /\
  exists fs',
    zipReplicator_Replicate archives ascending "/sdk" "/out"
      (configure (from_zip ["src"; "pkg/include"] "sdk.zip")) empty_disk = (Ok tt, fs') /\
    tree fs' !! ["out"; "src"; "fmt"; "print.go"] = Some (NFile "package fmt" 420) /\
    lookup_node (tree fs') ["out"; "src"; "fmt"] = Some NDir.
Proof.
  pose proof (zip_mode_selects_prepares_then_extracts archives ascending ascending_permutes
                "/sdk" "/out" (configure (from_zip ["src"; "pkg/include"] "sdk.zip"))
                sdk_archive empty_disk eq_refl empty_disk_no_symlinks)
    as (_ & Hcollect & _ & _ & Hfiles & _).
  split; [reflexivity |]. split; [vm_compute; reflexivity |].
  destruct (zipReplicator_Replicate archives ascending "/sdk" "/out"
              (configure (from_zip ["src"; "pkg/include"] "sdk.zip")) empty_disk)
    as [r fs'] eqn:Erun.
  assert (Hr : r = Ok tt).
  { apply (f_equal fst) in Erun. vm_compute in Erun. congruence. }
  subst r. exists fs'. split; [reflexivity |].
  destruct (Hfiles fs' 0 print_go eq_refl eq_refl) as (data & Hbody & Hfile & Hdir).
  { intros j g Hj Hg. destruct j as [|[|j]]; [lia | discriminate | discriminate]. }
  injection Hbody as <-. split; [exact Hfile | exact Hdir].
Defined.


End Instances.

(* ===================================================================== *)
(** * Paths: what cleaning keeps and where a path leads *)
(* ===================================================================== *)

Section PathFacts.

Import filepath os Builders Notions Shapes.

Lemma Split_pieces c s : Forall (fun x => free_of c x = true) (Split c s).
Proof.
  induction s as [|a s IH]; cbn [Split].
  - repeat constructor.
  - destruct (Ascii.eqb a c) eqn:E.
    + constructor; [reflexivity | exact IH].
    + destruct (Split c s) as [|h t]; [repeat constructor; cbn; rewrite E; reflexivity |].
      inversion IH as [|? ? Hh Ht]; subst. constructor; [| exact Ht].
      cbn. rewrite E, Hh. reflexivity.
Qed.

Lemma Split_concat els :
  els <> [] -> Forall (fun x => free_of Separator x = true) els ->
  Split Separator (String.concat "/" els) = els.
Proof.
  induction els as [|x els IH]; [congruence |].
  intros _ Hall. inversion Hall as [|? ? Hx Hels]; subst.
  destruct els as [|y els].
  - cbn [String.concat]. apply Split_free_of. exact Hx.
  - change (String.concat "/" (x :: y :: els))
      with (x +:+ String Separator (String.concat "/" (y :: els))).
    rewrite Split_app, (Split_free_of _ _ Hx), IH by (congruence || assumption).
    reflexivity.
Qed.

Lemma clean_step_kept rooted stack c :
  free_of Separator c = true -> kept rooted stack ->
  kept rooted (clean_step rooted stack c).
Proof.
  intros Hc Hk. unfold clean_step.
  destruct (String.eqb_spec c ""); [exact Hk |].
  destruct (String.eqb_spec c "."); [exact Hk |]. cbn [orb].
  destruct (String.eqb_spec c "..") as [-> | Hdd].
  - destruct stack as [|top rest].
    + destruct rooted; cbn; [exact I |].
      repeat split; try discriminate. constructor.
    + destruct (String.eqb_spec top "..") as [-> | Htop].
      * cbn [kept] in Hk |- *. destruct Hk as (Hf & H0 & H1 & Hd & Hrest).
        destruct (Hd eq_refl) as [Hr Hall].
        repeat split; try discriminate; try assumption.
        constructor; [reflexivity | exact Hall].
      * cbn [kept] in Hk. tauto.
  - cbn [kept]. repeat split; try assumption; contradiction.
Qed.

Lemma fold_clean_kept rooted l stack :
  Forall (fun x => free_of Separator x = true) l -> kept rooted stack ->
  kept rooted (fold_left (clean_step rooted) l stack).
Proof.
  revert stack. induction l as [|c l IH]; intros stack Hl Hk; [exact Hk |].
  inversion Hl; subst. cbn [fold_left]. apply IH; [assumption |].
  apply clean_step_kept; assumption.
Qed.

Lemma kept_elements rooted p : kept rooted (rev (elements_of rooted p)).
Proof.
  unfold elements_of. rewrite rev_involutive.
  apply fold_clean_kept; [apply Split_pieces | exact I].
Qed.

Lemma kept_free rooted stack :
  kept rooted stack -> Forall (fun x => free_of Separator x = true) stack.
Proof.
  induction stack as [|x rest IH]; [constructor |].
  cbn [kept]. intros (Hf & _ & _ & _ & Hrest). constructor; auto.
Qed.

(** Elements that [Clean] kept are kept again, as they are. *)
Lemma fold_clean_replay rooted els :
  kept rooted (rev els) -> fold_left (clean_step rooted) els [] = rev els.
Proof.
  induction els as [|x els IH] using rev_ind; [reflexivity |].
  rewrite rev_app_distr. cbn [rev app kept].
  intros (Hf & H0 & H1 & Hd & Hrest).
  rewrite fold_left_app, (IH Hrest). cbn [fold_left].
  unfold clean_step.
  destruct (String.eqb_spec x ""); [contradiction |].
  destruct (String.eqb_spec x "."); [contradiction |]. cbn [orb].
  destruct (String.eqb_spec x "..") as [-> | _]; [| reflexivity].
  destruct (Hd eq_refl) as [-> Hall].
  destruct (rev els) as [|top rest]; [reflexivity |].
  inversion Hall; subst. reflexivity.
Qed.

Lemma elem_of_rev {A} (x : A) (l : list A) : x ∈ rev l <-> x ∈ l.
Proof. rewrite !list_elem_of_In. symmetry. apply in_rev. Qed.

Lemma kept_elem rooted stack x :
  kept rooted stack -> x ∈ stack ->
  free_of Separator x = true /\ x <> "" /\ x <> ".".
Proof.
  induction stack as [|y rest IH]; [intros _ H; inversion H |].
  cbn [kept]. intros (Hf & H0 & H1 & _ & Hrest) [-> | Hin]%elem_of_cons; auto.
Qed.

Lemma IsAbs_free x : free_of Separator x = true -> IsAbs x = false.
Proof.
  destruct x as [|a x]; [reflexivity |]. cbn [free_of].
  intros [Ha _]%andb_true_iff. rewrite IsAbs_cons. apply negb_true_iff. exact Ha.
Qed.

Lemma IsAbs_app_nonempty p q : p <> "" -> IsAbs (p +:+ q) = IsAbs p.
Proof.
  destruct p as [|a p]; [congruence |]. intros _.
  rewrite string_app_cons, !IsAbs_cons. reflexivity.
Qed.

Lemma concat_cons_cons sep x y l :
  String.concat sep (x :: y :: l) = x +:+ sep +:+ String.concat sep (y :: l).
Proof. reflexivity. Qed.

Lemma concat_not_empty els :
  els <> [] -> Forall (fun x => x <> "") els -> String.concat "/" els <> "".
Proof.
  destruct els as [|x els]; [congruence |]. intros _ Hall.
  inversion Hall as [|? ? Hx _]; subst.
  destruct els as [|y els]; [exact Hx |].
  rewrite concat_cons_cons. destruct x; [congruence | discriminate].
Qed.

Lemma IsAbs_concat_kept els :
  els <> [] -> kept false (rev els) -> IsAbs (String.concat "/" els) = false.
Proof.
  destruct els as [|x els]; [congruence |]. intros _ Hk.
  destruct (kept_elem false (rev (x :: els)) x Hk) as (Hf & H0 & _).
  { apply elem_of_rev. apply elem_of_cons. auto. }
  destruct els as [|y els]; [exact (IsAbs_free x Hf) |].
  rewrite concat_cons_cons, IsAbs_app_nonempty by exact H0.
  exact (IsAbs_free x Hf).
Qed.

Lemma kept_not_empty rooted stack : kept rooted stack -> Forall (fun x => x <> "") stack.
Proof.
  intros Hk. apply Forall_forall. intros x Hin.
  exact (proj1 (proj2 (kept_elem rooted stack x Hk Hin))).
Qed.

(** The text [Clean] answers, from the elements it kept. *)
Lemma Clean_elements p :
  p <> "" ->
  Clean p = if IsAbs p then "/" +:+ String.concat "/" (elements_of true p)
            else match elements_of false p with
                 | [] => "."
                 | els => String.concat "/" els
                 end.
Proof.
  intros Hp. unfold Clean. destruct (String.eqb_spec p ""); [contradiction |].
  destruct (IsAbs p); [reflexivity |]. unfold Join_strings.
  pose proof (kept_elements false p) as Hk.
  destruct (elements_of false p) as [|x els] eqn:E; [reflexivity |].
  destruct (String.eqb_spec (String.concat "/" (x :: els)) "") as [Hc | _]; [| reflexivity].
  exfalso. revert Hc. apply concat_not_empty; [congruence |].
  apply kept_not_empty, Forall_rev in Hk.
  rewrite rev_involutive in Hk. exact Hk.
Qed.

Lemma Split_root s : Split Separator ("/" +:+ s) = "" :: Split Separator s.
Proof.
  change ("/" +:+ s) with ("" +:+ String Separator s). rewrite Split_app. reflexivity.
Qed.

Lemma elements_free rooted p :
  Forall (fun x => free_of Separator x = true) (elements_of rooted p).
Proof.
  pose proof (kept_elements rooted p) as Hk.
  apply kept_free, Forall_rev in Hk. rewrite rev_involutive in Hk. exact Hk.
Qed.

Lemma elements_replay rooted p :
  fold_left (clean_step rooted) (elements_of rooted p) [] = rev (elements_of rooted p).
Proof. apply fold_clean_replay, kept_elements. Qed.

Lemma IsAbs_Clean_eq p : IsAbs (Clean p) = IsAbs p.
Proof.
  destruct (String.eqb_spec p "") as [-> | Hp]; [reflexivity |].
  rewrite (Clean_elements p Hp). destruct (IsAbs p) eqn:Ha; [reflexivity |].
  pose proof (kept_elements false p) as Hk.
  destruct (elements_of false p) as [|x els] eqn:E; [reflexivity |].
  apply IsAbs_concat_kept; [congruence | exact Hk].
Qed.

(** Cleaning keeps the elements. *)
Lemma elements_of_Clean p :
  elements_of (IsAbs p) (Clean p) = elements_of (IsAbs p) p.
Proof.
  destruct (String.eqb_spec p "") as [-> | Hp]; [reflexivity |].
  rewrite (Clean_elements p Hp). destruct (IsAbs p) eqn:Ha.
  - pose proof (elements_free true p) as Hf.
    pose proof (elements_replay true p) as Hr.
    unfold elements_of at 1. rewrite Split_root.
    destruct (elements_of true p) as [|x els] eqn:E; [reflexivity |].
    rewrite Split_concat by (congruence || exact Hf).
    change (fold_left (clean_step true) ("" :: x :: els) [])
      with (fold_left (clean_step true) (x :: els) []).
    rewrite Hr. apply rev_involutive.
  - pose proof (elements_free false p) as Hf.
    pose proof (elements_replay false p) as Hr.
    destruct (elements_of false p) as [|x els] eqn:E; [reflexivity |].
    unfold elements_of. rewrite Split_concat by (congruence || exact Hf).
    rewrite Hr. apply rev_involutive.
Qed.

Lemma Clean_idempotent p : Clean (Clean p) = Clean p.
Proof.
  destruct (String.eqb_spec p "") as [-> | Hp]; [reflexivity |].
  rewrite (Clean_elements (Clean p) (Clean_not_empty p)).
  rewrite IsAbs_Clean_eq, (Clean_elements p Hp).
  destruct (IsAbs p) eqn:Ha.
  - pose proof (elements_of_Clean p) as H. rewrite Ha, (Clean_elements p Hp), Ha in H.
    rewrite H. reflexivity.
  - pose proof (elements_of_Clean p) as H. rewrite Ha, (Clean_elements p Hp), Ha in H.
    rewrite H. reflexivity.
Qed.

(** ** Where a path leads *)

Lemma clean_step_keep rooted stack c :
  c <> "" -> c <> "." -> c <> ".." -> clean_step rooted stack c = c :: stack.
Proof.
  intros H0 H1 H2. unfold clean_step.
  destruct (String.eqb_spec c ""); [contradiction |].
  destruct (String.eqb_spec c "."); [contradiction |].
  destruct (String.eqb_spec c ".."); [contradiction |].
  reflexivity.
Qed.

Lemma resolve_step st c s0 :
  kept false st ->
  fold_left (clean_step true) (rev (clean_step false st c)) s0 =
  clean_step true (fold_left (clean_step true) (rev st) s0) c.
Proof.
  intros Hk.
  destruct (String.eqb_spec c "") as [-> | H0]; [reflexivity |].
  destruct (String.eqb_spec c ".") as [-> | H1]; [reflexivity |].
  destruct (String.eqb_spec c "..") as [-> | H2].
  - destruct st as [|top rest]; [reflexivity |].
    change (clean_step false (top :: rest) "..")
      with (if String.eqb top ".." then ".." :: top :: rest else rest).
    destruct (String.eqb_spec top "..") as [-> | Htop].
    + cbn [rev]. rewrite !fold_left_app. reflexivity.
    + cbn [rev]. rewrite fold_left_app. cbn [fold_left].
      cbn [kept] in Hk. destruct Hk as (_ & Ht0 & Ht1 & _).
      rewrite (clean_step_keep true _ top Ht0 Ht1 Htop).
      change (clean_step true (top :: ?X) "..")
        with (if String.eqb top ".." then ".." :: top :: X else X).
      destruct (String.eqb_spec top ".."); [contradiction | reflexivity].
  - rewrite (clean_step_keep false st c H0 H1 H2). cbn [rev].
    rewrite fold_left_app. reflexivity.
Qed.

Lemma resolve_relative l st s0 :
  Forall (fun x => free_of Separator x = true) l -> kept false st ->
  fold_left (clean_step true) (rev (fold_left (clean_step false) l st)) s0 =
  fold_left (clean_step true) l (fold_left (clean_step true) (rev st) s0).
Proof.
  revert st. induction l as [|c l IH]; intros st Hl Hk; [reflexivity |].
  inversion Hl; subst. cbn [fold_left].
  rewrite IH by (assumption || apply clean_step_kept; assumption).
  rewrite resolve_step by exact Hk. reflexivity.
Qed.

(** A path leads where its cleaned elements lead. *)
Lemma locate_elements fs p :
  locate fs p =
  rev (fold_left (clean_step true) (elements_of (IsAbs p) p)
         (if IsAbs p then [] else rev (cwd fs))).
Proof.
  unfold locate. f_equal. destruct (IsAbs p).
  - rewrite elements_replay. unfold elements_of. rewrite rev_involutive. reflexivity.
  - unfold elements_of.
    rewrite resolve_relative by (apply Split_pieces || exact I). reflexivity.
Qed.

Lemma locate_Clean fs p : locate fs (Clean p) = locate fs p.
Proof.
  rewrite (locate_elements fs (Clean p)), (locate_elements fs p).
  rewrite IsAbs_Clean_eq, elements_of_Clean. reflexivity.
Qed.

Lemma locate_empty fs : locate fs "" = cwd fs.
Proof. unfold locate. cbn. apply rev_involutive. Qed.

Lemma locate_app fs a b :
  a <> "" ->
  locate fs (a +:+ String Separator b) =
  rev (fold_left (clean_step true) (Split Separator b) (rev (locate fs a))).
Proof.
  intros Ha. unfold locate. rewrite IsAbs_app_nonempty by exact Ha.
  rewrite Split_app, fold_left_app, rev_involutive. reflexivity.
Qed.

Lemma locate_Join fs a b :
  a <> "" ->
  locate fs (Join [a; b]) =
  rev (fold_left (clean_step true) (Split Separator b) (rev (locate fs a))).
Proof.
  intros Ha. rewrite (Join_two a b Ha), locate_Clean. apply locate_app. exact Ha.
Qed.

Lemma fold_plain names stack :
  Forall plain_element names ->
  fold_left (clean_step true) names stack = rev names ++ stack.
Proof.
  revert stack. induction names as [|n names IH]; intros stack Hall; [reflexivity |].
  inversion Hall; subst. cbn [fold_left rev].
  rewrite clean_step_plain by assumption. rewrite IH by assumption.
  rewrite <- app_assoc. reflexivity.
Qed.

Lemma plain_free names :
  Forall plain_element names -> Forall (fun x => free_of Separator x = true) names.
Proof. intros H. eapply Forall_impl; [exact H |]. intros x Hx. exact (proj1 Hx). Qed.

Lemma plain_not_empty names :
  Forall plain_element names -> Forall (fun x => x <> "") names.
Proof.
  intros H. eapply Forall_impl; [exact H |]. intros x Hx. exact (proj1 (proj2 Hx)).
Qed.

Lemma locate_names fs names :
  names <> [] -> Forall plain_element names ->
  locate fs (String.concat "/" names) = cwd fs ++ names.
Proof.
  intros Hne Hall. unfold locate.
  assert (Habs : IsAbs (String.concat "/" names) = false).
  { destruct names as [|x names]; [congruence |].
    inversion Hall as [|? ? Hx _]; subst.
    destruct names as [|y names]; [exact (IsAbs_free x (proj1 Hx)) |].
    rewrite concat_cons_cons, IsAbs_app_nonempty by exact (proj1 (proj2 Hx)).
    exact (IsAbs_free x (proj1 Hx)). }
  rewrite Habs, Split_concat by (assumption || apply plain_free; assumption).
  rewrite fold_plain by assumption.
  rewrite rev_app_distr, !rev_involutive. reflexivity.
Qed.

(** Joining plain names to a path leads below where the path leads. *)
Lemma locate_Join_names fs a names :
  names <> [] -> Forall plain_element names ->
  locate fs (Join [a; String.concat "/" names]) = locate fs a ++ names.
Proof.
  intros Hne Hall.
  destruct (String.eqb_spec a "") as [-> | Ha].
  - assert (Hc : String.concat "/" names <> "").
    { apply concat_not_empty; [exact Hne | apply plain_not_empty; exact Hall]. }
    cbn [Join String.eqb].
    destruct (String.eqb_spec (String.concat "/" names) ""); [contradiction |].
    unfold Join_strings. cbn [String.concat].
    rewrite locate_Clean, locate_empty. apply locate_names; assumption.
  - rewrite (locate_Join fs a _ Ha).
    rewrite Split_concat by (assumption || apply plain_free; assumption).
    rewrite fold_plain by assumption.
    rewrite rev_app_distr, !rev_involutive. reflexivity.
Qed.

Lemma locate_Join_name fs a n :
  plain_element n -> locate fs (Join [a; n]) = locate fs a ++ [n].
Proof.
  intros Hn.
  apply (locate_Join_names fs a [n]); [congruence |].
  constructor; [exact Hn | constructor].
Qed.

(** ** The directory of a path *)

Lemma upto_last_separator_spec p :
  (free_of Separator p = true /\ upto_last_separator p = "") \/
  (exists q n, p = q +:+ String Separator n /\ free_of Separator n = true /\
               upto_last_separator p = q +:+ String Separator "").
Proof.
  induction p as [|a s IH]; [left; auto |].
  cbn [upto_last_separator].
  destruct IH as [[Hf Hu] | (q & n & Hp & Hn & Hu)]; rewrite Hu.
  - cbn [String.eqb]. destruct (Ascii.eqb a Separator) eqn:E.
    + right. apply Ascii.eqb_eq in E. subst a. exists "", s. auto.
    + left. cbn [free_of]. rewrite E, Hf. auto.
  - right. destruct (String.eqb_spec (q +:+ String Separator "") "") as [Hq | _].
    { destruct q; discriminate. }
    exists (String a q), n. rewrite Hp. auto.
Qed.

Lemma IsAbs_app_sep q b :
  IsAbs (q +:+ String Separator b) = IsAbs (q +:+ String Separator "").
Proof. destruct q as [|a q]; [reflexivity |]. rewrite !string_app_cons, !IsAbs_cons. reflexivity. Qed.

Lemma locate_sep fs q b :
  locate fs (q +:+ String Separator b) =
  rev (fold_left (clean_step true) (Split Separator b)
         (fold_left (clean_step true) (Split Separator q)
            (if IsAbs (q +:+ String Separator "") then [] else rev (cwd fs)))).
Proof.
  unfold locate. rewrite Split_app, fold_left_app, IsAbs_app_sep. reflexivity.
Qed.

(** A path that ends in a plain name leads to that name in the directory
    of the path. *)
Lemma locate_Dir_name fs p n :
  last (Split Separator p) = Some n -> plain_element n ->
  locate fs p = locate fs (Dir p) ++ [n].
Proof.
  intros Hlast Hn. unfold Dir. rewrite locate_Clean.
  destruct (upto_last_separator_spec p) as [[Hf Hu] | (q & n0 & Hp & Hn0 & Hu)]; rewrite Hu.
  - rewrite (Split_free_of _ _ Hf) in Hlast. injection Hlast as <-.
    rewrite locate_empty. unfold locate.
    rewrite (IsAbs_free p Hf), (Split_free_of _ _ Hf). cbn [fold_left].
    rewrite (clean_step_plain _ _ _ Hn). cbn [rev].
    rewrite rev_involutive. reflexivity.
  - subst p. rewrite last_Split_after_separator, (Split_free_of _ _ Hn0) in Hlast.
    injection Hlast as <-.
    rewrite !locate_sep, (Split_free_of _ _ Hn0). cbn [Split fold_left].
    rewrite (clean_step_plain _ _ _ Hn). reflexivity.
Qed.

Lemma locate_Dir fs p n :
  last (Split Separator p) = Some n -> plain_element n ->
  locate fs (Dir p) = parent (locate fs p).
Proof.
  intros Hlast Hn. rewrite (locate_Dir_name fs p n Hlast Hn).
  unfold parent. rewrite removelast_last. reflexivity.
Qed.

(** ** Paths below a base, as [filepath.Walk] builds them *)

Lemma tracks_base p : tracks (Clean p) [] (Clean p).
Proof.
  split; [apply Clean_idempotent |]. split; [reflexivity |].
  rewrite app_nil_r. reflexivity.
Qed.

Lemma tracks_Join base names path n :
  plain_element n -> tracks base names path ->
  tracks base (names ++ [n]) (Join [path; n]).
Proof.
  intros Hn (Hc & Ha & He).
  assert (Hp : path <> "") by (rewrite <- Hc; apply Clean_not_empty).
  rewrite (Join_two path n Hp).
  assert (Hx : IsAbs (path +:+ String Separator n) = IsAbs base).
  { rewrite IsAbs_app_nonempty by exact Hp. exact Ha. }
  split; [apply Clean_idempotent |].
  split; [rewrite IsAbs_Clean_eq; exact Hx |].
  rewrite <- Hx at 1. rewrite elements_of_Clean, Hx.
  rewrite elements_of_snoc by exact Hn. rewrite He, <- app_assoc. reflexivity.
Qed.

Lemma strip_common_app b t : strip_common b (b ++ t) = ([], t).
Proof.
  induction b as [|x b IH]; [destruct t; reflexivity |].
  cbn [app strip_common]. rewrite String.eqb_refl. exact IH.
Qed.

Lemma tracks_Rel base names path :
  Clean base = base -> names <> [] -> tracks base names path ->
  Rel base path = Ok (String.concat "/" names).
Proof.
  intros Hb Hne (Hc & Ha & He). unfold Rel. rewrite Hb, Hc.
  destruct (String.eqb_spec path base) as [-> | _].
  { exfalso. apply Hne.
    apply (app_inv_head (elements_of (IsAbs base) base)). rewrite app_nil_r.
    symmetry. exact He. }
  rewrite Ha, Bool.eqb_reflx. cbn [negb].
  assert (Hbase : (if String.eqb base "." then [] else elements_of (IsAbs base) base)
                  = elements_of (IsAbs base) base).
  { destruct (String.eqb_spec base ".") as [-> | _]; reflexivity. }
  rewrite Hbase, He, strip_common_app. reflexivity.
Qed.

Lemma tracks_locate fs base names path :
  Forall plain_element names -> tracks base names path ->
  locate fs path = locate fs base ++ names.
Proof.
  intros Hall (Hc & Ha & He).
  rewrite (locate_elements fs path), (locate_elements fs base), Ha, He.
  rewrite fold_left_app, fold_plain by exact Hall.
  rewrite rev_app_distr, rev_involutive. reflexivity.
Qed.

End PathFacts.

Section SearchFacts.

Import filepath os Builders Notions Shapes.

(** ** The lookup of the kernel *)

(** The lookup of a path in two parts. *)
Lemma search_app t cur l1 l2 :
  search t cur (l1 ++ l2) =
  match search t cur l1 with
  | Some c => search t c l2
  | None => None
  end.
Proof.
  revert cur. induction l1 as [|e l1 IH]; intros cur; [reflexivity |].
  cbn [app search]. destruct (lookup_node t cur) as [[| |]|]; try reflexivity.
  destruct (String.eqb e "" || String.eqb e "."); [apply IH |].
  destruct (String.eqb e ".."); apply IH.
Qed.

(** One step of the lookup, from a directory. *)
Lemma search_one t cur e :
  search t cur [e] =
  match lookup_node t cur with
  | Some NDir =>
      Some (if String.eqb e "" || String.eqb e "." then cur
            else if String.eqb e ".." then parent cur else cur ++ [e])
  | _ => None
  end.
Proof.
  cbn [search]. destruct (lookup_node t cur) as [[| |]|]; try reflexivity.
  destruct (String.eqb e "" || String.eqb e "."); [reflexivity |].
  destruct (String.eqb e ".."); reflexivity.
Qed.

Lemma search_snoc t c l e cur :
  search t c l = Some cur ->
  search t c (l ++ [e]) = search t cur [e].
Proof. intros H. rewrite search_app, H. reflexivity. Qed.

(** The lookup arrives at the same place along the elements [Clean] keeps:
    what [Clean] leaves out was passed through directories. *)
Lemma search_clean_from t rooted c els stack cur k :
  (rooted = true -> c = []) ->
  Forall (fun x => free_of Separator x = true) els ->
  kept rooted stack ->
  search t c (rev stack) = Some cur ->
  search t cur els = Some k ->
  search t c (rev (fold_left (clean_step rooted) els stack)) = Some k.
Proof.
  intros Hroot. revert stack cur.
  induction els as [|e els IH]; intros stack cur Hfree Hkept Hst Hk.
  - cbn in *. congruence.
  - inversion Hfree as [|? ? He Hels]; subst.
    cbn [fold_left]. cbn [search] in Hk.
    destruct (lookup_node t cur) as [[| |]|] eqn:Hcur; try discriminate.
    assert (Hkept' := clean_step_kept rooted stack e He Hkept).
    destruct (String.eqb e "" || String.eqb e ".") eqn:Hdot.
    + unfold clean_step. rewrite Hdot. apply (IH stack cur); assumption.
    + destruct (String.eqb_spec e "..") as [-> | Hup].
      * apply (IH _ (parent cur)); [assumption | assumption | | assumption].
        assert (Hstep : clean_step rooted stack ".." =
                        match stack with
                        | top :: rest => if String.eqb top ".." then ".." :: stack else rest
                        | [] => if rooted then [] else [".."]
                        end) by reflexivity.
        rewrite Hstep. clear Hstep.
        destruct stack as [|top rest].
        -- cbn in Hst. injection Hst as <-.
           destruct rooted.
           ++ rewrite (Hroot eq_refl). reflexivity.
           ++ cbn [rev app]. rewrite search_one, Hcur. reflexivity.
        -- destruct (String.eqb_spec top "..") as [-> | Htop].
           ++ change (rev (".." :: ".." :: rest)) with (rev (".." :: rest) ++ [".."]).
              rewrite (search_snoc _ _ _ _ _ Hst), search_one, Hcur. reflexivity.
           ++ cbn [rev] in Hst. rewrite search_app in Hst.
              destruct (search t c (rev rest)) as [x|] eqn:Hx; [| discriminate].
              rewrite search_one in Hst.
              destruct (lookup_node t x) as [[| |]|]; try discriminate.
              destruct Hkept as (_ & Hne & Hnd & _ & _).
              destruct (String.eqb_spec top ""); [contradiction |].
              destruct (String.eqb_spec top "."); [contradiction |].
              destruct (String.eqb_spec top ".."); [contradiction |].
              cbn [orb] in Hst. injection Hst as <-.
              unfold parent. rewrite removelast_last. reflexivity.
      * apply (IH _ (cur ++ [e])); [assumption | assumption | | assumption].
        assert (Hstep : clean_step rooted stack e = e :: stack).
        { unfold clean_step. rewrite Hdot.
          destruct (String.eqb_spec e ".."); [contradiction | reflexivity]. }
        rewrite Hstep. cbn [rev].
        rewrite (search_snoc _ _ _ _ _ Hst), search_one, Hcur, Hdot.
        destruct (String.eqb_spec e ".."); [contradiction | reflexivity].
Qed.

Lemma search_elements t rooted c p k :
  (rooted = true -> c = []) ->
  search t c (Split Separator p) = Some k ->
  search t c (elements_of rooted p) = Some k.
Proof.
  intros Hroot Hk. unfold elements_of.
  apply (search_clean_from t rooted c _ [] c); [exact Hroot | apply Split_pieces | exact I | reflexivity | exact Hk].
Qed.

(** The lookup starts in a directory. *)
Lemma search_starts_in_directory t c els k :
  els <> [] -> search t c els = Some k -> lookup_node t c = Some NDir.
Proof.
  intros Hne Hk. destruct els as [|e els]; [contradiction |].
  cbn [search] in Hk. destruct (lookup_node t c) as [[| |]|]; try discriminate.
  reflexivity.
Qed.

(** A path and its clean form name the same place. *)
Lemma reaches_Clean fs p k : reaches fs p = Some k -> reaches fs (Clean p) = Some k.
Proof.
  unfold reaches. destruct (String.eqb_spec p "") as [-> | Hp]; [discriminate |].
  intros Hk.
  destruct (String.eqb_spec (Clean p) "") as [E | _].
  { exfalso. exact (Clean_not_empty p E). }
  rewrite IsAbs_Clean_eq.
  assert (Hdir := search_starts_in_directory _ _ _ _ (Split_not_nil _ _) Hk).
  rewrite (Clean_elements p Hp).
  destruct (IsAbs p) eqn:Habs.
  - apply (search_elements _ true) in Hk; [| reflexivity].
    rewrite Split_root. cbn [search]. rewrite Hdir. cbn [String.eqb orb].
    destruct (elements_of true p) as [|x els] eqn:Hels.
    + cbn in Hk |- *. exact Hk.
    + rewrite Split_concat; [exact Hk | discriminate |].
      rewrite <- Hels. apply elements_free.
  - apply (search_elements _ false) in Hk; [| discriminate].
    destruct (elements_of false p) as [|x els] eqn:Hels.
    + cbn in Hk. injection Hk as <-. cbn. rewrite Hdir. reflexivity.
    + rewrite Split_concat; [exact Hk | discriminate |].
      rewrite <- Hels. apply elements_free.
Qed.

(** Where the lookup arrives is where the path leads by its text. *)
Lemma search_textual t c els k :
  ".." ∉ c -> search t c els = Some k ->
  k = rev (fold_left (clean_step true) els (rev c)).
Proof.
  revert c. induction els as [|e els IH]; intros c Hc Hk.
  - cbn in *. rewrite rev_involutive. congruence.
  - cbn [search] in Hk. destruct (lookup_node t c) as [[| |]|]; try discriminate.
    cbn [fold_left].
    destruct (String.eqb e "" || String.eqb e ".") eqn:Hdot.
    + unfold clean_step at 2. rewrite Hdot. apply IH; assumption.
    + destruct (String.eqb_spec e "..") as [-> | Hup].
      * destruct (rev c) as [|top rest] eqn:Hrev;
          apply (f_equal (@rev _)) in Hrev; rewrite rev_involutive in Hrev; subst c.
        -- apply (IH []) in Hk; [exact Hk | exact Hc].
        -- cbn [rev] in Hk, Hc. unfold parent in Hk. rewrite removelast_last in Hk.
           rewrite elem_of_app, list_elem_of_singleton in Hc.
           apply IH in Hk; [| intros Hin; apply Hc; left; exact Hin].
           rewrite rev_involutive in Hk.
           assert (Hstep : clean_step true (top :: rest) ".." =
                           if String.eqb top ".." then ".." :: top :: rest else rest)
             by reflexivity.
           rewrite Hstep. destruct (String.eqb_spec top "..") as [-> | _]; [| exact Hk].
           exfalso. apply Hc. right. reflexivity.
      * assert (Hstep : clean_step true (rev c) e = e :: rev c).
        { unfold clean_step. rewrite Hdot.
          destruct (String.eqb_spec e ".."); [contradiction | reflexivity]. }
        rewrite Hstep. apply IH in Hk.
        -- rewrite Hk, rev_app_distr. reflexivity.
        -- rewrite elem_of_app, list_elem_of_singleton. intros [Hin | E]; [exact (Hc Hin) |].
           apply Hup. symmetry. exact E.
Qed.

(** Where the kernel finds a place for a path by passing directories only,
    it is the place the path leads to by its text. *)
Lemma reaches_locate fs p k :
  ".." ∉ cwd fs -> reaches fs p = Some k -> locate fs p = k.
Proof.
  unfold reaches, locate. destruct (String.eqb p ""); [discriminate |].
  intros Hc Hk. destruct (IsAbs p).
  - apply search_textual in Hk; [| apply not_elem_of_nil]. symmetry. exact Hk.
  - apply search_textual in Hk; [| exact Hc]. symmetry. exact Hk.
Qed.

End SearchFacts.

(* ===================================================================== *)
(** * Copying in the file system *)
(* ===================================================================== *)

Section CopyFacts.

Import filepath os Builders Notions Shapes.

Lemma lookup_node_ne t k : k <> [] -> lookup_node t k = t !! k.
Proof. destruct k; [congruence | reflexivity]. Qed.

Lemma on_path_next (done : location) c todo k :
  done `prefix_of` k -> k `prefix_of` (done ++ c :: todo) -> k <> done ->
  (done ++ [c]) `prefix_of` k.
Proof.
  intros [a ->] [b Hb] Hne. rewrite <- app_assoc in Hb. apply app_inv_head in Hb.
  destruct a as [|x a]; [rewrite app_nil_r in Hne; congruence |].
  cbn in Hb. injection Hb as -> ->. exists a. rewrite <- app_assoc. reflexivity.
Qed.

Lemma prefix_snoc_ne (done : location) c k : (done ++ [c]) `prefix_of` k -> k <> done.
Proof.
  intros [a ->] H. apply (f_equal List.length) in H.
  rewrite !length_app in H. cbn in H. lia.
Qed.

Lemma prefix_snoc_l (done : location) c k : (done ++ [c]) `prefix_of` k -> done `prefix_of` k.
Proof. intros [a ->]. exists ([c] ++ a). rewrite <- app_assoc. reflexivity. Qed.

(** [MkdirAll] succeeds when nothing but directories is in the way. *)
Lemma mkdir_all_ok t done todo :
  no_symlinks t ->
  (forall k, done `prefix_of` k -> k `prefix_of` (done ++ todo) -> k <> done ->
     t !! k = None \/ t !! k = Some NDir) ->
  exists t', mkdir_all t done todo = (Ok tt, t') /\ no_symlinks t' /\
             made_dirs t done (done ++ todo) t'.
Proof.
  revert t done. induction todo as [|c todo IH]; intros t done Hs Hway.
  - exists t. split; [reflexivity |]. split; [exact Hs |].
    rewrite app_nil_r. repeat split; auto.
    intros k H1 H2 Hne. exfalso. apply Hne. apply (anti_symm prefix); assumption.
  - cbn [mkdir_all]. rewrite (follow_no_symlinks _ _ _ Hs).
    assert (Hk1 : done ++ [c] <> []) by (destruct done; discriminate).
    rewrite (lookup_node_ne _ _ Hk1).
    assert (Hfull : done ++ c :: todo = (done ++ [c]) ++ todo)
      by (rewrite <- app_assoc; reflexivity).
    assert (Hon : (done ++ [c]) `prefix_of` (done ++ c :: todo)).
    { exists todo. exact Hfull. }
    destruct (Hway (done ++ [c]) ltac:(eexists; reflexivity) Hon
                ltac:(apply (prefix_snoc_ne done c); reflexivity)) as [Hnone | Hdir].
    + rewrite Hnone.
      destruct (IH (<[done ++ [c] := NDir]> t) (done ++ [c])) as (t' & Hrun & Hs' & Ha & Hb & Hc).
      { apply no_symlinks_insert; [exact Hs | discriminate]. }
      { intros k H1 H2 Hne. rewrite lookup_insert_ne by congruence.
        apply Hway; [exact (prefix_snoc_l _ _ _ H1) | rewrite Hfull; exact H2 |
                     exact (prefix_snoc_ne _ _ _ H1)]. }
      exists t'. split; [exact Hrun |]. split; [exact Hs' |]. rewrite Hfull.
      repeat split.
      * intros k n Hk. apply Ha. rewrite lookup_insert_ne by congruence. exact Hk.
      * intros k n Hk. destruct (Hb k n Hk) as [Hold | (-> & H1 & H2 & H3)].
        -- destruct (decide (done ++ [c] = k)) as [<- | Hne].
           ++ rewrite lookup_insert_eq in Hold. injection Hold as <-.
              right. split; [reflexivity |]. split; [eexists; reflexivity |].
              split; [apply (prefix_snoc_ne done c); reflexivity |].
              rewrite <- Hfull. exact Hon.
           ++ rewrite lookup_insert_ne in Hold by exact Hne. auto.
        -- right. split; [reflexivity |]. split; [exact (prefix_snoc_l _ _ _ H1) |].
           split; [exact (prefix_snoc_ne _ _ _ H1) | exact H3].
      * intros k H1 H2 Hne. rewrite <- Hfull in H2.
        destruct (decide (k = done ++ [c])) as [-> | Hne1].
        -- apply Ha. apply lookup_insert_eq.
        -- apply Hc; [exact (on_path_next _ _ _ _ H1 H2 Hne) | rewrite <- Hfull; exact H2 |
                      exact Hne1].
    + rewrite Hdir.
      destruct (IH t (done ++ [c])) as (t' & Hrun & Hs' & Ha & Hb & Hc).
      { exact Hs. }
      { intros k H1 H2 Hne.
        apply Hway; [exact (prefix_snoc_l _ _ _ H1) | rewrite Hfull; exact H2 |
                     exact (prefix_snoc_ne _ _ _ H1)]. }
      exists t'. split; [exact Hrun |]. split; [exact Hs' |]. rewrite Hfull.
      repeat split.
      * exact Ha.
      * intros k n Hk. destruct (Hb k n Hk) as [Hold | (-> & H1 & H2 & H3)]; [auto |].
        right. split; [reflexivity |]. split; [exact (prefix_snoc_l _ _ _ H1) |].
        split; [exact (prefix_snoc_ne _ _ _ H1) | exact H3].
      * intros k H1 H2 Hne. rewrite <- Hfull in H2.
        destruct (decide (k = done ++ [c])) as [-> | Hne1].
        -- apply Ha. exact Hdir.
        -- apply Hc; [exact (on_path_next _ _ _ _ H1 H2 Hne) | rewrite <- Hfull; exact H2 |
                      exact Hne1].
Qed.

Lemma MkdirAll_ok p fs :
  no_symlinks (tree fs) ->
  (forall k, k `prefix_of` locate fs p -> k <> [] ->
     tree fs !! k = None \/ tree fs !! k = Some NDir) ->
  exists t', MkdirAll p fs = (Ok tt, mkFs (cwd fs) t') /\ no_symlinks t' /\
             made_dirs (tree fs) [] (locate fs p) t'.
Proof.
  intros Hs Hway. unfold MkdirAll.
  destruct (mkdir_all_ok (tree fs) [] (locate fs p) Hs) as (t' & Hrun & Hs' & Hm).
  { intros k _ H2 Hne. apply Hway; assumption. }
  exists t'. rewrite Hrun. auto.
Qed.

Lemma Stat_ok p fs n :
  no_symlinks (tree fs) -> lookup_node (tree fs) (locate fs p) = Some n ->
  Stat p fs = (Ok n, fs).
Proof.
  intros Hs Hn. unfold Stat, query. rewrite (follow_no_symlinks _ _ _ Hs), Hn. reflexivity.
Qed.

Lemma Lstat_ok p fs n :
  lookup_node (tree fs) (locate fs p) = Some n -> Lstat p fs = (Ok n, fs).
Proof. intros Hn. unfold Lstat, query. rewrite Hn. reflexivity. Qed.

Lemma Open_ok p fs data perm :
  no_symlinks (tree fs) ->
  lookup_node (tree fs) (locate fs p) = Some (NFile data perm) ->
  Open p fs = (Ok (Some data), fs).
Proof.
  intros Hs Hn. unfold Open, query. rewrite (follow_no_symlinks _ _ _ Hs), Hn. reflexivity.
Qed.

(** [createFile] succeeds where the directory is there and no directory is
    in the way; the bytes and the permission bits are then those given. *)
Lemma createFile_ok data perm p fs :
  no_symlinks (tree fs) ->
  locate fs p <> [] ->
  lookup_node (tree fs) (parent (locate fs p)) = Some NDir ->
  tree fs !! locate fs p <> Some NDir ->
  createFile (Ok data) perm p fs =
    (Ok tt, mkFs (cwd fs) (<[locate fs p := NFile data perm]> (tree fs))).
Proof.
  intros Hs Hk Hparent Hnd. unfold createFile, bind, Create.
  rewrite (follow_no_symlinks _ _ _ Hs).
  destruct (locate fs p) as [|x k] eqn:Ek; [congruence |].
  rewrite Hparent.
  assert (Hstep : forall pm0,
    (let (r, fs') := write_all (x :: k) data
                       (mkFs (cwd fs) (<[x :: k := NFile "" pm0]> (tree fs))) in
     match r with
     | Ok _ => Chmod p perm fs'
     | Err e => (Err e, fs')
     end) = (Ok tt, mkFs (cwd fs) (<[x :: k := NFile data perm]> (tree fs)))).
  { intros pm0. unfold write_all. cbn [tree cwd]. rewrite lookup_insert_eq.
    unfold Chmod. cbn [tree cwd].
    rewrite follow_no_symlinks
      by (rewrite insert_insert_eq; apply no_symlinks_insert; [exact Hs | discriminate]).
    unfold locate in Ek |- *. cbn [cwd]. rewrite Ek.
    rewrite lookup_insert_eq, !insert_insert_eq. reflexivity. }
  destruct (tree fs !! (x :: k)) as [[|d pm|target]|] eqn:El.
  - congruence.
  - apply Hstep.
  - exfalso. exact (Hs _ _ El).
  - apply Hstep.
Qed.

(** Copying one file: the directories above the destination are made, the
    destination gets the bytes and the permission bits of the source, and
    nothing else changes. *)
Lemma replicateFile_copies src dst config fs data perm n :
  fileMode config = copyMode ->
  no_symlinks (tree fs) ->
  lookup_node (tree fs) (locate fs src) = Some (NFile data perm) ->
  last (Split Separator dst) = Some n -> plain_element n ->
  locate fs dst <> locate fs src ->
  (forall k, k `prefix_of` parent (locate fs dst) -> k <> [] ->
     tree fs !! k = None \/ tree fs !! k = Some NDir) ->
  tree fs !! locate fs dst <> Some NDir ->
  exists t1, made_dirs (tree fs) [] (parent (locate fs dst)) t1 /\ no_symlinks t1 /\
    replicateFile src dst config fs =
      (Ok tt, mkFs (cwd fs) (<[locate fs dst := NFile data perm]> t1)).
Proof.
  intros Hmode Hs Hsrc Hlast Hn Hne Hway Hdst.
  pose proof (locate_Dir fs dst n Hlast Hn) as Hdir.
  pose proof (locate_Dir_name fs dst n Hlast Hn) as Hname. rewrite Hdir in Hname.
  set (D := locate fs dst) in *. set (S := locate fs src) in *.
  assert (HD : D <> []) by (rewrite Hname; destruct (parent D); discriminate).
  assert (HS : S <> []) by (intros E; rewrite E in Hsrc; discriminate).
  assert (HpD : parent D <> D).
  { intros E. apply (f_equal List.length) in Hname. rewrite length_app, E in Hname.
    cbn in Hname. lia. }
  destruct (MkdirAll_ok (Dir dst) fs Hs) as (t1 & Hmk & Hs1 & Ha & Hb & Hc).
  { rewrite Hdir. exact Hway. }
  rewrite Hdir in Hb, Hc.
  exists t1. split; [repeat split; assumption |]. split; [exact Hs1 |].
  assert (Hrest : forall t2, (t2 = t1 \/ t2 = delete D t1) ->
    bind (Stat src) (fun s =>
      bind (Open src) (fun opened =>
        createFile match opened with
                   | Some data => Ok data
                   | None => Err ("read " +:+ src +:+ ": is a directory")
                   end (perm_of s) dst)) (mkFs (cwd fs) t2)
    = (Ok tt, mkFs (cwd fs) (<[D := NFile data perm]> t1))).
  { intros t2 Ht2.
    assert (Hs2 : no_symlinks t2).
    { destruct Ht2 as [-> | ->]; [exact Hs1 | apply no_symlinks_delete; exact Hs1]. }
    assert (Hsrc2 : lookup_node t2 S = Some (NFile data perm)).
    { rewrite (lookup_node_ne _ _ HS) in Hsrc. rewrite (lookup_node_ne _ _ HS).
      apply Ha in Hsrc.
      destruct Ht2 as [-> | ->]; [exact Hsrc |].
      rewrite lookup_delete_ne by exact Hne. exact Hsrc. }
    assert (Hpar2 : lookup_node t2 (parent D) = Some NDir).
    { destruct (parent D) as [|x k] eqn:Ep; [reflexivity |]. cbn [lookup_node].
      assert (H1 : t1 !! (x :: k) = Some NDir).
      { apply Hc; [apply prefix_nil | reflexivity | discriminate]. }
      destruct Ht2 as [-> | ->]; [exact H1 |].
      rewrite lookup_delete_ne by congruence. exact H1. }
    assert (Hdst2 : t2 !! D <> Some NDir).
    { destruct Ht2 as [-> | ->]; [| rewrite lookup_delete_eq; discriminate].
      intros E. destruct (Hb _ _ E) as [Hold | (_ & _ & _ & Hp)]; [contradiction |].
      apply prefix_length in Hp. apply (f_equal List.length) in Hname.
      rewrite length_app in Hname. cbn in Hname. lia. }
    unfold bind.
    rewrite (Stat_ok src (mkFs (cwd fs) t2) (NFile data perm) Hs2 Hsrc2).
    rewrite (Open_ok src (mkFs (cwd fs) t2) data perm Hs2 Hsrc2).
    cbn [perm_of].
    rewrite (createFile_ok data perm dst (mkFs (cwd fs) t2) Hs2 HD Hpar2 Hdst2).
    cbn [cwd tree]. change (locate (mkFs (cwd fs) t2) dst) with D.
    destruct Ht2 as [-> | ->]; [reflexivity |]. rewrite insert_delete_eq. reflexivity. }
  unfold replicateFile, bind at 1, replicatePrepare. rewrite Hmk, Hmode. cbn [Z.eqb copyMode].
  destruct (removeFirst config).
  - unfold ignore_error.
    destruct (Remove_tree dst (mkFs (cwd fs) t1)) as [Hcwd Htree].
    change (locate (mkFs (cwd fs) t1) dst) with D in Htree.
    destruct (Remove dst (mkFs (cwd fs) t1)) as [r [c2 t2]]. cbn [snd cwd tree] in *.
    subst c2. apply Hrest. destruct Htree as [-> | ->]; auto.
  - apply Hrest. auto.
Qed.

Lemma made_dirs_off t done full t1 k :
  made_dirs t done full t1 -> ~ k `prefix_of` full -> t1 !! k = t !! k.
Proof.
  intros (Ha & Hb & _) Hk. destruct (t1 !! k) as [n|] eqn:E1.
  - destruct (Hb _ _ E1) as [Hold | (_ & _ & _ & Hp)]; [congruence | contradiction].
  - destruct (t !! k) as [n|] eqn:E; [| reflexivity]. apply Ha in E. congruence.
Qed.

Lemma made_dirs_there t done full t1 k :
  made_dirs t done full t1 -> is_Some (t !! k) -> t1 !! k = t !! k.
Proof. intros (Ha & _) [n Hn]. rewrite Hn. apply Ha. exact Hn. Qed.

Lemma shaped_entry t k n :
  tree_shaped t -> t !! k = Some n ->
  k <> [] /\ Forall plain_element k /\ lookup_node t (parent k) = Some NDir.
Proof. intros Hsh Hk. exact (Hsh k n Hk). Qed.

(** In a shaped tree everything above an entry is a directory. *)
Lemma shaped_ancestor t k n k' :
  tree_shaped t -> t !! k = Some n -> k' `prefix_of` k -> k' <> k ->
  lookup_node t k' = Some NDir.
Proof.
  intros Hsh Hk [a ->]. revert n Hk.
  induction a as [|x a IH] using rev_ind; intros n Hk Hne.
  - rewrite app_nil_r in Hne. congruence.
  - destruct (shaped_entry t _ n Hsh Hk) as (_ & _ & Hpar).
    unfold parent in Hpar. rewrite app_assoc, removelast_last in Hpar.
    destruct a as [|y a]; [rewrite app_nil_r in Hpar; exact Hpar |].
    assert (Hne' : k' ++ y :: a <> []) by (destruct k'; discriminate).
    rewrite (lookup_node_ne _ _ Hne') in Hpar.
    apply (IH NDir Hpar). intros E. apply (f_equal List.length) in E.
    rewrite length_app in E. cbn in E. lia.
Qed.

Lemma shaped_file_leaf t k data perm k' n :
  tree_shaped t -> t !! k = Some (NFile data perm) -> t !! k' = Some n ->
  k `prefix_of` k' -> k' = k.
Proof.
  intros Hsh Hk Hk' Hp. destruct (decide (k' = k)) as [-> | Hne]; [reflexivity |].
  pose proof (shaped_ancestor t k' n k Hsh Hk' Hp ltac:(congruence)) as Hd.
  rewrite lookup_node_ne in Hd by (intros ->; destruct (shaped_entry t _ _ Hsh Hk); congruence).
  congruence.
Qed.

Lemma readDirNames_spec p fs :
  exists L, readDirNames p fs = (Ok L, fs) /\
            forall n, n ∈ L <-> is_Some (tree fs !! (locate fs p ++ [n])).
Proof.
  eexists. split; [reflexivity |]. intros n.
  rewrite merge_sort_Permutation, list_elem_of_omap. split.
  - intros ([k v] & Hin & Hc). apply elem_of_map_to_list in Hin.
    unfold child_name in Hc. cbn [fst] in Hc.
    destruct (last k) as [n'|]; [| discriminate].
    destruct (decide (k = locate fs p ++ [n'])) as [-> | _]; [| discriminate].
    injection Hc as ->. eauto.
  - intros [v Hv]. exists (locate fs p ++ [n], v). split.
    + apply elem_of_map_to_list. exact Hv.
    + unfold child_name. cbn [fst]. rewrite last_snoc.
      destruct (decide (locate fs p ++ [n] = locate fs p ++ [n])); congruence.
Qed.

Lemma prefix_snoc_cases (X : location) n k :
  k `prefix_of` (X ++ [n]) -> k = X ++ [n] \/ k `prefix_of` X.
Proof.
  intros [b Hb]. destruct b as [|y b _] using rev_ind.
  - left. rewrite app_nil_r in Hb. auto.
  - right. rewrite app_assoc in Hb. apply app_inj_tail in Hb as [-> _].
    eexists; reflexivity.
Qed.

Section DirectoryCopy.

Variables (src dst : string) (config : replicateConfig).
Variables (c : location) (t0 t2 : gmap location node) (S D : location).

Hypothesis Hmode : fileMode config = copyMode.
Hypothesis Hshaped : tree_shaped t0.
Hypothesis Hlinks0 : no_symlinks t0.
Hypothesis Hclean : Clean src = src.
Hypothesis Hdst : dst <> "".
Hypothesis HS : forall fs, cwd fs = c -> locate fs src = S.
Hypothesis HD : forall fs, cwd fs = c -> locate fs dst = D.
Hypothesis HSD : ~ S `prefix_of` D.
Hypothesis HDS : ~ D `prefix_of` S.
Hypothesis HSdir : lookup_node t0 S = Some NDir.

Local Abbreviation inv := (copying c t0 t2 S D).

Lemma source_not_root : S <> [].
Proof. intros E. apply HSD. rewrite E. apply prefix_nil. Qed.

Lemma source_is_directory : t0 !! S = Some NDir.
Proof. rewrite <- (lookup_node_ne _ _ source_not_root). exact HSdir. Qed.

Lemma apart (k : location) : S `prefix_of` k -> D `prefix_of` k -> False.
Proof.
  intros H1 H2. destruct (prefix_weak_total _ _ _ H1 H2); [apply HSD | apply HDS]; assumption.
Qed.

Lemma last_Split_Join_names names n :
  plain_element n ->
  last (Split Separator (Join [dst; String.concat "/" (names ++ [n])])) = Some n.
Proof.
  intros Hn. rewrite (Join_two _ _ Hdst), concat_snoc.
  destruct names as [|x names]; [apply last_Split_Clean_snoc; exact Hn |].
  replace (dst +:+ String Separator (String.concat "/" (x :: names) +:+ "/" +:+ n))
    with ((dst +:+ String Separator (String.concat "/" (x :: names))) +:+ String Separator n)
    by (rewrite string_app_assoc, string_app_cons; reflexivity).
  apply last_Split_Clean_snoc. exact Hn.
Qed.

(** One file of the source tree is copied to its place below the
    destination. *)
Lemma copy_step names path data perm fs :
  inv fs -> Forall plain_element names -> names <> [] ->
  t0 !! (S ++ names) = Some (NFile data perm) ->
  tracks src names path ->
  exists fs',
    replicateFile path (Join [dst; String.concat "/" names]) config fs = (Ok tt, fs') /\
    inv fs' /\
    (forall r n, tree fs !! (D ++ r) = Some n -> tree fs' !! (D ++ r) = Some n) /\
    tree fs' !! (D ++ names) = Some (NFile data perm).
Proof.
  intros Hinv Hplain Hne Hfile Htr.
  destruct Hinv as [Hcwd Hl Hsrc Habove Hmirror Hout Hchain].
  destruct (exists_last Hne) as (names' & n & Hnames).
  assert (Hn : plain_element n).
  { rewrite Hnames in Hplain. apply Forall_app in Hplain as [_ Hp]. inversion Hp; assumption. }
  assert (Hlp : locate fs path = S ++ names).
  { rewrite (tracks_locate fs src names path Hplain Htr), (HS fs Hcwd). reflexivity. }
  assert (Hlt : locate fs (Join [dst; String.concat "/" names]) = D ++ names).
  { rewrite (locate_Join_names fs dst names Hne Hplain), (HD fs Hcwd). reflexivity. }
  assert (Hpar : parent (D ++ names) = D ++ names').
  { unfold parent. rewrite Hnames, app_assoc, removelast_last. reflexivity. }
  assert (Hstrict : forall q, q `prefix_of` names' -> q <> names /\ q `prefix_of` names).
  { intros q [b Hb]. split.
    - intros ->. apply (f_equal List.length) in Hnames, Hb.
      rewrite !length_app in *. cbn in *. lia.
    - exists (b ++ [n]). rewrite Hnames, Hb, <- app_assoc. reflexivity. }
  assert (Hdirs : forall q, q `prefix_of` names -> q <> names ->
            t0 !! (S ++ q) = Some NDir).
  { intros q Hq Hqn.
    rewrite <- lookup_node_ne
      by (intros E; apply app_eq_nil in E as [E _]; exact (source_not_root E)).
    apply (shaped_ancestor t0 (S ++ names) _ (S ++ q) Hshaped Hfile).
    - apply prefix_app. exact Hq.
    - intros E. apply app_inv_head in E. contradiction. }
  destruct (replicateFile_copies path (Join [dst; String.concat "/" names]) config fs
              data perm n Hmode Hl) as (t1 & Hmade & Hl1 & Hrun).
  { rewrite Hlp, lookup_node_ne, Hsrc
      by (try (eexists; reflexivity);
          intros E; apply app_eq_nil in E as [E _]; exact (source_not_root E)).
    exact Hfile. }
  { rewrite Hnames. apply last_Split_Join_names. exact Hn. }
  { exact Hn. }
  { rewrite Hlp, Hlt. intros E. apply app_inv_tail in E. apply HSD. rewrite E. reflexivity. }
  { rewrite Hlt, Hpar. intros k Hk Hk0.
    destruct (prefix_weak_total k D (D ++ names') Hk ltac:(eexists; reflexivity))
      as [HkD | [q ->]].
    - destruct (decide (k = D)) as [-> | HneD].
      + destruct (tree fs !! D) as [nd|] eqn:ED; [| auto]. right.
        pose proof (Hmirror [] nd) as Hm. rewrite app_nil_r in Hm.
        destruct (Hm ED) as [(d & p & -> & Hd) | (-> & _)]; [| reflexivity].
        rewrite app_nil_r, source_is_directory in Hd. discriminate.
      + right. rewrite <- (lookup_node_ne _ _ Hk0). apply Habove; assumption.
    - apply prefix_app_inv in Hk.
      destruct (tree fs !! (D ++ q)) as [nd|] eqn:Eq; [| auto]. right.
      destruct (Hmirror q nd Eq) as [(d & p & -> & Hd) | (-> & _)]; [| reflexivity].
      destruct (Hstrict q Hk) as [Hqn Hq]. rewrite (Hdirs q Hq Hqn) in Hd. discriminate. }
  { rewrite Hlt. intros E.
    destruct (Hmirror names NDir E) as [(d & p & Hd & _) | (_ & r' & d & p & Hr & Hrn & Hf)];
      [discriminate |].
    apply Hrn. apply app_inv_head with (l := S).
    apply (shaped_file_leaf t0 (S ++ names) data perm (S ++ r') _ Hshaped Hfile Hf).
    apply prefix_app. exact Hr. }
  rewrite Hlt, Hpar in *. eexists. split; [exact Hrun |].
  assert (Hoff : forall k, ~ D `prefix_of` k -> t1 !! k = tree fs !! k).
  { intros k Hk. destruct (decide (k `prefix_of` D ++ names')) as [Hp | Hp].
    - destruct (prefix_weak_total k D (D ++ names') Hp ltac:(eexists; reflexivity))
        as [HkD | HDk]; [| contradiction].
      destruct k as [|x k].
      + destruct (t1 !! []) as [nd|] eqn:E1.
        * destruct Hmade as (_ & Hb & _).
          destruct (Hb _ _ E1) as [Hold | (_ & _ & Hc & _)]; congruence.
        * destruct (tree fs !! []) as [nd|] eqn:E0; [| reflexivity].
          destruct Hmade as (Ha & _). apply Ha in E0. congruence.
      + apply (made_dirs_there _ _ _ _ _ Hmade).
        assert (HneD : x :: k <> D) by (intros E; apply Hk; rewrite E; reflexivity).
        pose proof (Habove (x :: k) HkD HneD) as Hd. cbn [lookup_node] in Hd.
        rewrite Hd. eauto.
    - apply (made_dirs_off _ _ _ _ _ Hmade Hp). }
  split; [| split].
  - constructor; cbn [cwd tree].
    + exact Hcwd.
    + apply no_symlinks_insert; [exact Hl1 | discriminate].
    + intros k Hk.
      rewrite lookup_insert_ne
        by (intros E; apply (apart k Hk); rewrite <- E; eexists; reflexivity).
      rewrite Hoff by (intros HDk; exact (apart k Hk HDk)). apply Hsrc. exact Hk.
    + intros k Hk HkD.
      assert (Hnk : D ++ names <> k).
      { intros E. apply HkD. apply (anti_symm prefix); [exact Hk |].
        rewrite <- E. eexists; reflexivity. }
      destruct k as [|x k]; [reflexivity |]. cbn [lookup_node].
      rewrite lookup_insert_ne by exact Hnk.
      rewrite Hoff.
      * exact (Habove (x :: k) Hk HkD).
      * intros HDk. apply HkD. apply (anti_symm prefix); assumption.
    + intros r nd Hr. destruct (decide (r = names)) as [-> | Hrn].
      * rewrite lookup_insert_eq in Hr. injection Hr as <-. left. eauto.
      * rewrite lookup_insert_ne in Hr by (intros E; apply app_inv_head in E; congruence).
        destruct Hmade as (_ & Hb & _).
        destruct (Hb _ _ Hr) as [Hold | (-> & _ & _ & Hp)]; [exact (Hmirror r nd Hold) |].
        apply prefix_app_inv in Hp. destruct (Hstrict r Hp) as [_ Hq].
        right. split; [reflexivity |]. exists names, data, perm. auto.
    + intros k Hk.
      rewrite lookup_insert_ne by (intros E; apply Hk; rewrite <- E; eexists; reflexivity).
      rewrite (Hoff k Hk). apply Hout. exact Hk.
    + assert (Hmade_dir : forall q, q `prefix_of` names' -> t1 !! (D ++ q) = Some NDir).
      { intros q Hq. destruct Hmade as (_ & _ & Hc).
        apply Hc; [apply prefix_nil | apply prefix_app; exact Hq |].
        intros E. apply app_eq_nil in E as [E _]. apply HDS. rewrite E. apply prefix_nil. }
      intros r nd q Hr Hq Hqr.
      assert (Hfile_free : tree fs !! (D ++ names) <> Some NDir).
      { intros E.
        destruct (Hmirror names NDir E)
          as [(d & p & Hd & _) | (_ & r' & d & p & Hr' & Hrn & Hf)]; [discriminate |].
        apply Hrn. apply app_inv_head with (l := S).
        apply (shaped_file_leaf t0 (S ++ names) data perm (S ++ r') _ Hshaped Hfile Hf).
        apply prefix_app. exact Hr'. }
      destruct (decide (r = names)) as [-> | Hrn].
      * rewrite Hnames in Hq.
        destruct (prefix_snoc_cases _ _ _ Hq) as [E | Hq']; [rewrite <- Hnames in E; contradiction |].
        rewrite lookup_insert_ne by (intros E; apply app_inv_head in E; congruence).
        exact (Hmade_dir q Hq').
      * rewrite lookup_insert_ne in Hr by (intros E; apply app_inv_head in E; congruence).
        destruct Hmade as (Ha & Hb & _).
        destruct (Hb _ _ Hr) as [Hold | (-> & _ & _ & Hp)].
        -- pose proof (Hchain r nd q Hold Hq Hqr) as Hd.
           rewrite lookup_insert_ne by (intros E; apply app_inv_head in E; congruence).
           apply Ha. exact Hd.
        -- apply prefix_app_inv in Hp.
           assert (Hq' : q `prefix_of` names') by (transitivity r; assumption).
           rewrite lookup_insert_ne
             by (intros E; apply app_inv_head in E; destruct (Hstrict q Hq'); congruence).
           exact (Hmade_dir q Hq').
  - intros r nd Hr. cbn [tree]. destruct (decide (r = names)) as [-> | Hrn].
    + rewrite lookup_insert_eq.
      destruct (Hmirror names nd Hr) as [(d & p & -> & Hd) | (-> & r' & d & p & Hr' & Hrn & Hf)].
      * congruence.
      * exfalso. apply Hrn. apply app_inv_head with (l := S).
        apply (shaped_file_leaf t0 (S ++ names) data perm (S ++ r') _ Hshaped Hfile Hf).
        apply prefix_app. exact Hr'.
    + rewrite lookup_insert_ne by (intros E; apply app_inv_head in E; congruence).
      destruct Hmade as (Ha & _). apply Ha. exact Hr.
  - cbn [tree]. apply lookup_insert_eq.
Qed.

Lemma below_source_not_root (names : location) : S ++ names <> [].
Proof. intros E. apply app_eq_nil in E as [E _]. exact (source_not_root E). Qed.

Lemma child_is_there names n r v :
  t0 !! (S ++ names ++ n :: r) = Some v -> is_Some (t0 !! (S ++ names ++ [n])).
Proof.
  intros Hv. destruct r as [|x r]; [eauto |].
  exists NDir. rewrite <- lookup_node_ne.
  - apply (shaped_ancestor t0 (S ++ names ++ n :: x :: r) v _ Hshaped Hv).
    + exists (x :: r). rewrite <- !app_assoc. reflexivity.
    + intros E. apply (f_equal List.length) in E. rewrite !length_app in E. cbn in E. lia.
  - rewrite app_assoc. destruct (S ++ names); discriminate.
Qed.

(** [filepath.Walk] with the function of [replicateDir] copies every file
    at or below the place it starts from. *)
Lemma walk_copies fuel : forall names path info fs,
  inv fs -> Forall plain_element names -> tracks src names path ->
  lookup_node t0 (S ++ names) = Some info ->
  (forall r, is_Some (t0 !! (S ++ names ++ r)) -> List.length r < fuel) ->
  exists fs', walk fuel path info (copy_entry src dst config) fs = (Ok tt, fs') /\ inv fs' /\
    (forall r n, tree fs !! (D ++ r) = Some n -> tree fs' !! (D ++ r) = Some n) /\
    (forall r d p, t0 !! (S ++ names ++ r) = Some (NFile d p) ->
                   tree fs' !! (D ++ names ++ r) = Some (NFile d p)).
Proof.
  induction fuel as [|fuel IH]; intros names path info fs Hinv Hplain Htr Hinfo Hdeep.
  { exfalso. specialize (Hdeep []). rewrite app_nil_r in Hdeep.
    rewrite (lookup_node_ne _ _ (below_source_not_root names)) in Hinfo.
    cbn in Hdeep. specialize (Hdeep ltac:(eauto)). lia. }
  rewrite (lookup_node_ne _ _ (below_source_not_root names)) in Hinfo.
  assert (Hlp : forall fs1, inv fs1 -> locate fs1 path = S ++ names).
  { intros fs1 H1. rewrite (tracks_locate fs1 src names path Hplain Htr).
    rewrite (HS fs1 (copying_cwd _ _ _ _ _ _ H1)). reflexivity. }
  cbn [walk]. destruct info as [|data perm|target].
  - cbn [IsDir negb].
    assert (Hloop : forall L,
      (forall n, n ∈ L -> is_Some (t0 !! (S ++ names ++ [n]))) ->
      forall fs1, inv fs1 ->
      exists fs', for_each L (fun name =>
          let filename := Join [path; name] in
          fun fs => match Lstat filename fs with
                    | (Err err, _) => copy_entry src dst config filename (Err err) fs
                    | (Ok fileInfo, _) =>
                        walk fuel filename fileInfo (copy_entry src dst config) fs
                    end) fs1 = (Ok tt, fs') /\ inv fs' /\
        (forall r n, tree fs1 !! (D ++ r) = Some n -> tree fs' !! (D ++ r) = Some n) /\
        (forall n, n ∈ L -> forall r d p,
           t0 !! (S ++ names ++ n :: r) = Some (NFile d p) ->
           tree fs' !! (D ++ names ++ n :: r) = Some (NFile d p))).
    { induction L as [|n L IHL]; intros HL fs1 H1.
      - exists fs1. split; [reflexivity |]. split; [exact H1 |]. split; [auto |].
        intros n Hn. inversion Hn.
      - destruct (HL n ltac:(apply elem_of_cons; auto)) as [v Hv].
        assert (Hn : plain_element n).
        { destruct (shaped_entry t0 _ _ Hshaped Hv) as (_ & Hall & _).
          rewrite app_assoc in Hall. apply Forall_app in Hall as [_ Hall].
          inversion Hall; assumption. }
        assert (Hplain' : Forall plain_element (names ++ [n])).
        { apply Forall_app. split; [exact Hplain | constructor; [exact Hn | constructor]]. }
        pose proof (tracks_Join src names path n Hn Htr) as Htr'.
        assert (Hl1 : lookup_node (tree fs1) (locate fs1 (Join [path; n])) = Some v).
        { rewrite (tracks_locate fs1 src _ _ Hplain' Htr').
          rewrite (HS fs1 (copying_cwd _ _ _ _ _ _ H1)).
          rewrite lookup_node_ne by apply below_source_not_root.
          rewrite (copying_source _ _ _ _ _ _ H1) by (eexists; reflexivity).
          exact Hv. }
        destruct (IH (names ++ [n]) (Join [path; n]) v fs1 H1 Hplain' Htr')
          as (fs2 & Hrun2 & H2 & Hgrow2 & Hcopied2).
        { rewrite lookup_node_ne by apply below_source_not_root. exact Hv. }
        { intros r Hr. rewrite <- app_assoc in Hr. cbn [app] in Hr.
          specialize (Hdeep (n :: r) Hr). cbn in Hdeep. lia. }
        destruct (IHL ltac:(intros m Hm; apply HL, elem_of_cons; auto) fs2 H2)
          as (fs3 & Hrun3 & H3 & Hgrow3 & Hcopied3).
        exists fs3. cbn [for_each]. unfold bind at 1. cbn zeta.
        rewrite (Lstat_ok _ _ _ Hl1), Hrun2. split; [exact Hrun3 |].
        split; [exact H3 |]. split; [auto |].
        intros m [-> | Hm]%elem_of_cons r d p Hf; [| exact (Hcopied3 m Hm r d p Hf)].
        apply (Hgrow3 (names ++ n :: r)). specialize (Hcopied2 r d p).
        rewrite <- !app_assoc in Hcopied2. cbn [app] in Hcopied2.
        apply Hcopied2. exact Hf. }
    destruct (readDirNames_spec path fs) as (L & HL & HLin).
    unfold bind at 1. rewrite HL. unfold bind at 1. cbn [copy_entry IsDir ret].
    destruct (Hloop L) with (fs1 := fs) as (fs' & Hrun & H' & Hgrow & Hcopied).
    { intros n Hn. apply HLin in Hn. rewrite (Hlp fs Hinv) in Hn.
      rewrite (copying_source _ _ _ _ _ _ Hinv) in Hn
        by (exists (names ++ [n]); rewrite <- app_assoc; reflexivity).
      rewrite <- app_assoc in Hn. exact Hn. }
    { exact Hinv. }
    exists fs'. split; [exact Hrun |]. split; [exact H' |]. split; [exact Hgrow |].
    intros r d p Hf. destruct r as [|n r].
    + rewrite app_nil_r in Hf. congruence.
    + apply (Hcopied n); [| exact Hf].
      apply HLin. rewrite (Hlp fs Hinv).
      rewrite (copying_source _ _ _ _ _ _ Hinv)
        by (exists (names ++ [n]); rewrite <- app_assoc; reflexivity).
      rewrite <- app_assoc. exact (child_is_there names n r _ Hf).
  - cbn [IsDir negb copy_entry].
    assert (Hne : names <> []).
    { intros ->. rewrite app_nil_r, source_is_directory in Hinfo. discriminate. }
    rewrite (tracks_Rel src names path Hclean Hne Htr).
    destruct (copy_step names path data perm fs Hinv Hplain Hne Hinfo Htr)
      as (fs' & Hrun & H' & Hgrow & Hdone).
    exists fs'. split; [exact Hrun |]. split; [exact H' |]. split; [exact Hgrow |].
    intros r d p Hf.
    assert (Hr : S ++ names ++ r = S ++ names).
    { apply (shaped_file_leaf t0 (S ++ names) data perm _ _ Hshaped Hinfo Hf).
      exists r. rewrite <- app_assoc. reflexivity. }
    apply app_inv_head in Hr.
    assert (r = []) as -> by (destruct r; [reflexivity |]; 
      apply (f_equal List.length) in Hr; rewrite length_app in Hr; cbn in Hr; lia).
    rewrite app_nil_r in Hf |- *. congruence.
  - exfalso. exact (Hlinks0 _ _ Hinfo).
Qed.

End DirectoryCopy.

(** ** Replicating a directory tree *)

Lemma ends_plain_not_dot p n :
  last (Split Separator p) = Some n -> plain_element n ->
  p <> "" /\ endsWithDot p = false.
Proof.
  intros Hlast (_ & H0 & H1 & _). split.
  - intros ->. cbn in Hlast. congruence.
  - unfold endsWithDot. rewrite Hlast.
    destruct (String.eqb_spec p ".") as [-> | _]; [cbn in Hlast; congruence |].
    destruct (String.eqb_spec n "."); [contradiction | reflexivity].
Qed.

Lemma lookup_removed (t : gmap location node) (D k : location) :
  filter (fun kv : location * node => ~ D `prefix_of` kv.1) t !! k =
  if decide (D `prefix_of` k) then None else t !! k.
Proof.
  destruct (decide (D `prefix_of` k)) as [Hp | Hp].
  - apply map_lookup_filter_None. right. intros x _ H. exact (H Hp).
  - destruct (t !! k) as [x|] eqn:E.
    + apply map_lookup_filter_Some. auto.
    + apply map_lookup_filter_None. auto.
Qed.

Lemma RemoveAll_ok p n fs :
  last (Split Separator p) = Some n -> plain_element n ->
  RemoveAll p fs =
    (Ok tt, mkFs (cwd fs)
              (filter (fun kv : location * node => ~ locate fs p `prefix_of` kv.1) (tree fs))).
Proof.
  intros Hlast Hn. destruct (ends_plain_not_dot p n Hlast Hn) as [Hp Hdot].
  unfold RemoveAll. rewrite Hdot.
  destruct (String.eqb_spec p ""); [contradiction | reflexivity].
Qed.

Lemma no_symlinks_removed t D :
  no_symlinks t ->
  no_symlinks (filter (fun kv : location * node => ~ D `prefix_of` kv.1) t).
Proof.
  intros Hs k target. rewrite lookup_removed.
  destruct (decide (D `prefix_of` k)); [discriminate | apply Hs].
Qed.

Lemma EvalSymlinks_ok p fs n :
  no_symlinks (tree fs) -> lookup_node (tree fs) (locate fs p) = Some n ->
  EvalSymlinks p fs = (Ok (Clean p), fs).
Proof.
  intros Hs Hn. unfold EvalSymlinks, query.
  rewrite (follow_no_symlinks _ _ _ Hs), Hn.
  destruct (decide (locate fs p = locate fs p)); congruence.
Qed.

Lemma Remove_absent p fs :
  tree fs !! locate fs p = None -> snd (Remove p fs) = fs.
Proof.
  intros Hk. unfold Remove. destruct (endsWithDot p); [reflexivity |].
  destruct (locate fs p) as [|x k]; [reflexivity |]. rewrite Hk. reflexivity.
Qed.

(** Replicating a directory by copying, in full: the call succeeds; the
    state after it keeps the working directory, has every file of the source
    tree at the same place below the destination, has nothing below the
    destination but these files and the directories above them, and is
    otherwise the state before the call with the directories above the
    destination made where they were missing. *)
Lemma replicateTree_directory src dst config fs n :
  fileMode config = copyMode -> dirMode config = copyMode ->
  no_symlinks (tree fs) -> tree_shaped (tree fs) -> shallow (tree fs) ->
  lookup_node (tree fs) (locate fs src) = Some NDir ->
  last (Split Separator dst) = Some n -> plain_element n ->
  ~ locate fs src `prefix_of` locate fs dst ->
  ~ locate fs dst `prefix_of` locate fs src ->
  (forall k, k `prefix_of` locate fs dst -> k <> locate fs dst -> k <> [] ->
     tree fs !! k = None \/ tree fs !! k = Some NDir) ->
  exists fs',
    replicateTree src dst config fs = (Ok tt, fs') /\
    cwd fs' = cwd fs /\
    (forall r data perm,
       tree fs !! (locate fs src ++ r) = Some (NFile data perm) ->
       tree fs' !! (locate fs dst ++ r) = Some (NFile data perm) /\
       forall q, q `prefix_of` r -> q <> r ->
         tree fs' !! (locate fs dst ++ q) = Some NDir) /\
    (forall r nd,
       tree fs' !! (locate fs dst ++ r) = Some nd ->
       mirrored (tree fs) (locate fs src) r nd) /\
    (forall k, ~ locate fs dst `prefix_of` k ->
       tree fs' !! k = tree fs !! k \/
       (tree fs !! k = None /\ tree fs' !! k = Some NDir /\
        k `prefix_of` locate fs dst)).
Proof.
  intros Hfm Hdm Hs Hsh Hdeep Hsrc Hlast Hn HSD HDS Hway.
  pose proof (locate_Dir fs dst n Hlast Hn) as Hdir.
  pose proof (locate_Dir_name fs dst n Hlast Hn) as Hname. rewrite Hdir in Hname.
  destruct (ends_plain_not_dot dst n Hlast Hn) as [Hdst Hdot].
  set (S := locate fs src) in *. set (D := locate fs dst) in *.
  assert (HS0 : S <> []) by (intros E; apply HSD; rewrite E; apply prefix_nil).
  assert (HpD : ~ D `prefix_of` parent D).
  { intros Hp. apply prefix_length in Hp. apply (f_equal List.length) in Hname.
    rewrite length_app in Hname. cbn in Hname. lia. }
  (* removing the destination *)
  unfold replicateTree. rewrite (RemoveAll_ok dst n fs Hlast Hn). fold D.
  set (t1 := filter (fun kv : location * node => ~ D `prefix_of` kv.1) (tree fs)).
  assert (Hs1 : no_symlinks t1) by (apply no_symlinks_removed; exact Hs).
  assert (Hsrc1 : lookup_node t1 S = Some NDir).
  { rewrite (lookup_node_ne _ _ HS0). unfold t1. rewrite lookup_removed.
    destruct (decide (D `prefix_of` S)); [contradiction |].
    rewrite <- (lookup_node_ne _ _ HS0). exact Hsrc. }
  unfold bind at 1.
  rewrite (EvalSymlinks_ok src (mkFs (cwd fs) t1) NDir Hs1 Hsrc1).
  unfold bind at 1.
  assert (HlocS : forall fs1, cwd fs1 = cwd fs -> locate fs1 (Clean src) = S).
  { intros fs1 Hc. rewrite locate_Clean. apply locate_cwd. exact Hc. }
  assert (HlocD : forall fs1, cwd fs1 = cwd fs -> locate fs1 dst = D).
  { intros fs1 Hc. apply locate_cwd. exact Hc. }
  rewrite (Stat_ok (Clean src) (mkFs (cwd fs) t1) NDir Hs1)
    by (rewrite (HlocS (mkFs (cwd fs) t1) eq_refl); exact Hsrc1).
  cbn [IsDir].
  (* preparing the destination *)
  destruct (MkdirAll_ok (Dir dst) (mkFs (cwd fs) t1) Hs1) as (t2 & Hmk & Hs2 & Hmade).
  { change (locate (mkFs (cwd fs) t1) (Dir dst)) with (locate fs (Dir dst)).
    rewrite Hdir. intros k Hk Hk0. cbn [tree]. unfold t1. rewrite lookup_removed.
    destruct (decide (D `prefix_of` k)) as [HDk | _]; [auto |].
    apply Hway; [| | exact Hk0].
    - rewrite Hname. destruct Hk as [b ->]. exists (b ++ [n]).
      rewrite <- app_assoc. reflexivity.
    - intros ->. apply HpD. exact Hk. }
  change (locate (mkFs (cwd fs) t1) (Dir dst)) with (locate fs (Dir dst)) in Hmade.
  rewrite Hdir in Hmade. cbn [tree cwd] in Hmk, Hmade.
  assert (HD2 : t2 !! D = None).
  { destruct (t2 !! D) as [nd|] eqn:E; [| reflexivity].
    destruct Hmade as (_ & Hb & _).
    destruct (Hb _ _ E) as [Hold | (_ & _ & _ & Hp)]; [| contradiction].
    unfold t1 in Hold. rewrite lookup_removed in Hold.
    destruct (decide (D `prefix_of` D)) as [_ | Hx]; [discriminate |].
    exfalso. apply Hx. reflexivity. }
  assert (Hprep : replicatePrepare dst config (mkFs (cwd fs) t1) = (Ok tt, mkFs (cwd fs) t2)).
  { unfold replicatePrepare. rewrite Hmk. destruct (removeFirst config); [| reflexivity].
    unfold ignore_error. rewrite Remove_absent; [reflexivity |]. exact HD2. }
  unfold replicateDir, bind at 1. rewrite Hprep, Hdm. cbn [Z.eqb copyMode].
  (* walking the source *)
  assert (Ht2S : forall k, S `prefix_of` k -> t2 !! k = tree fs !! k).
  { intros k Hk. rewrite (made_dirs_off _ _ _ _ _ Hmade).
    - unfold t1. rewrite lookup_removed.
      destruct (decide (D `prefix_of` k)) as [HDk | _]; [| reflexivity].
      exfalso. destruct (prefix_weak_total _ _ _ Hk HDk); contradiction.
    - intros Hp. apply HSD. rewrite Hname.
      transitivity k; [exact Hk |]. destruct Hp as [b ->]. exists (b ++ [n]).
      rewrite <- app_assoc. reflexivity. }
  assert (Hinv : copying (cwd fs) (tree fs) t2 S D (mkFs (cwd fs) t2)).
  { constructor; cbn [cwd tree].
    - reflexivity.
    - exact Hs2.
    - exact Ht2S.
    - intros k Hk HkD. destruct k as [|x k]; [reflexivity |]. cbn [lookup_node].
      destruct Hmade as (_ & _ & Hc). apply Hc; [apply prefix_nil | | discriminate].
      rewrite Hname in Hk. destruct (prefix_snoc_cases _ _ _ Hk) as [E | Hp]; [| exact Hp].
      rewrite <- Hname in E. contradiction.
    - intros r nd Hr. exfalso. destruct Hmade as (_ & Hb & _).
      destruct (Hb _ _ Hr) as [Hold | (_ & _ & _ & Hp)].
      + unfold t1 in Hold. rewrite lookup_removed in Hold.
        destruct (decide (D `prefix_of` D ++ r)) as [_ | Hx]; [discriminate |].
        apply Hx. eexists; reflexivity.
      + apply HpD. transitivity (D ++ r); [eexists; reflexivity | exact Hp].
    - reflexivity.
    - intros r nd q Hr _ _. exfalso. destruct Hmade as (_ & Hb & _).
      destruct (Hb _ _ Hr) as [Hold | (_ & _ & _ & Hp)].
      + unfold t1 in Hold. rewrite lookup_removed in Hold.
        destruct (decide (D `prefix_of` D ++ r)) as [_ | Hx]; [discriminate |].
        apply Hx. eexists; reflexivity.
      + apply HpD. transitivity (D ++ r); [eexists; reflexivity | exact Hp]. }
  unfold Walk.
  rewrite (Lstat_ok (Clean src) (mkFs (cwd fs) t2) NDir)
    by (rewrite (HlocS (mkFs (cwd fs) t2) eq_refl), (lookup_node_ne _ _ HS0); cbn [tree];
        rewrite Ht2S by reflexivity; rewrite <- (lookup_node_ne _ _ HS0); exact Hsrc).
  destruct (walk_copies (Clean src) dst config (cwd fs) (tree fs) t2 S D
              Hfm Hsh Hs (Clean_idempotent src) Hdst HlocS HlocD HSD HDS Hsrc
              walk_limit [] (Clean src) NDir (mkFs (cwd fs) t2) Hinv)
    as (fs' & Hrun & Hinv' & _ & Hcopied).
  { constructor. }
  { apply tracks_base. }
  { rewrite app_nil_r. exact Hsrc. }
  { intros r [v Hv]. cbn [app] in Hv. specialize (Hdeep _ _ Hv). cbn beta in Hdeep.
    rewrite length_app in Hdeep. lia. }
  exists fs'. split; [exact Hrun |].
  destruct Hinv' as [Hcwd' _ _ _ Hmirror' Hout' Hchain'].
  split; [exact Hcwd' |]. split.
  { intros r data perm Hf. pose proof (Hcopied r data perm Hf) as Hat.
    split; [exact Hat |]. intros q Hq Hqr. exact (Hchain' r _ q Hat Hq Hqr). }
  split; [exact Hmirror' |].
  intros k Hk. rewrite (Hout' k Hk).
  destruct (decide (k `prefix_of` parent D)) as [Hp | Hp].
  - destruct (tree fs !! k) as [nd|] eqn:E.
    + left. destruct Hmade as (Ha & _). apply Ha. unfold t1. rewrite lookup_removed.
      destruct (decide (D `prefix_of` k)); [contradiction | exact E].
    + destruct (t2 !! k) as [nd|] eqn:E2; [| auto]. right.
      destruct Hmade as (_ & Hb & _).
      destruct (Hb _ _ E2) as [Hold | (-> & _ & _ & _)].
      * unfold t1 in Hold. rewrite lookup_removed in Hold.
        destruct (decide (D `prefix_of` k)); congruence.
      * split; [reflexivity |]. split; [reflexivity |].
        rewrite Hname. destruct Hp as [b ->]. exists (b ++ [n]).
        rewrite <- app_assoc. reflexivity.
  - left. rewrite (made_dirs_off _ _ _ _ _ Hmade Hp). unfold t1. rewrite lookup_removed.
    destruct (decide (D `prefix_of` k)); [contradiction | reflexivity].
Qed.

(** Replicating a single file by copying, in full. *)
Lemma replicateTree_file src dst config fs n data perm :
  fileMode config = copyMode ->
  no_symlinks (tree fs) ->
  lookup_node (tree fs) (locate fs src) = Some (NFile data perm) ->
  last (Split Separator dst) = Some n -> plain_element n ->
  ~ locate fs dst `prefix_of` locate fs src ->
  (forall k, k `prefix_of` locate fs dst -> k <> locate fs dst -> k <> [] ->
     tree fs !! k = None \/ tree fs !! k = Some NDir) ->
  exists fs',
    replicateTree src dst config fs = (Ok tt, fs') /\
    cwd fs' = cwd fs /\
    tree fs' !! locate fs dst = Some (NFile data perm) /\
    (forall k, locate fs dst `prefix_of` k -> k <> locate fs dst -> tree fs' !! k = None) /\
    (forall k, ~ locate fs dst `prefix_of` k ->
       tree fs' !! k = tree fs !! k \/
       (tree fs !! k = None /\ tree fs' !! k = Some NDir /\
        k `prefix_of` locate fs dst)).
Proof.
  intros Hfm Hs Hsrc Hlast Hn HDS Hway.
  pose proof (locate_Dir_name fs dst n Hlast Hn) as Hname.
  rewrite (locate_Dir fs dst n Hlast Hn) in Hname.
  set (S := locate fs src) in *. set (D := locate fs dst) in *.
  assert (HS0 : S <> []) by (intros E; rewrite E in Hsrc; discriminate).
  assert (HpD : ~ D `prefix_of` parent D).
  { intros Hp. apply prefix_length in Hp. apply (f_equal List.length) in Hname.
    rewrite length_app in Hname. cbn in Hname. lia. }
  assert (Hup : forall k, k `prefix_of` parent D -> k `prefix_of` D).
  { intros k [b Hb]. rewrite Hname, Hb. exists (b ++ [n]).
    rewrite <- app_assoc. reflexivity. }
  unfold replicateTree. rewrite (RemoveAll_ok dst n fs Hlast Hn). fold D.
  set (t1 := filter (fun kv : location * node => ~ D `prefix_of` kv.1) (tree fs)).
  assert (Hs1 : no_symlinks t1) by (apply no_symlinks_removed; exact Hs).
  assert (Hsrc1 : lookup_node t1 S = Some (NFile data perm)).
  { rewrite (lookup_node_ne _ _ HS0). unfold t1. rewrite lookup_removed.
    destruct (decide (D `prefix_of` S)); [contradiction |].
    rewrite <- (lookup_node_ne _ _ HS0). exact Hsrc. }
  unfold bind at 1.
  rewrite (EvalSymlinks_ok src (mkFs (cwd fs) t1) _ Hs1 Hsrc1).
  unfold bind at 1.
  assert (HlocS : locate (mkFs (cwd fs) t1) (Clean src) = S) by apply locate_Clean.
  rewrite (Stat_ok (Clean src) (mkFs (cwd fs) t1) (NFile data perm) Hs1)
    by (rewrite HlocS; exact Hsrc1).
  cbn [IsDir].
  destruct (replicateFile_copies (Clean src) dst config (mkFs (cwd fs) t1) data perm n
              Hfm Hs1) as (t2 & Hmade & Hs2 & Hrun).
  { rewrite HlocS. exact Hsrc1. }
  { exact Hlast. }
  { exact Hn. }
  { rewrite HlocS. change (locate (mkFs (cwd fs) t1) dst) with D.
    intros E. apply HDS. rewrite E. reflexivity. }
  { change (locate (mkFs (cwd fs) t1) dst) with D. intros k Hk Hk0. cbn [tree].
    unfold t1. rewrite lookup_removed.
    destruct (decide (D `prefix_of` k)); [auto |].
    apply Hway; [exact (Hup k Hk) | | exact Hk0]. intros ->. exact (HpD Hk). }
  { change (locate (mkFs (cwd fs) t1) dst) with D. cbn [tree]. unfold t1.
    rewrite lookup_removed.
    destruct (decide (D `prefix_of` D)) as [_ | Hx]; [discriminate |].
    exfalso. apply Hx. reflexivity. }
  change (locate (mkFs (cwd fs) t1) dst) with D in Hmade, Hrun. cbn [tree cwd] in Hmade, Hrun.
  eexists. split; [exact Hrun |]. cbn [cwd tree].
  split; [reflexivity |]. split; [apply lookup_insert_eq |]. split.
  - intros k Hk HkD. rewrite lookup_insert_ne by congruence.
    rewrite (made_dirs_off _ _ _ _ _ Hmade).
    + unfold t1. rewrite lookup_removed.
      destruct (decide (D `prefix_of` k)); [reflexivity | contradiction].
    + intros Hp. apply HpD. transitivity k; assumption.
  - intros k Hk.
    rewrite lookup_insert_ne by (intros <-; apply Hk; reflexivity).
    destruct (decide (k `prefix_of` parent D)) as [Hp | Hp].
    + destruct (tree fs !! k) as [nd|] eqn:E.
      * left. destruct Hmade as (Ha & _). apply Ha. unfold t1. rewrite lookup_removed.
        destruct (decide (D `prefix_of` k)); [contradiction | exact E].
      * destruct (t2 !! k) as [nd|] eqn:E2; [| auto]. right.
        destruct Hmade as (_ & Hb & _).
        destruct (Hb _ _ E2) as [Hold | (-> & _ & _ & _)].
        -- unfold t1 in Hold. rewrite lookup_removed in Hold.
           destruct (decide (D `prefix_of` k)); congruence.
        -- split; [reflexivity |]. split; [reflexivity | exact (Hup k Hp)].
    + left. rewrite (made_dirs_off _ _ _ _ _ Hmade Hp). unfold t1. rewrite lookup_removed.
      destruct (decide (D `prefix_of` k)); [contradiction | reflexivity].
Qed.

(** Replicating from a source that is not there once the destination has
    been removed: the call fails, and the destination stays removed. *)
Lemma replicateTree_source_gone src dst config fs n :
  no_symlinks (tree fs) ->
  last (Split Separator dst) = Some n -> plain_element n ->
  locate fs dst `prefix_of` locate fs src \/
    lookup_node (tree fs) (locate fs src) = None ->
  exists err fs',
    replicateTree src dst config fs = (Err err, fs') /\
    cwd fs' = cwd fs /\
    forall k, tree fs' !! k =
              if decide (locate fs dst `prefix_of` k) then None else tree fs !! k.
Proof.
  intros Hs Hlast Hn Hgone.
  pose proof (locate_Dir_name fs dst n Hlast Hn) as Hname.
  set (S := locate fs src) in *. set (D := locate fs dst) in *.
  unfold replicateTree. rewrite (RemoveAll_ok dst n fs Hlast Hn). fold D.
  set (t1 := filter (fun kv : location * node => ~ D `prefix_of` kv.1) (tree fs)).
  assert (Hs1 : no_symlinks t1) by (apply no_symlinks_removed; exact Hs).
  assert (Hsrc1 : lookup_node t1 S = None).
  { destruct Hgone as [HDS | Hnone].
    - assert (HS0 : S <> []).
      { intros E. rewrite E in HDS. apply prefix_nil_inv in HDS.
        rewrite HDS in Hname. destruct (locate fs (Dir dst)); discriminate. }
      rewrite (lookup_node_ne _ _ HS0). unfold t1. rewrite lookup_removed.
      destruct (decide (D `prefix_of` S)); [reflexivity | contradiction].
    - destruct S as [|x k] eqn:ES; [discriminate |]. cbn [lookup_node] in *.
      unfold t1. rewrite lookup_removed.
      destruct (decide (D `prefix_of` x :: k)); [reflexivity | exact Hnone]. }
  unfold bind, EvalSymlinks, query. cbn [tree].
  change (locate (mkFs (cwd fs) t1) src) with S.
  rewrite (follow_no_symlinks _ _ _ Hs1), Hsrc1.
  eexists _, _. split; [reflexivity |]. split; [reflexivity |].
  intros k. cbn [tree]. apply lookup_removed.
Qed.

End CopyFacts.

(* ===================================================================== *)
(** * Further properties of the environment layer *)
(* ===================================================================== *)

Section MoreEnvFacts.

Import filepath os Builders Notions Shapes.

(** splitArgs *)
Lemma splitArgs_no_separator args :
  "--" ∉ args -> splitArgs args = (args, []).
Proof.
  induction args as [|a args IH]; [reflexivity |].
  intros Hn. cbn [splitArgs].
  destruct (String.eqb_spec a "--") as [-> | _].
  - exfalso. apply Hn. apply elem_of_cons. auto.
  - rewrite IH; [reflexivity |]. intros H. apply Hn. apply elem_of_cons. auto.
Qed.

(** X1. [splitArgs] cuts the arguments at the first "--": what stands before
    it goes to the builder, and what stands after it goes to the tool, later
    "--" included; without a "--" everything goes to the builder and nothing
    to the tool. The builder's part never holds a "--", and the arguments are
    the builder's part, or the builder's part, "--" and the tool's part. *)
Theorem splitArgs_cuts_at_first_separator (args : list string) :
  (forall builderArgs toolArgs,
     "--" ∉ builderArgs ->
     splitArgs (builderArgs ++ "--" :: toolArgs) = (builderArgs, toolArgs)) /\
  ("--" ∉ args -> splitArgs args = (args, [])) /\
  ("--" ∉ fst (splitArgs args)) /\
  (args = fst (splitArgs args) \/
   args = fst (splitArgs args) ++ "--" :: snd (splitArgs args)).
Proof.
  split; [| split; [apply splitArgs_no_separator |]].
  - intros b t. induction b as [|a b IH]; intros Hn; [reflexivity |].
    cbn [app splitArgs].
    destruct (String.eqb_spec a "--") as [-> | _].
    + exfalso. apply Hn. apply elem_of_cons. auto.
    + rewrite IH; [reflexivity |]. intros H. apply Hn. apply elem_of_cons. auto.
  - induction args as [|a args [IH1 IH2]]; [split; [apply not_elem_of_nil | auto] |].
    cbn [splitArgs]. destruct (String.eqb_spec a "--") as [-> | Hne].
    + split; [apply not_elem_of_nil | right; reflexivity].
    + destruct (splitArgs args) as [b t]. cbn [fst snd] in *. split.
      * intros [E | H]%elem_of_cons; [congruence | contradiction].
      * destruct IH2 as [-> | ->]; [left | right]; reflexivity.
Qed.

(** ** Parameter files *)

Lemma lines_from_line line a rest :
  free_of LF a = true ->
  lines_from line (a +:+ String LF rest) = (line +:+ a) :: lines_from "" rest.
Proof.
  revert line. induction a as [|x a IH]; intros line Hf.
  - rewrite string_app_nil_l, string_app_nil_r. cbn [lines_from].
    rewrite Ascii.eqb_refl. reflexivity.
  - cbn [free_of] in Hf. apply andb_true_iff in Hf as [Hx Ha].
    apply negb_true_iff in Hx.
    rewrite string_app_cons. cbn [lines_from]. rewrite Hx, (IH _ Ha).
    rewrite string_app_assoc. reflexivity.
Qed.

Lemma lines_of_params_file args :
  Forall (fun a => free_of LF a = true) args -> lines_of (params_file_of args) = args.
Proof.
  unfold lines_of. induction args as [|a args IH]; intros Hall; [reflexivity |].
  inversion Hall as [|? ? Ha Hrest]; subst. cbn [params_file_of].
  rewrite (lines_from_line "" a _ Ha), string_app_nil_l, (IH Hrest). reflexivity.
Qed.

(** X2. A parameter file that holds one argument on each line, every line
    ended by a line feed, is read back as exactly these arguments: an empty
    argument is kept, and an argument that itself starts with -param= is
    taken as it is, not expanded again. *)
Theorem params_file_round_trip (args : list string) (name : string) (fs : filesys)
    (Hlines : Forall (fun a => free_of LF a = true) args)
    (Hread : fst (ReadFile name fs) = Ok (params_file_of args)) :
  fileArgs_of (params_file_of args) = Ok args /\
  readParamsFiles ["-param=" +:+ name] fs = (Ok args, fs).
Proof.
  split.
  - rewrite fileArgs_of_lines, (lines_of_params_file args Hlines). reflexivity.
  - unfold readParamsFiles.
    change (paramsIndices_from 0 ["-param=" +:+ name]) with [0]. cbn [List.length Nat.eqb].
    pose proof (expand_params_from (fun _ => params_file_of args) fs
                  ["-param=" +:+ name] ["-param=" +:+ name] [] [] 0 eq_refl (Nat.le_refl _))
      as H.
    cbn [List.length app] in H.
    change (paramsIndices_from 0 ["-param=" +:+ name]) with [0] in H.
    rewrite H.
    + rewrite slice_empty. cbn [flat_map app]. unfold expand_argument.
      change (HasPrefix ("-param=" +:+ name) "-param=") with true. cbn iota.
      rewrite (lines_of_params_file args Hlines), app_nil_r. reflexivity.
    + intros arg [-> | Hin]%elem_of_cons _; [exact Hread | inversion Hin].
Qed.

Lemma expand_params_fails (fs : filesys) (args : list string) (a : string) (post : list string)
    (e : error) :
  HasPrefix a "-param=" = true ->
  fst (ReadFile (slice_from 7 a) fs) = Err e ->
  forall pre pre0 acc lo,
    args = pre0 ++ pre ++ a :: post ->
    (forall b, b ∈ pre -> HasPrefix b "-param=" = true ->
       is_ok (fst (ReadFile (slice_from 7 b) fs)) = true) ->
    expand_params args (paramsIndices_from (List.length pre0) (pre ++ a :: post)) acc lo fs
    = (Err e, fs).
Proof.
  intros Hp Hfail. induction pre as [|b pre IH]; intros pre0 acc lo Hargs Hok.
  - cbn [app paramsIndices_from]. rewrite Hp. cbn [expand_params].
    replace (nth (List.length pre0) args "") with a.
    2:{ symmetry. apply nth_lookup_Some with (d := "").
        rewrite Hargs, lookup_app_r, Nat.sub_diag by lia. reflexivity. }
    change (String.length "-param=") with 7. unfold bind.
    pose proof (ReadFile_keeps_state (slice_from 7 a) fs) as Hst.
    destruct (ReadFile (slice_from 7 a) fs) as [r fs']. cbn [fst snd] in *.
    subst r fs'. reflexivity.
  - assert (Hnext : args = (pre0 ++ [b]) ++ pre ++ a :: post).
    { rewrite <- app_assoc. exact Hargs. }
    assert (Hok' : forall b', b' ∈ pre -> HasPrefix b' "-param=" = true ->
              is_ok (fst (ReadFile (slice_from 7 b') fs)) = true).
    { intros b' Hin. apply Hok. apply elem_of_cons. auto. }
    cbn [app paramsIndices_from].
    destruct (HasPrefix b "-param=") eqn:Hb.
    + cbn [expand_params].
      replace (nth (List.length pre0) args "") with b.
      2:{ symmetry. apply nth_lookup_Some with (d := "").
          rewrite Hargs, lookup_app_r, Nat.sub_diag by lia. reflexivity. }
      change (String.length "-param=") with 7. unfold bind.
      pose proof (Hok b ltac:(apply elem_of_cons; auto) Hb) as Hr.
      pose proof (ReadFile_keeps_state (slice_from 7 b) fs) as Hst.
      destruct (ReadFile (slice_from 7 b) fs) as [[content|err] fs']; [| discriminate].
      cbn [snd] in Hst. subst fs'. rewrite fileArgs_of_lines.
      specialize (IH (pre0 ++ [b])). rewrite length_app in IH. cbn [List.length] in IH.
      replace (List.length pre0 + 1) with (Datatypes.S (List.length pre0)) in IH by lia.
      apply IH; assumption.
    + specialize (IH (pre0 ++ [b])). rewrite length_app in IH. cbn [List.length] in IH.
      replace (List.length pre0 + 1) with (Datatypes.S (List.length pre0)) in IH by lia.
      apply IH; assumption.
Qed.

(** X3. When the file of a -param= argument cannot be read, and the files of
    the -param= arguments before it can, [readParamsFiles] answers the error
    of that read and no argument list, whatever follows; the file system is
    as it was. *)
Theorem readParamsFiles_fails_on_first_unreadable
    (fs : filesys) (pre post : list string) (a : string) (e : error)
    (Hparam : HasPrefix a "-param=" = true)
    (Hfail : fst (ReadFile (slice_from 7 a) fs) = Err e)
    (Hbefore : forall b, b ∈ pre -> HasPrefix b "-param=" = true ->
       is_ok (fst (ReadFile (slice_from 7 b) fs)) = true) :
  readParamsFiles (pre ++ a :: post) fs = (Err e, fs).
Proof.
  pose proof (expand_params_fails fs (pre ++ a :: post) a post e Hparam Hfail
                pre [] [] 0 eq_refl Hbefore) as H.
  cbn [List.length app] in H. unfold readParamsFiles.
  destruct (paramsIndices_from 0 (pre ++ a :: post)) as [|i idx]; [discriminate |].
  cbn [List.length Nat.eqb]. unfold bind. rewrite H. reflexivity.
Qed.

(** ** Absolute paths, again *)

Lemma absolute_not_sentinel q : IsAbs q = true -> HasPrefix q "__BAZEL_" = false.
Proof.
  destruct q as [|a q]; [discriminate |]. rewrite IsAbs_cons.
  intros Ha. apply Ascii.eqb_eq in Ha. subst a. reflexivity.
Qed.

Lemma abs_of_absolute Getwd q : IsAbs q = true -> abs Getwd q = Clean q.
Proof.
  intros Hq. unfold abs, Abs. rewrite (absolute_not_sentinel q Hq), Hq. reflexivity.
Qed.

(** X4. [abs] applied to its own result changes nothing, when the working
    directory is an absolute path or cannot be determined. *)
Theorem abs_idempotent (Getwd : res string) (path : string)
    (Hwd : match Getwd with Ok wd => IsAbs wd = true | Err _ => True end) :
  abs Getwd (abs Getwd path) = abs Getwd path.
Proof.
  unfold abs at 2 3. destruct (HasPrefix path "__BAZEL_") eqn:Hs.
  - unfold abs. rewrite Hs. reflexivity.
  - unfold Abs. destruct (IsAbs path) eqn:Hp.
    + rewrite abs_of_absolute by (rewrite IsAbs_Clean_eq; exact Hp).
      apply Clean_idempotent.
    + destruct Getwd as [wd|err].
      * rewrite abs_of_absolute by (apply IsAbs_Join; exact Hwd).
        rewrite (Join_two wd path) by (intros ->; discriminate).
        apply Clean_idempotent.
      * unfold abs, Abs. rewrite Hs, Hp. reflexivity.
Qed.

(** X5. [abs] keeps the place a path names. When the kernel finds the place
    of a path by passing directories only, no symbolic link on the way, and
    the working directory is given by an absolute path that names it in the
    same way, the kernel finds the same place for the result of [abs], again
    by passing directories only. *)
Theorem abs_keeps_meaning (fs : filesys) (wd path : string) (k : location)
    (Habs : IsAbs wd = true)
    (Hwd : reaches fs wd = Some (cwd fs))
    (Hpath : reaches fs path = Some k) :
  reaches fs (abs (Ok wd) path) = Some k.
Proof.
  unfold abs. destruct (HasPrefix path "__BAZEL_"); [exact Hpath |].
  unfold Abs. destruct (IsAbs path) eqn:Hp; [apply reaches_Clean; exact Hpath |].
  assert (Hne : wd <> "") by (intros ->; discriminate).
  rewrite (Join_two wd path Hne). apply reaches_Clean.
  unfold reaches in Hwd, Hpath |- *. rewrite Habs in Hwd. rewrite Hp in Hpath.
  destruct (String.eqb_spec wd "") as [| _]; [contradiction |].
  destruct (String.eqb_spec path "") as [| _]; [discriminate |].
  rewrite (IsAbs_app_nonempty wd _ Hne), Habs.
  destruct (String.eqb_spec (wd +:+ String Separator path) "") as [E | _].
  { destruct wd; [contradiction | discriminate E]. }
  rewrite Split_app, search_app, Hwd. exact Hpath.
Qed.

End MoreEnvFacts.

Section CommandFacts.

Import filepath os Builders Notions Commands Shapes.

(** ** The environment *)

Lemma Getenv_put_eq key value env : Getenv key (put key value env) = value.
Proof.
  induction env as [|[k v] env IH]; cbn [put Getenv].
  - rewrite String.eqb_refl. reflexivity.
  - destruct (String.eqb_spec k key) as [-> | Hne]; cbn [Getenv].
    + rewrite String.eqb_refl. reflexivity.
    + destruct (String.eqb_spec k key); [contradiction | exact IH].
Qed.

Lemma Getenv_put_ne key value env key' :
  key <> key' -> Getenv key' (put key value env) = Getenv key' env.
Proof.
  intros Hne. induction env as [|[k v] env IH]; cbn [put Getenv].
  - destruct (String.eqb_spec key key'); [contradiction | reflexivity].
  - destruct (String.eqb_spec k key) as [-> | Hk]; cbn [Getenv].
    + destruct (String.eqb_spec key key'); [contradiction | reflexivity].
    + rewrite IH. reflexivity.
Qed.

Lemma put_names key value env key' :
  key' ∈ (fst <$> put key value env) <-> key' = key \/ key' ∈ (fst <$> env).
Proof.
  induction env as [|[k v] env IH]; cbn [put fmap list_fmap fst].
  - rewrite list_elem_of_singleton, elem_of_nil. tauto.
  - destruct (String.eqb_spec k key) as [-> | Hk]; cbn [fmap list_fmap fst].
    + rewrite !elem_of_cons. tauto.
    + rewrite !elem_of_cons. fold (fmap (M := list) (@fst string string)).
      rewrite IH. tauto.
Qed.

Lemma Setenv_settable key value env :
  settable key value -> Setenv key value env = Ok (put key value env).
Proof.
  intros (H0 & H1 & H2 & H3). unfold Setenv. rewrite H1, H2, H3.
  destruct (String.eqb_spec key ""); [contradiction | reflexivity].
Qed.

(** X6. [absEnv] rewrites each variable it is given, and only those. For
    distinct names that [os.Setenv] accepts with their new values, the call
    succeeds; afterwards each listed variable is set, also one that was not
    set before, and holds the fields of its former value, path values made
    absolute by [absArgs], joined by single spaces; every other variable is
    set or not as before, with the value it had. *)
Theorem absEnv_rewrites_listed_variables
    (Getwd : res string) (envNameList argList : list string) (env : environ)
    (Hdistinct : NoDup envNameList)
    (Hsettable : forall name, name ∈ envNameList ->
       settable name (absolutized Getwd argList (Getenv name env))) :
  exists env',
    absEnv Getwd envNameList argList env = (None, env') /\
    (forall name, name ∈ envNameList ->
       Getenv name env' = absolutized Getwd argList (Getenv name env) /\
       name ∈ (fst <$> env')) /\
    (forall key, key ∉ envNameList ->
       Getenv key env' = Getenv key env /\
       (key ∈ (fst <$> env') <-> key ∈ (fst <$> env))).
Proof.
  revert env Hsettable. induction envNameList as [|name rest IH]; intros env Hset.
  - exists env. split; [reflexivity |]. split; [intros name H; inversion H | tauto].
  - apply NoDup_cons in Hdistinct as [Hnotin Hrest].
    cbn [absEnv]. fold (absolutized Getwd argList (Getenv name env)).
    rewrite (Setenv_settable _ _ env (Hset name ltac:(apply elem_of_cons; auto))).
    set (env1 := put name (absolutized Getwd argList (Getenv name env)) env).
    assert (Hne : forall key, key ∈ rest -> name <> key).
    { intros key Hin ->. contradiction. }
    destruct (IH Hrest env1) as (env' & Hrun & Hlisted & Hother).
    { intros key Hin. unfold env1. rewrite Getenv_put_ne by exact (Hne key Hin).
      apply Hset. apply elem_of_cons. auto. }
    exists env'. split; [exact Hrun |]. split.
    + intros key [-> | Hin]%elem_of_cons.
      * destruct (Hother name Hnotin) as [Hv Hk]. split.
        -- rewrite Hv. apply Getenv_put_eq.
        -- apply Hk. apply put_names. auto.
      * destruct (Hlisted key Hin) as [Hv Hk]. split; [| exact Hk].
        rewrite Hv. unfold env1. rewrite Getenv_put_ne by exact (Hne key Hin). reflexivity.
    + intros key Hkey.
      assert (Hk1 : name <> key) by (intros ->; apply Hkey; apply elem_of_cons; auto).
      assert (Hk2 : key ∉ rest) by (intros H; apply Hkey; apply elem_of_cons; auto).
      destruct (Hother key Hk2) as [Hv Hk]. split.
      * rewrite Hv. apply Getenv_put_ne. exact Hk1.
      * rewrite Hk. unfold env1. rewrite put_names. split; [| auto].
        intros [-> | H]; [congruence | exact H].
Qed.

(** ** The tools of the SDK *)

Lemma Join_first_rest a names :
  names <> [] -> Forall (fun x => x <> "") names ->
  Join (a :: names) = Join [a; String.concat "/" names].
Proof.
  intros Hne Hall. destruct names as [|x names]; [congruence |].
  inversion Hall as [|? ? Hx _]; subst.
  assert (Hc : String.concat "/" (x :: names) <> "").
  { apply concat_not_empty; [discriminate | exact Hall]. }
  cbn [Join]. destruct (String.eqb_spec a "").
  - destruct (String.eqb_spec x ""); [contradiction |].
    destruct (String.eqb_spec (String.concat "/" (x :: names)) ""); [contradiction |].
    reflexivity.
  - reflexivity.
Qed.

(** X7. On a host other than Windows, [goTool] answers the tool's path
    followed by the arguments as given, and [goCmd] the path of the go
    command, the subcommand and the arguments as given; the tool's path leads
    to pkg/tool/GOOS_GOARCH/name below the place the -sdk path leads to, and
    the path of the go command to bin/go below it (below the working
    directory when -sdk is empty). *)
Theorem goTool_and_goCmd_lead_below_sdk
    (GOOS GOARCH : string) (e : env) (name : string) (args : list string) (fs : filesys)
    (Hunix : GOOS <> "windows")
    (Hplatform : plain_element (GOOS +:+ "_" +:+ GOARCH))
    (Hname : plain_element name) :
  (exists toolPath,
     goTool GOOS GOARCH e name args = toolPath :: args /\
     locate fs toolPath =
       locate fs (sdk e) ++ ["pkg"; "tool"; GOOS +:+ "_" +:+ GOARCH; name]) /\
  (exists exe,
     goCmd GOOS e name args = exe :: name :: args /\
     locate fs exe = locate fs (sdk e) ++ ["bin"; "go"]).
Proof.
  assert (Hpkg : plain_element "pkg") by (repeat split; discriminate).
  assert (Htool : plain_element "tool") by (repeat split; discriminate).
  assert (Hbin : plain_element "bin") by (repeat split; discriminate).
  assert (Hgo : plain_element "go") by (repeat split; discriminate).
  unfold goTool, goCmd.
  destruct (String.eqb_spec GOOS "windows"); [contradiction |].
  split; eexists; (split; [reflexivity |]).
  - rewrite Join_first_rest.
    + apply locate_Join_names; [discriminate |].
      repeat (constructor; [assumption |]). constructor.
    + discriminate.
    + apply plain_not_empty. repeat (constructor; [assumption |]). constructor.
  - rewrite Join_first_rest.
    + apply locate_Join_names; [discriminate |].
      repeat (constructor; [assumption |]). constructor.
    + discriminate.
    + apply plain_not_empty. repeat (constructor; [assumption |]). constructor.
Qed.

(** ** Printing a command *)

Lemma IndexByte_None s c : IndexByte s c = None <-> free_of c s = true.
Proof.
  induction s as [|a s IH]; cbn [IndexByte free_of]; [tauto |].
  destruct (Ascii.eqb a c); cbn [negb andb]; [split; discriminate |].
  destruct (IndexByte s c); cbn [option_map]; [| tauto].
  split; [discriminate |]. intros H. apply IH in H. discriminate.
Qed.

Lemma IndexByte_first key c rest :
  free_of c key = true ->
  IndexByte (key +:+ String c rest) c = Some (String.length key) /\
  slice_to (String.length key) (key +:+ String c rest) = key /\
  slice_from (String.length key + 1) (key +:+ String c rest) = rest.
Proof.
  induction key as [|a key IH]; intros Hf.
  - rewrite string_app_nil_l. cbn. rewrite Ascii.eqb_refl. auto.
  - cbn [free_of] in Hf. apply andb_true_iff in Hf as [Ha Hk].
    apply negb_true_iff in Ha. destruct (IH Hk) as (H1 & H2 & H3).
    rewrite string_app_cons. cbn [IndexByte String.length slice_to slice_from Nat.add].
    rewrite Ha, H1, H2, H3. auto.
Qed.

Section Printing.

Variable Quote : string -> string.

Lemma quoteIfNeeded_spec s :
  quoteIfNeeded Quote s = if free_of " " s then s else Quote s.
Proof.
  unfold quoteIfNeeded. pose proof (IndexByte_None s " ") as H.
  destruct (IndexByte s " "), (free_of " " s); try reflexivity.
  - destruct H as [_ H]. discriminate (H eq_refl).
  - destruct H as [H _]. discriminate (H eq_refl).
Qed.

Lemma format_args_spec sep args :
  format_args Quote sep args =
  match args with
  | [] => ""
  | _ => sep +:+ String.concat " " (map (quoteIfNeeded Quote) args)
  end.
Proof.
  revert sep. induction args as [|a args IH]; intros sep; [reflexivity |].
  cbn [format_args map]. rewrite IH. destruct args as [|b args].
  - cbn [map String.concat]. rewrite string_app_nil_r. reflexivity.
  - cbn [map]. rewrite concat_cons_cons. reflexivity.
Qed.

(** X8. [formatCommand] quotes exactly what holds a space. It writes one
    line for each environment entry (those of the command, or of the process
    when the command has none), ended by a space and a backslash, and then
    the arguments separated by single spaces on one line; an argument is
    quoted as a whole when it holds a space and written as it is otherwise;
    of an entry name=value only the value is quoted, when the value holds a
    space, and an entry without "=" is written as it is. *)
Theorem formatCommand_quotes_what_has_a_space (os_Environ : list string) (cmd : Cmd) :
  let shown (arg : string) := if free_of " " arg then arg else Quote arg in
  formatCommand Quote os_Environ cmd =
    String.concat ""
      (map (fun e => quoteEnvIfNeeded Quote e +:+ line_break)
           (default os_Environ (Env cmd)))
    +:+ String.concat " " (map shown (Args cmd)) +:+ String LF "" /\
  (forall key value, free_of "=" key = true ->
     quoteEnvIfNeeded Quote (key +:+ "=" +:+ value) = key +:+ "=" +:+ shown value) /\
  (forall entry, free_of "=" entry = true -> quoteEnvIfNeeded Quote entry = entry).
Proof.
  cbn zeta. split; [| split].
  - unfold formatCommand. rewrite format_args_spec.
    assert (Hmap : map (quoteIfNeeded Quote) (Args cmd) =
                   map (fun arg => if free_of " " arg then arg else Quote arg) (Args cmd)).
    { apply map_ext. intros a. apply quoteIfNeeded_spec. }
    rewrite Hmap. destruct (Env cmd); cbn [default];
      destruct (Args cmd); reflexivity.
  - intros key value Hkey. unfold quoteEnvIfNeeded.
    change (key +:+ "=" +:+ value) with (key +:+ String "=" value).
    destruct (IndexByte_first key "=" value Hkey) as (-> & -> & ->).
    pose proof (IndexByte_None value " ") as H.
    destruct (IndexByte value " "), (free_of " " value); try reflexivity.
    + destruct H as [_ H]. discriminate (H eq_refl).
    + destruct H as [H _]. discriminate (H eq_refl).
  - intros entry Hentry. unfold quoteEnvIfNeeded.
    apply IndexByte_None in Hentry. rewrite Hentry. reflexivity.
Qed.

End Printing.

End CommandFacts.

(* ===================================================================== *)
(** * Further properties of the replication engine *)
(* ===================================================================== *)

Section OptionFacts.

Import filepath os Builders Notions Shapes.

Lemma configure_from (kinds : list option_kind) (c : replicateConfig) :
  fold_left (fun config option => option config) (map option_of kinds) c =
  {| removeFirst := removeFirst c; fileMode := fileMode c; dirMode := dirMode c;
     paths := paths c ++ flat_map paths_of kinds;
     zip := default (zip c) (last (omap zip_of kinds)) |}.
Proof.
  revert c. induction kinds as [|k kinds IH]; intros c.
  - cbn. rewrite app_nil_r. destruct c; reflexivity.
  - cbn [map fold_left]. rewrite IH. destruct k as [ps | z]; cbn.
    + rewrite <- app_assoc. reflexivity.
    + destruct (omap zip_of kinds) as [|z' l] eqn:E; [reflexivity |].
      rewrite last_cons_cons. cbn.
      destruct (last (z' :: l)) eqn:El; [reflexivity |].
      apply last_None in El. discriminate.
Qed.

(** X9. The options compose: the configuration [replicate] builds from any
    list of the two options the engine defines has the paths of all
    [replicatePaths] options, in order, and the archive of the last
    [replicateFromZip] option (none for the empty name); removeFirst is
    always set and both modes are always the copy mode, so [replicate] never
    links. *)
Theorem replicate_options_compose (kinds : list option_kind) :
  configure (map option_of kinds) =
  {| removeFirst := true; fileMode := copyMode; dirMode := copyMode;
     paths := flat_map paths_of kinds;
     zip := default "" (last (omap zip_of kinds)) |}.
Proof. unfold configure. rewrite configure_from. reflexivity. Qed.

End OptionFacts.

Section FilesystemModeFacts.

Import filepath os Builders Notions Shapes.

(** X10. Replicating a directory by copying succeeds and brings every file
    across. On a tree without symbolic links in which every entry lies in a
    directory and the working directory is there, for clean paths of a source
    directory and a destination that do not contain one another, and with
    nothing but directories on the way to the destination: every regular file
    below the source is afterwards at the same relative place below the
    destination with the same bytes and permission bits, in directories that
    lead to it from the destination; the source tree itself is untouched. *)
Theorem filesystem_mode_copies_every_file
    (src dst : string) (config : replicateConfig) (fs : filesys) (n : string)
    (Hfile : fileMode config = copyMode) (Hdir : dirMode config = copyMode)
    (Hlinks : no_symlinks (tree fs)) (Hshaped : tree_shaped (tree fs))
    (Hshallow : shallow (tree fs))
    (Hcwd : lookup_node (tree fs) (cwd fs) = Some NDir)
    (Hclean_src : Clean src = src) (Hclean_dst : Clean dst = dst)
    (Hsrc : lookup_node (tree fs) (locate fs src) = Some NDir)
    (Hlast : last (Split Separator dst) = Some n) (Hn : plain_element n)
    (Hsd : ~ locate fs src `prefix_of` locate fs dst)
    (Hds : ~ locate fs dst `prefix_of` locate fs src)
    (Hway : forall k, k `prefix_of` locate fs dst -> k <> locate fs dst -> k <> [] ->
       tree fs !! k = None \/ tree fs !! k = Some NDir) :
  exists fs',
    replicateTree src dst config fs = (Ok tt, fs') /\
    (forall r data perm,
       tree fs !! (locate fs src ++ r) = Some (NFile data perm) ->
       tree fs' !! (locate fs dst ++ r) = Some (NFile data perm) /\
       forall q, q `prefix_of` r -> q <> r ->
         tree fs' !! (locate fs dst ++ q) = Some NDir) /\
    (forall k, locate fs src `prefix_of` k -> tree fs' !! k = tree fs !! k).
Proof.
  destruct (replicateTree_directory src dst config fs n Hfile Hdir Hlinks Hshaped Hshallow
              Hsrc Hlast Hn Hsd Hds Hway) as (fs' & Hrun & _ & Hcopied & _ & Hrest).
  exists fs'. split; [exact Hrun |]. split; [exact Hcopied |].
  intros k Hk.
  assert (Hout : ~ locate fs dst `prefix_of` k).
  { intros HD. destruct (prefix_weak_total _ _ _ Hk HD); contradiction. }
  destruct (Hrest k Hout) as [E | (_ & _ & Hp)]; [exact E |].
  exfalso. apply Hsd. transitivity k; assumption.
Qed.

(** X11. Replicating a directory by copying brings nothing but the files:
    under the same conditions (a tree without symbolic links, every entry in
    a directory, the working directory there, clean paths that do not contain
    one another, directories on the way), whatever is at or below the
    destination
    afterwards is the copy of a file of the source, or a directory above such
    a copy. What was there before is gone, a source directory with no file
    anywhere below it is not replicated, and a source without any file
    leaves nothing at the destination, not even the destination itself. *)
Theorem filesystem_mode_replicates_files_only
    (src dst : string) (config : replicateConfig) (fs : filesys) (n : string)
    (Hfile : fileMode config = copyMode) (Hdir : dirMode config = copyMode)
    (Hlinks : no_symlinks (tree fs)) (Hshaped : tree_shaped (tree fs))
    (Hshallow : shallow (tree fs))
    (Hcwd : lookup_node (tree fs) (cwd fs) = Some NDir)
    (Hclean_src : Clean src = src) (Hclean_dst : Clean dst = dst)
    (Hsrc : lookup_node (tree fs) (locate fs src) = Some NDir)
    (Hlast : last (Split Separator dst) = Some n) (Hn : plain_element n)
    (Hsd : ~ locate fs src `prefix_of` locate fs dst)
    (Hds : ~ locate fs dst `prefix_of` locate fs src)
    (Hway : forall k, k `prefix_of` locate fs dst -> k <> locate fs dst -> k <> [] ->
       tree fs !! k = None \/ tree fs !! k = Some NDir) :
  exists fs',
    replicateTree src dst config fs = (Ok tt, fs') /\
    (forall r nd,
       tree fs' !! (locate fs dst ++ r) = Some nd ->
       (exists data perm, nd = NFile data perm /\
          tree fs !! (locate fs src ++ r) = Some (NFile data perm)) \/
       (nd = NDir /\
        exists r' data perm, r `prefix_of` r' /\ r' <> r /\
          tree fs !! (locate fs src ++ r') = Some (NFile data perm))) /\
    ((forall r data perm, tree fs !! (locate fs src ++ r) <> Some (NFile data perm)) ->
     forall r, tree fs' !! (locate fs dst ++ r) = None).
Proof.
  destruct (replicateTree_directory src dst config fs n Hfile Hdir Hlinks Hshaped Hshallow
              Hsrc Hlast Hn Hsd Hds Hway) as (fs' & Hrun & _ & _ & Hmirror & _).
  exists fs'. split; [exact Hrun |]. split.
  - intros r nd Hr.
    destruct (Hmirror r nd Hr) as [(d & p & -> & Hf) | (-> & r' & d & p & H1 & H2 & H3)].
    + left. eauto.
    + right. split; [reflexivity |]. eauto 6.
  - intros Hnone r. destruct (tree fs' !! (locate fs dst ++ r)) as [nd|] eqn:E; [| reflexivity].
    exfalso.
    destruct (Hmirror r nd E) as [(d & p & -> & Hf) | (-> & r' & d & p & _ & _ & Hf)];
      exact (Hnone _ _ _ Hf).
Qed.

(** X12. Replicating a directory by copying leaves the rest of the file
    system alone: under the same conditions (a tree without symbolic links,
    every entry in a directory, the working directory there, clean paths that
    do not contain one another, directories on the way) the working directory
    is kept,
    and a place that is not at or below the destination holds what it held
    before, except that the directories above the destination are made where
    they were missing. *)
Theorem filesystem_mode_leaves_the_rest
    (src dst : string) (config : replicateConfig) (fs : filesys) (n : string)
    (Hfile : fileMode config = copyMode) (Hdir : dirMode config = copyMode)
    (Hlinks : no_symlinks (tree fs)) (Hshaped : tree_shaped (tree fs))
    (Hshallow : shallow (tree fs))
    (Hcwd : lookup_node (tree fs) (cwd fs) = Some NDir)
    (Hclean_src : Clean src = src) (Hclean_dst : Clean dst = dst)
    (Hsrc : lookup_node (tree fs) (locate fs src) = Some NDir)
    (Hlast : last (Split Separator dst) = Some n) (Hn : plain_element n)
    (Hsd : ~ locate fs src `prefix_of` locate fs dst)
    (Hds : ~ locate fs dst `prefix_of` locate fs src)
    (Hway : forall k, k `prefix_of` locate fs dst -> k <> locate fs dst -> k <> [] ->
       tree fs !! k = None \/ tree fs !! k = Some NDir) :
  exists fs',
    replicateTree src dst config fs = (Ok tt, fs') /\
    cwd fs' = cwd fs /\
    (forall k, ~ locate fs dst `prefix_of` k ->
       tree fs' !! k = tree fs !! k \/
       (tree fs !! k = None /\ tree fs' !! k = Some NDir /\
        k `prefix_of` locate fs dst)).
Proof.
  destruct (replicateTree_directory src dst config fs n Hfile Hdir Hlinks Hshaped Hshallow
              Hsrc Hlast Hn Hsd Hds Hway) as (fs' & Hrun & Hkeep & _ & _ & Hrest).
  exists fs'. auto.
Qed.

(** X13. Replicating a single file by copying: on a tree without symbolic
    links in which every entry lies in a directory and the working directory
    is there, for clean paths, with nothing but directories on the way to the
    destination, when the source is a regular file that does not lie at or
    below the destination, the call succeeds,
    the destination is a regular file with the bytes and permission bits of
    the source, everything that was below the destination is gone, and the
    rest is as before with the missing directories above the destination
    made. *)
Theorem filesystem_mode_copies_single_file
    (src dst : string) (config : replicateConfig) (fs : filesys) (n : string)
    (data : string) (perm : N)
    (Hfile : fileMode config = copyMode)
    (Hlinks : no_symlinks (tree fs)) (Hshaped : tree_shaped (tree fs))
    (Hcwd : lookup_node (tree fs) (cwd fs) = Some NDir)
    (Hclean_src : Clean src = src) (Hclean_dst : Clean dst = dst)
    (Hsrc : lookup_node (tree fs) (locate fs src) = Some (NFile data perm))
    (Hlast : last (Split Separator dst) = Some n) (Hn : plain_element n)
    (Hds : ~ locate fs dst `prefix_of` locate fs src)
    (Hway : forall k, k `prefix_of` locate fs dst -> k <> locate fs dst -> k <> [] ->
       tree fs !! k = None \/ tree fs !! k = Some NDir) :
  exists fs',
    replicateTree src dst config fs = (Ok tt, fs') /\
    cwd fs' = cwd fs /\
    tree fs' !! locate fs dst = Some (NFile data perm) /\
    (forall k, locate fs dst `prefix_of` k -> k <> locate fs dst -> tree fs' !! k = None) /\
    (forall k, ~ locate fs dst `prefix_of` k ->
       tree fs' !! k = tree fs !! k \/
       (tree fs !! k = None /\ tree fs' !! k = Some NDir /\
        k `prefix_of` locate fs dst)).
Proof.
  exact (replicateTree_file src dst config fs n data perm Hfile Hlinks Hsrc Hlast Hn Hds Hway).
Qed.

(** X14. The file-system replicator removes the destination before it looks
    at the source. On a tree without symbolic links in which every entry lies
    in a directory and the working directory is there, for clean paths: when
    the source lies at or below the destination (a tree
    replicated onto itself or onto a directory above it), or does not exist,
    the call fails, and the destination with everything below it has been
    removed; nothing else has changed. *)
Theorem filesystem_mode_removes_destination_first
    (src dst : string) (config : replicateConfig) (fs : filesys) (n : string)
    (Hlinks : no_symlinks (tree fs)) (Hshaped : tree_shaped (tree fs))
    (Hcwd : lookup_node (tree fs) (cwd fs) = Some NDir)
    (Hclean_src : Clean src = src) (Hclean_dst : Clean dst = dst)
    (Hlast : last (Split Separator dst) = Some n) (Hn : plain_element n)
    (Hgone : locate fs dst `prefix_of` locate fs src \/
             lookup_node (tree fs) (locate fs src) = None) :
  exists err fs',
    replicateTree src dst config fs = (Err err, fs') /\
    cwd fs' = cwd fs /\
    forall k, tree fs' !! k =
              if decide (locate fs dst `prefix_of` k) then None else tree fs !! k.
Proof.
  exact (replicateTree_source_gone src dst config fs n Hlinks Hlast Hn Hgone).
Qed.

End FilesystemModeFacts.

Section ArchiveModeFacts.

Import filepath os Builders Notions Shapes.

Variable OpenReader : string -> res (list zip_File).
Variable range_order : gset string -> list string.

Lemma Split_up x : Split Separator ("../" +:+ x) = ".." :: Split Separator x.
Proof.
  change ("../" +:+ x) with (".." +:+ String Separator x). rewrite Split_app. reflexivity.
Qed.

(** X16. The archive replicator takes the names of the entries as they are:
    the destination of an entry is the destination directory joined with the
    name, and an entry named "../x" that is selected is extracted to x in
    the directory above the destination, not below the destination. *)
Theorem zip_entry_name_can_leave_destination
    (src dst : string) (config : replicateConfig) (entries : list zip_File)
    (fs fs' : filesys) (i : nat) (f : zip_File) (n x : string)
    (Hopen : OpenReader (zip config) = Ok entries)
    (Hlinks : no_symlinks (tree fs))
    (Hrun : zipReplicator_Replicate OpenReader range_order src dst config fs = (Ok tt, fs'))
    (Hi : filter (fun f => zip_IsDir f = false)
            (filter (fun f => selected (paths config) f = true) entries) !! i = Some f)
    (Hlater : forall j g, i < j ->
       filter (fun f => zip_IsDir f = false)
         (filter (fun f => selected (paths config) f = true) entries) !! j = Some g ->
       locate fs (Join [dst; Name g]) <> locate fs (Join [dst; Name f]))
    (Hlast : last (Split Separator dst) = Some n) (Hn : plain_element n)
    (Hname : Name f = "../" +:+ x) (Hx : plain_element x) :
  exists data,
    body f = Ok data /\
    locate fs (Join [dst; Name f]) = parent (locate fs dst) ++ [x] /\
    tree fs' !! (parent (locate fs dst) ++ [x]) = Some (NFile data (attr_perm f)) /\
    forall r, r <> [] -> parent (locate fs dst) ++ [x] <> locate fs dst ++ r.
Proof.
  destruct (zip_mode_extracts_every_selected_file OpenReader range_order src dst config
              entries fs fs' i f Hopen Hlinks Hrun Hi Hlater) as (data & Hbody & Hat & _).
  pose proof (locate_Dir_name fs dst n Hlast Hn) as Hdst.
  rewrite (locate_Dir fs dst n Hlast Hn) in Hdst.
  destruct (ends_plain_not_dot dst n Hlast Hn) as [Hne _].
  assert (Hloc : locate fs (Join [dst; Name f]) = parent (locate fs dst) ++ [x]).
  { rewrite (locate_Join fs dst _ Hne), Hname, Split_up, (Split_free_of _ _ (proj1 Hx)).
    rewrite Hdst at 1. rewrite rev_app_distr. cbn [rev app fold_left].
    change (clean_step true (n :: ?st) "..")
      with (if String.eqb n ".." then ".." :: n :: st else st).
    destruct (String.eqb_spec n "..") as [E | _];
      [exfalso; exact (proj2 (proj2 (proj2 Hn)) E) |].
    rewrite (clean_step_plain _ _ _ Hx). cbn [rev]. rewrite rev_involutive. reflexivity. }
  exists data. split; [exact Hbody |]. split; [exact Hloc |].
  split; [rewrite <- Hloc; exact Hat |].
  intros r Hr E. rewrite Hdst in E at 2. apply (f_equal List.length) in E.
  rewrite !length_app in E. cbn in E. destruct r; [congruence | cbn in E; lia].
Qed.

End ArchiveModeFacts.

(* ===================================================================== *)
(** * Further properties of the provisioner *)
(* ===================================================================== *)

Section MoreProvisionerFacts.

Import Provision filepath os Builders Notions Shapes.

Variable link_mode_args : Mode -> list string.
Variable extldflags_from_cc_toolchain : GoContext -> list string.
Variable declare_directory : GoContext -> string -> File.
Variable declare_file : GoContext -> string -> File.
Variable actions_declare_file : string -> File.
Variable builder_args : GoContext -> string -> list string.

Local Abbreviation build_stdlib' :=
  (_build_stdlib link_mode_args extldflags_from_cc_toolchain declare_directory
     declare_file actions_declare_file builder_args).

Lemma slice_from_past d c rest :
  slice_from (String.length d + 1) (d +:+ String c rest) = rest.
Proof.
  induction d as [|a d IH]; [reflexivity |].
  rewrite string_app_cons. cbn [String.length Nat.add slice_from]. exact IH.
Qed.

(** X17. With a zipper, an SDK input whose path lies below the directory of
    the SDK's root file is entered in the archive under its path relative to
    that directory: the packaging action has the argument made of this
    relative path, "=" and the path of the file. *)
Theorem zip_entries_are_relative_to_sdk_root
    (go : GoContext) (zipper f : File) (rel : string)
    (Hzip : go_zipper go = Some zipper)
    (Hinput : f ∈ all_sdk_inputs go)
    (Hunder : path f = dirname (sdk_root_file (go_sdk go)) +:+ "/" +:+ rel) :
  exists packaging,
    ActRun packaging ∈ snd (build_stdlib' go) /\
    run_mnemonic packaging = "GoStdlibZip" /\
    (rel +:+ "=" +:+ path f) ∈ run_arguments packaging.
Proof.
  unfold _build_stdlib. rewrite Hzip. cbn.
  eexists. split; [right; left |]. split; [reflexivity |]. cbn [run_arguments].
  right. right. apply list_elem_of_fmap. exists f. split; [| exact Hinput].
  unfold zip_entry_arg. rewrite Hunder.
  change (dirname (sdk_root_file (go_sdk go)) +:+ "/" +:+ rel)
    with (dirname (sdk_root_file (go_sdk go)) +:+ String "/" rel).
  rewrite slice_from_past. reflexivity.
Qed.

(** X18. The environment of the "GoStdlib" action is that of the context
    with the cgo settings laid over it: every variable other than
    CGO_ENABLED, CC, CGO_CFLAGS and CGO_LDFLAGS keeps the value the context
    gives it, and in pure mode CGO_ENABLED is the only variable set, so a CC,
    CGO_CFLAGS or CGO_LDFLAGS of the context is passed on as it is. *)
Theorem build_env_keeps_other_variables (go : GoContext) :
  exists b,
    ActRun b ∈ snd (build_stdlib' go) /\
    run_mnemonic b = "GoStdlib" /\
    run_env b = Some (stdlib_env extldflags_from_cc_toolchain go) /\
    (forall key, key ∉ ["CGO_ENABLED"; "CC"; "CGO_CFLAGS"; "CGO_LDFLAGS"] ->
       stdlib_env extldflags_from_cc_toolchain go !! key = go_env go !! key) /\
    (mode_pure (go_mode go) = true ->
     forall key, key <> "CGO_ENABLED" ->
       stdlib_env extldflags_from_cc_toolchain go !! key = go_env go !! key).
Proof.
  destruct (build_stdlib_actions link_mode_args extldflags_from_cc_toolchain
              declare_directory declare_file actions_declare_file builder_args go)
    as (pk & b & Hacts & Hmn & Henv & _).
  exists b. split.
  { rewrite Hacts, elem_of_cons, elem_of_app, list_elem_of_singleton. auto. }
  split; [exact Hmn |]. split; [exact Henv |]. split.
  - intros key Hkey. unfold stdlib_env.
    rewrite !not_elem_of_cons in Hkey. destruct Hkey as (H1 & H2 & H3 & H4 & _).
    destruct (mode_pure (go_mode go)); rewrite !lookup_insert_ne by congruence; reflexivity.
  - intros Hpure key Hkey. unfold stdlib_env. rewrite Hpure.
    apply lookup_insert_ne. congruence.
Qed.

End MoreProvisionerFacts.

(* ===================================================================== *)
(** * The further theorems at concrete inputs *)
(* ===================================================================== *)

Section MoreInstances.

Import Provision filepath os Builders Notions Commands Shapes Scenario Samples.

Lemma no_symlinks_checked t :
  map_Forall (fun _ n => is_link n = false) t -> no_symlinks t.
Proof. intros H k target Hk. specialize (H k _ Hk). discriminate. Qed.

Lemma sdk_disk_no_symlinks : no_symlinks (tree sdk_disk).
Proof. apply no_symlinks_checked. apply (bool_decide_unpack _). vm_compute. exact I. Qed.

Lemma sdk_disk_shaped : tree_shaped (tree sdk_disk).
Proof. unfold tree_shaped. apply (bool_decide_unpack _). vm_compute. exact I. Qed.

Lemma sdk_disk_shallow : shallow (tree sdk_disk).
Proof. unfold shallow. apply (bool_decide_unpack _). vm_compute. exact I. Qed.

Lemma plain_go : plain_element "go".
Proof. repeat split; discriminate. Qed.

Lemma way_to_out_go (k : location) :
  k `prefix_of` locate sdk_disk "/out/go" -> k <> locate sdk_disk "/out/go" -> k <> [] ->
  tree sdk_disk !! k = None \/ tree sdk_disk !! k = Some NDir.
Proof.
  change (locate sdk_disk "/out/go") with ["out"; "go"].
  intros [b Hb] Hne H0. right.
  destruct k as [|x [|y [|z k]]]; [congruence | | | discriminate].
  - injection Hb as <- _. vm_compute. reflexivity.
  - injection Hb as <- <- _. congruence.
Qed.

Lemma sdk_apart_from_out_go :
  ~ locate sdk_disk "/sdk" `prefix_of` locate sdk_disk "/out/go" /\
  ~ locate sdk_disk "/out/go" `prefix_of` locate sdk_disk "/sdk".
Proof. split; intros [b Hb]; discriminate. Qed.

(** The entries of a tree given in full, one case for each. *)
Ltac each_entry H :=
  apply elem_of_map_to_list in H; vm_compute in H;
  repeat (apply elem_of_cons in H as [H | H]); [.. | apply elem_of_nil in H; destruct H].

Lemma filesystem_mode_copies_every_file_witness :
  exists fs',
    replicateTree "/sdk" "/out/go" (configure []) sdk_disk = (Ok tt, fs') /\
    tree fs' !! ["out"; "go"; "VERSION"] = Some (NFile "go1.12" 292) /\
    tree fs' !! ["out"; "go"; "src"; "fmt"; "print.go"] = Some (NFile "package fmt" 420) /\
    tree fs' !! ["out"; "go"; "src"; "fmt"] = Some NDir /\
    tree fs' !! ["sdk"; "src"; "fmt"; "print.go"] = Some (NFile "package fmt" 420).
Proof.
  destruct (filesystem_mode_copies_every_file "/sdk" "/out/go" (configure []) sdk_disk "go"
              eq_refl eq_refl sdk_disk_no_symlinks sdk_disk_shaped sdk_disk_shallow
              eq_refl ltac:(vm_compute; reflexivity) ltac:(vm_compute; reflexivity)
              ltac:(vm_compute; reflexivity) ltac:(vm_compute; reflexivity) plain_go
              (proj1 sdk_apart_from_out_go) (proj2 sdk_apart_from_out_go) way_to_out_go)
    as (fs' & Hrun & Hcopied & Hsource).
  assert (Hprint : tree sdk_disk !! (locate sdk_disk "/sdk" ++ ["src"; "fmt"; "print.go"])
                   = Some (NFile "package fmt" 420)) by (vm_compute; reflexivity).
  exists fs'. split; [exact Hrun |]. split; [| split; [| split]].
  - apply (Hcopied ["VERSION"]). vm_compute. reflexivity.
  - exact (proj1 (Hcopied _ _ _ Hprint)).
  - apply (proj2 (Hcopied _ _ _ Hprint) ["src"; "fmt"]);
      [exists ["print.go"]; reflexivity | discriminate].
  - rewrite (Hsource ["sdk"; "src"; "fmt"; "print.go"]).
    + vm_compute. reflexivity.
    + exists ["src"; "fmt"; "print.go"]. reflexivity.
Defined.

Lemma filesystem_mode_replicates_files_only_witness :
  exists fs',
    replicateTree "/sdk" "/out/go" (configure []) sdk_disk = (Ok tt, fs') /\
    tree fs' !! ["out"; "go"; "doc"] = None /\
    tree fs' !! ["out"; "go"; "stale"] = None.
Proof.
  destruct (filesystem_mode_replicates_files_only "/sdk" "/out/go" (configure []) sdk_disk
              "go" eq_refl eq_refl sdk_disk_no_symlinks sdk_disk_shaped sdk_disk_shallow
              eq_refl ltac:(vm_compute; reflexivity) ltac:(vm_compute; reflexivity)
              ltac:(vm_compute; reflexivity) ltac:(vm_compute; reflexivity) plain_go
              (proj1 sdk_apart_from_out_go) (proj2 sdk_apart_from_out_go) way_to_out_go)
    as (fs' & Hrun & Honly & _).
  exists fs'. split; [exact Hrun |]. split.
  - destruct (tree fs' !! ["out"; "go"; "doc"]) as [nd|] eqn:E; [| reflexivity].
    exfalso.
    destruct (Honly ["doc"] nd E) as [(d & p & _ & Hf) | (_ & r' & d & p & [b ->] & Hne & Hf)].
    + vm_compute in Hf. discriminate.
    + each_entry Hf; discriminate Hf.
  - destruct (tree fs' !! ["out"; "go"; "stale"]) as [nd|] eqn:E; [| reflexivity].
    exfalso.
    destruct (Honly ["stale"] nd E) as [(d & p & _ & Hf) | (_ & r' & d & p & [b ->] & Hne & Hf)].
    + vm_compute in Hf. discriminate.
    + each_entry Hf; discriminate Hf.
Defined.

Lemma filesystem_mode_leaves_the_rest_witness :
  exists fs',
    replicateTree "/sdk" "/out/go" (configure []) sdk_disk = (Ok tt, fs') /\
    cwd fs' = [] /\
    tree fs' !! ["sdk"; "doc"] = Some NDir /\
    tree fs' !! ["out"] = Some NDir /\
    tree fs' !! ["tmp"] = None.
Proof.
  destruct (filesystem_mode_leaves_the_rest "/sdk" "/out/go" (configure []) sdk_disk
              "go" eq_refl eq_refl sdk_disk_no_symlinks sdk_disk_shaped sdk_disk_shallow
              eq_refl ltac:(vm_compute; reflexivity) ltac:(vm_compute; reflexivity)
              ltac:(vm_compute; reflexivity) ltac:(vm_compute; reflexivity) plain_go
              (proj1 sdk_apart_from_out_go) (proj2 sdk_apart_from_out_go) way_to_out_go)
    as (fs' & Hrun & Hcwd & Hrest).
  exists fs'. split; [exact Hrun |]. split; [exact Hcwd |].
  assert (Hout : forall k, ~ ["out"; "go"] `prefix_of` k ->
            tree fs' !! k = tree sdk_disk !! k \/
            (tree sdk_disk !! k = None /\ tree fs' !! k = Some NDir /\
             k `prefix_of` ["out"; "go"])) by exact Hrest.
  split; [| split].
  - destruct (Hout ["sdk"; "doc"]) as [E | (Hn & _)].
    + intros [b Hb]. discriminate.
    + rewrite E. vm_compute. reflexivity.
    + vm_compute in Hn. discriminate.
  - destruct (Hout ["out"]) as [E | (Hn & _)].
    + intros [b Hb]. discriminate.
    + rewrite E. vm_compute. reflexivity.
    + vm_compute in Hn. discriminate.
  - destruct (Hout ["tmp"]) as [E | (_ & _ & [b Hb])].
    + intros [b Hb]. discriminate.
    + rewrite E. vm_compute. reflexivity.
    + discriminate.
Defined.

Lemma filesystem_mode_copies_single_file_witness :
  exists fs',
    replicateTree "/sdk/VERSION" "/out/go" (configure []) sdk_disk = (Ok tt, fs') /\
    tree fs' !! ["out"; "go"] = Some (NFile "go1.12" 292) /\
    tree fs' !! ["out"; "go"; "stale"] = None.
Proof.
  destruct (filesystem_mode_copies_single_file "/sdk/VERSION" "/out/go" (configure [])
              sdk_disk "go" "go1.12" 292 eq_refl sdk_disk_no_symlinks sdk_disk_shaped
              eq_refl ltac:(vm_compute; reflexivity) ltac:(vm_compute; reflexivity)
              ltac:(vm_compute; reflexivity) ltac:(vm_compute; reflexivity) plain_go
              ltac:(intros [b Hb]; discriminate) way_to_out_go)
    as (fs' & Hrun & _ & Hfile & Hbelow & _).
  exists fs'. split; [exact Hrun |]. split; [exact Hfile |].
  apply (Hbelow ["out"; "go"; "stale"]); [exists ["stale"]; reflexivity | discriminate].
Defined.

Lemma filesystem_mode_removes_destination_first_witness :
  exists err fs',
    replicateTree "/out/go/stale" "/out/go" (configure []) sdk_disk = (Err err, fs') /\
    tree fs' !! ["out"; "go"; "stale"] = None /\
    tree fs' !! ["out"; "go"] = None /\
    tree fs' !! ["out"] = Some NDir.
Proof.
  destruct (filesystem_mode_removes_destination_first "/out/go/stale" "/out/go"
              (configure []) sdk_disk "go" sdk_disk_no_symlinks sdk_disk_shaped
              eq_refl ltac:(vm_compute; reflexivity) ltac:(vm_compute; reflexivity)
              ltac:(vm_compute; reflexivity) plain_go
              ltac:(left; exists ["stale"]; reflexivity))
    as (err & fs' & Hrun & _ & Htree).
  exists err, fs'. split; [exact Hrun |].
  change (locate sdk_disk "/out/go") with ["out"; "go"] in Htree.
  rewrite !Htree. repeat split; vm_compute; reflexivity.
Defined.

(** ** The environment layer *)

Lemma params_file_round_trip_witness :
  readParamsFiles ["-param=args.params"] args_fs = (Ok ["-o"; ""; "-param=x"; "a b"], args_fs).
Proof.
  refine (proj2 (params_file_round_trip sample_args "args.params" args_fs _ _)).
  - repeat constructor.
  - vm_compute. reflexivity.
Defined.

Lemma readParamsFiles_fails_on_first_unreadable_witness :
  readParamsFiles ["-o"; "-param=file.txt"; "-param=missing"; "-param=gone"] params_fs =
    (Err "open missing: no such file or directory", params_fs).
Proof.
  refine (readParamsFiles_fails_on_first_unreadable params_fs ["-o"; "-param=file.txt"]
            ["-param=gone"] "-param=missing" _ eq_refl _ _).
  - vm_compute. reflexivity.
  - intros b Hb Hp. repeat (apply elem_of_cons in Hb as [-> | Hb]); try discriminate Hp.
    + vm_compute. reflexivity.
    + apply elem_of_nil in Hb. destruct Hb.
Defined.

Lemma abs_idempotent_witness :
  abs (Ok "/work") (abs (Ok "/work") "a/../b//c") = "/work/b/c".
Proof.
  rewrite (abs_idempotent (Ok "/work") "a/../b//c" eq_refl). reflexivity.
Defined.

Lemma abs_keeps_meaning_witness :
  reaches args_fs (abs (Ok "/work") "../work//args.params")
  = Some ["work"; "args.params"].
Proof.
  apply (abs_keeps_meaning args_fs "/work" "../work//args.params"
           ["work"; "args.params"] eq_refl);
    vm_compute; reflexivity.
Defined.

Lemma cgoEnvVars_distinct : NoDup cgoEnvVars.
Proof. apply (bool_decide_unpack _). vm_compute. exact I. Qed.

Lemma absEnv_rewrites_listed_variables_witness :
  exists env',
    absEnv (Ok "/work") cgoEnvVars cgoAbsEnvFlags cgo_environ = (None, env') /\
    Getenv "CGO_CFLAGS" env' = "-I /work/inc -O2 -isystem=/work/sys" /\
    Getenv "CGO_LDFLAGS" env' = "" /\
    "CGO_LDFLAGS" ∈ (fst <$> env') /\
    Getenv "HOME" env' = "/root".
Proof.
  destruct (absEnv_rewrites_listed_variables (Ok "/work") cgoEnvVars cgoAbsEnvFlags
              cgo_environ cgoEnvVars_distinct) as (env' & Hrun & Hlisted & Hother).
  { intros name Hname.
    repeat (apply elem_of_cons in Hname as [-> | Hname]);
      [.. | apply elem_of_nil in Hname; destruct Hname];
      repeat split; try discriminate; vm_compute; reflexivity. }
  exists env'. split; [exact Hrun |].
  assert (H1 : "CGO_CFLAGS" ∈ cgoEnvVars) by (apply elem_of_cons; auto).
  assert (H2 : "CGO_LDFLAGS" ∈ cgoEnvVars).
  { apply elem_of_cons. right. apply elem_of_cons. right. apply elem_of_cons. right.
    apply elem_of_cons. left. reflexivity. }
  assert (H3 : "HOME" ∉ cgoEnvVars).
  { intros Hin'. repeat (apply elem_of_cons in Hin' as [E | Hin']); try discriminate.
    apply elem_of_nil in Hin'. destruct Hin'. }
  destruct (Hlisted _ H1) as [Hc _]. destruct (Hlisted _ H2) as [Hl Hin].
  destruct (Hother _ H3) as [Hh _].
  rewrite Hc, Hl, Hh. repeat split; try reflexivity. exact Hin.
Defined.

Lemma goTool_and_goCmd_lead_below_sdk_witness :
  goTool "linux" "amd64" demo_env "compile" ["-o"; "x"] =
    ["/sdk/pkg/tool/linux_amd64/compile"; "-o"; "x"] /\
  locate empty_disk "/sdk/pkg/tool/linux_amd64/compile" =
    ["sdk"; "pkg"; "tool"; "linux_amd64"; "compile"].
Proof.
  destruct (goTool_and_goCmd_lead_below_sdk "linux" "amd64" demo_env "compile" ["-o"; "x"]
              empty_disk ltac:(discriminate) ltac:(repeat split; discriminate)
              ltac:(repeat split; discriminate))
    as ((toolPath & Htool & Hloc) & _).
  split; [reflexivity |]. injection Htool as <-. exact Hloc.
Defined.

(** ** The archive replicator *)

Lemma stale_disk_no_symlinks : no_symlinks (tree stale_disk).
Proof. apply no_symlinks_checked. apply (bool_decide_unpack _). vm_compute. exact I. Qed.

Lemma zip_mode_leaves_other_entries_witness :
  tree (snd (zipReplicator_Replicate archives_after ascending "/sdk" "/out"
               (configure (from_zip ["src"] "sdk.zip")) stale_disk))
    !! ["out"; "src"; "old.go"] = Some (NFile "old" 420).
Proof.
  apply (zip_mode_leaves_other_entries archives_after ascending ascending_permutes
           "/sdk" "/out" (configure (from_zip ["src"] "sdk.zip")) new_archive stale_disk
           ["out"; "src"; "old.go"] (NFile "old" 420) eq_refl stale_disk_no_symlinks).
  - vm_compute. reflexivity.
  - intros f Hf _. apply elem_of_cons in Hf as [-> | Hf];
      [| apply elem_of_nil in Hf; destruct Hf].
    split; vm_compute; discriminate.
Defined.

Lemma zip_entry_name_can_leave_destination_witness :
  exists fs',
    zipReplicator_Replicate (fun _ => Ok escaping_archive) ascending "/sdk" "/out/sdk"
      (configure (from_zip [".."] "sdk.zip")) empty_disk = (Ok tt, fs') /\
    tree fs' !! ["out"; "escape.txt"] = Some (NFile "x" 420).
Proof.
  destruct (zipReplicator_Replicate (fun _ => Ok escaping_archive) ascending "/sdk" "/out/sdk"
              (configure (from_zip [".."] "sdk.zip")) empty_disk) as [r fs'] eqn:Erun.
  assert (Hr : r = Ok tt).
  { apply (f_equal fst) in Erun. vm_compute in Erun. congruence. }
  subst r. exists fs'. split; [reflexivity |].
  destruct (zip_entry_name_can_leave_destination (fun _ => Ok escaping_archive) ascending
              "/sdk" "/out/sdk" (configure (from_zip [".."] "sdk.zip")) escaping_archive
              empty_disk fs' 0 (mkZipFile "../escape.txt" false 420 (Ok "x")) "sdk"
              "escape.txt" eq_refl empty_disk_no_symlinks Erun eq_refl)
    as (data & Hbody & _ & Hat & _).
  - intros j g Hj Hg. destruct j as [|[|j]]; [lia | discriminate | discriminate].
  - vm_compute. reflexivity.
  - repeat split; discriminate.
  - reflexivity.
  - repeat split; discriminate.
  - injection Hbody as <-. exact Hat.
Defined.

(** ** The provisioner *)

Lemma zip_entries_are_relative_to_sdk_root_witness :
  exists packaging,
    ActRun packaging ∈
      snd (_build_stdlib (fun _ => ["-linkmode=normal"]) (fun _ => ["-lpthread"])
             out_file out_file (fun name => mkFile ("bazel-out/" +:+ name) "bazel-out")
             (fun _ command => [command]) demo_go) /\
    run_mnemonic packaging = "GoStdlibZip" /\
    "src/fmt/print.go=external/go_sdk/src/fmt/print.go" ∈ run_arguments packaging.
Proof.
  refine (zip_entries_are_relative_to_sdk_root (fun _ => ["-linkmode=normal"])
            (fun _ => ["-lpthread"]) out_file out_file
            (fun name => mkFile ("bazel-out/" +:+ name) "bazel-out")
            (fun _ command => [command]) demo_go demo_zipper
            (mkFile "external/go_sdk/src/fmt/print.go" "external/go_sdk/src/fmt")
            "src/fmt/print.go" eq_refl _ eq_refl).
  apply elem_of_cons. left. reflexivity.
Defined.

End MoreInstances.
